(** * DesiGators: load-cell array and measurement coordinator

    A shallow embedding of [src/components/load_cell.py] (classes [LoadCell]
    and [LoadCellArray], and the calibration program [main]) and of
    [MeasurementCoordinator.run] from [src/gui.py], followed by the
    properties of the sampling subsystem.

    Conventions of the embedding:
    - Python [int] is [Z]; Python [float] is modelled by the rational it
      stands for ([Q]), so arithmetic is exact;
    - a Python exception is a value of [exn]; code that can raise returns a
      [result];
    - methods that touch the HX711 driver thread the driver state through
      the monad [M]; an exception leaves the state reached so far in place,
      as in Python. *)

From Stdlib Require Import ZArith QArith Qround List String Ascii Bool Lia.
From Stdlib Require Import DecimalString DecimalZ Sorted Lqa Permutation.
Import ListNotations.

Open Scope Z_scope.

(** ** Exceptions and results *)

Inductive exn : Type :=
| ZeroDivisionError
| TypeError
| ValueError
| IndexError
| OSError.

Inductive result (A : Type) : Type :=
| Ok (a : A)
| Raise (e : exn).

Arguments Ok {A} a.
Arguments Raise {A} e.

Definition is_ok {A} (r : result A) : bool :=
  match r with Ok _ => true | Raise _ => false end.

Definition raises {A} (r : result A) : Prop :=
  exists e, r = Raise e.

(** ** State and exception monad *)

Definition M (S A : Type) : Type := S -> result A * S.

Definition ret {S A} (a : A) : M S A := fun s => (Ok a, s).

Definition throw {S A} (e : exn) : M S A := fun s => (Raise e, s).

Definition bind {S A B} (c : M S A) (k : A -> M S B) : M S B :=
  fun s =>
    match c s with
    | (Ok a, s') => k a s'
    | (Raise e, s') => (Raise e, s')
    end.

Definition lift {S A} (r : result A) : M S A := fun s => (r, s).

Notation "x <- c ;; k" := (bind c (fun x => k))
  (at level 61, c at next level, right associativity).

(** ** Python and numpy primitives *)

(** [sum(l)] over a list of ints. *)
Definition sum (l : list Z) : Z := fold_left Z.add l 0.

(** [sum(l) / len(l)]: true division of two ints.  The value is the exact
    quotient, which Python rounds to the nearest double. *)
Definition average (l : list Z) : result Q :=
  match l with
  | [] => Raise ZeroDivisionError
  | _ => Ok (inject_Z (sum l) / inject_Z (Z.of_nat (List.length l)))%Q
  end.

(** [x < y] on floats. *)
Definition Qltb (x y : Q) : bool :=
  match (x ?= y)%Q with Lt => true | _ => false end.

(** [numpy.sort]: the readings in ascending order. *)
Fixpoint insert_sorted (x : Z) (l : list Z) : list Z :=
  match l with
  | [] => [x]
  | y :: l' => if x <=? y then x :: l else y :: insert_sorted x l'
  end.

Definition sort (l : list Z) : list Z := fold_right insert_sorted [] l.

(** numpy's [_lerp a b t]. *)
Definition lerp (a b t : Q) : Q :=
  if Qle_bool (1 # 2) t then (b - (b - a) * (1 - t))%Q
  else (a + (b - a) * t)%Q.

(** [numpy.quantile(a, q)] with the default method (linear interpolation
    between the two order statistics around the virtual index [(n-1)*q]).
    On an empty array numpy fails with [IndexError]; a [q] outside [0,1] is a
    [ValueError].  The value is the exact interpolation, which numpy
    evaluates in double precision; the properties that rest on comparing
    readings with it are stated for samples of the 24-bit converter, on
    which both fall alike. *)
Definition quantile (a : list Z) (q : Q) : result Q :=
  if negb (Qle_bool 0 q && Qle_bool q 1) then Raise ValueError
  else
    match a with
    | [] => Raise IndexError
    | _ =>
        let arr := sort a in
        let n := Z.of_nat (List.length a) in
        let virtual_index := (inject_Z (n - 1) * q)%Q in
        let previous_index := Qfloor virtual_index in
        let next_index := Z.min (previous_index + 1) (n - 1) in
        let gamma := (virtual_index - inject_Z previous_index)%Q in
        let previous := nth (Z.to_nat previous_index) arr 0 in
        let next := nth (Z.to_nat next_index) arr 0 in
        Ok (lerp (inject_Z previous) (inject_Z next) gamma)
    end.

(** [str(n)] for an int. *)
Definition str_int (n : Z) : string := NilZero.string_of_int (Z.to_int n).

(** [c.upper()] on one character and [s.upper()] on a string. *)
Definition upper_ascii (c : ascii) : ascii :=
  let n := nat_of_ascii c in
  if (Nat.leb 97 n && Nat.leb n 122)%bool then ascii_of_nat (n - 32) else c.

Fixpoint upper (s : string) : string :=
  match s with
  | EmptyString => EmptyString
  | String c s' => String (upper_ascii c) (upper s')
  end.

(** ** The HX711 driver

    The vendor class [hx711.HX711] is outside the repository.  Its only
    method used here is [get_raw_data(times)], which returns raw integer
    samples of the sensor wired to the object's pins.  The driver state
    records, for each pin pair, what the successive calls will return
    ([feed]) and how many calls were made ([reads]); a call returns at most
    [times] samples. *)

Definition pins : Type := (Z * Z)%type.

Definition pins_eqb (p q : pins) : bool :=
  (fst p =? fst q) && (snd p =? snd q).

Record HX711 : Type := {
  feed : pins -> nat -> list Z;
  reads : pins -> nat
}.

Definition bump (p : pins) (hw : HX711) : HX711 :=
  {| feed := feed hw;
     reads := fun q => if pins_eqb q p then S (reads hw q) else reads hw q |}.

(** ** class LoadCell(hx711.HX711) *)

Module LoadCell.

Record t : Type := {
  data_pin : Z;
  clock_pin : Z;
  gain : Z;
  channel : string;
  id : string;
  m : option Q;
  b : option Q;
  offset : option Q   (* attribute created by [tare] only *)
}.

Definition set_offset (self : t) (v : option Q) : t :=
  {| data_pin := data_pin self; clock_pin := clock_pin self;
     gain := gain self; channel := channel self; id := id self;
     m := m self; b := b self; offset := v |}.

(** [__init__]: the vendor constructor, called first, is taken to accept
    the binding; [self.offset] is not assigned here. *)
Definition init (data_pin clock_pin gain : Z) (channel : string)
    (chamber : Z) (side : string) (m b : option Q) : result t :=
  if negb (existsb (Z.eqb chamber) [1; 2; 3; 4]) then Raise ValueError
  else if negb (existsb (String.eqb (upper side)) ["L"; "R"]%string)
  then Raise ValueError
  else Ok {| data_pin := data_pin; clock_pin := clock_pin; gain := gain;
             channel := channel;
             id := (str_int chamber ++ upper side)%string;
             m := m; b := b; offset := None |}.

Definition get_raw_data (self : t) (times : nat) : M HX711 (list Z) :=
  fun hw =>
    let p := (data_pin self, clock_pin self) in
    (Ok (firstn times (feed hw p (reads hw p))), bump p hw).

(** [tare]: returns the object with [offset] assigned. *)
Definition tare (self : t) (sample_size : nat) : M HX711 t :=
  readings <- get_raw_data self sample_size ;;
  average_val <- lift (average readings) ;;
  ret (set_offset self (Some average_val)).

(** The filter and mean of [take_measurement], on the readings pulled. *)
Definition trim (readings : list Z) : result (list Z) :=
  match quantile readings (1 # 10) with
  | Raise e => Raise e
  | Ok q10 =>
      match quantile readings (9 # 10) with
      | Raise e => Raise e
      | Ok q90 =>
          Ok (filter (fun r => Qltb q10 (inject_Z r) && Qltb (inject_Z r) q90)
                readings)
      end
  end.

Definition reduce (readings : list Z) : result Q :=
  match trim readings with
  | Raise e => Raise e
  | Ok kept => average kept
  end.

Definition take_measurement (self : t) : M HX711 Q :=
  readings <- get_raw_data self 10 ;;
  lift (reduce readings).

(** [self.m * measurement + self.b]; arithmetic on [None] is a
    [TypeError]. *)
Definition get_mass (self : t) : M HX711 Q :=
  measurement <- take_measurement self ;;
  match m self with
  | None => throw TypeError
  | Some slope =>
      match b self with
      | None => throw TypeError
      | Some intercept => ret (slope * measurement + intercept)%Q
      end
  end.

End LoadCell.

(** ** More Python primitives: strings, indexing, list mutation *)

(** The white space [int] and [float] skip around a number in ASCII text:
    tab, line feed, vertical tab, form feed, carriage return and space (the
    separators 28 to 31, which [str.strip] removes, are refused by both). *)
Definition is_space (c : ascii) : bool :=
  let n := nat_of_ascii c in
  (Nat.leb 9 n && Nat.leb n 13)%bool || Nat.eqb n 32.

Fixpoint lstrip (s : string) : string :=
  match s with
  | EmptyString => EmptyString
  | String c r => if is_space c then lstrip r else s
  end.

Fixpoint rstrip (s : string) : string :=
  match s with
  | EmptyString => EmptyString
  | String c r =>
      match rstrip r with
      | EmptyString => if is_space c then EmptyString else String c EmptyString
      | r' => String c r'
      end
  end.

Definition strip (s : string) : string := rstrip (lstrip s).

Definition is_digit (c : ascii) : bool :=
  let n := nat_of_ascii c in (Nat.leb 48 n && Nat.leb n 57)%bool.

(** Decimal digits with single underscores between them, as [int] accepts
    them; the underscores are dropped. *)
Fixpoint int_digits (s : string) : option string :=
  match s with
  | EmptyString => Some EmptyString
  | String c r =>
      if negb (is_digit c) then None
      else
        match r with
        | EmptyString => Some (String c EmptyString)
        | String u r2 =>
            if Ascii.eqb u "_" then
              match r2 with
              | EmptyString => None
              | _ => option_map (String c) (int_digits r2)
              end
            else option_map (String c) (int_digits r)
        end
  end.

(** [int(s)] on ASCII text: surrounding whitespace, an optional sign and
    decimal digits. *)
Definition py_int (s : string) : result Z :=
  let s := strip s in
  let '(negative, body) :=
    match s with
    | String "-"%char r => (true, r)
    | String "+"%char r => (false, r)
    | _ => (false, s)
    end in
  match int_digits body with
  | None => Raise ValueError
  | Some digits =>
      match NilZero.uint_of_string digits with
      | Some d => Ok (if negative then - Z.of_uint d else Z.of_uint d)
      | None => Raise ValueError
      end
  end.

(** [s[i]] on a string, for [i >= 0]: a one-character string. *)
Definition str_at (s : string) (i : nat) : result string :=
  match String.get i s with
  | Some c => Ok (String c EmptyString)
  | None => Raise IndexError
  end.

(** [l[i]] on a list, for [i >= 0]. *)
Definition list_at {A} (l : list A) (i : nat) : result A :=
  match nth_error l i with
  | Some x => Ok x
  | None => Raise IndexError
  end.

(** The position [l[i]] denotes for any int [i]: negative indices count from
    the end, anything else out of range is an [IndexError]. *)
Definition py_index {A} (l : list A) (i : Z) : result nat :=
  let n := Z.of_nat (List.length l) in
  if (0 <=? i) && (i <? n) then Ok (Z.to_nat i)
  else if (- n <=? i) && (i <? 0) then Ok (Z.to_nat (i + n))
  else Raise IndexError.

(** [l.insert(i, x)] for [i >= 0]: past the end it appends. *)
Definition list_insert {A} (i : nat) (x : A) (l : list A) : list A :=
  firstn i l ++ x :: skipn i l.

(** In-place change of the element at position [k]. *)
Fixpoint update {A} (k : nat) (f : A -> A) (l : list A) : list A :=
  match l, k with
  | [], _ => []
  | x :: l', O => f x :: l'
  | x :: l', S k' => x :: update k' f l'
  end.

(** [s.split(sep)] for a one-character separator. *)
Fixpoint split (sep : ascii) (s : string) : list string :=
  match s with
  | EmptyString => [EmptyString]
  | String c r =>
      if Ascii.eqb c sep then EmptyString :: split sep r
      else
        match split sep r with
        | h :: t => String c h :: t
        | [] => [String c EmptyString]
        end
  end.

(** [float(s)] and [str(x)] on floats are Python built-ins; they are taken
    as an interface. *)
Class PyFloat : Type := {
  str_float : Q -> string;
  float : string -> result Q
}.

(** [str(x)] for a coefficient that may be [None]. *)
Definition str_coeff `{PyFloat} (x : option Q) : string :=
  match x with
  | None => "None"%string
  | Some v => str_float v
  end.

(** ** class LoadCellArray *)

Module LoadCellArray.

Record t : Type := {
  cells : list (list LoadCell.t);
  num_cells : Z
}.

Definition set_cells (self : t) (cs : list (list LoadCell.t)) : t :=
  {| cells := cs; num_cells := num_cells self |}.

Definition set_num_cells (self : t) (n : Z) : t :=
  {| cells := cells self; num_cells := n |}.

(** The attributes assigned first by [__init__]. *)
Definition empty : t :=
  {| cells := [[]; []; []; []]; num_cells := 0 |}.

(** One pass of the loop of [__init__]. *)
Definition place (cell : LoadCell.t) : M t unit :=
  side <- lift (str_at (LoadCell.id cell) 1) ;;
  let index := if String.eqb side "L" then 0%nat else 1%nat in
  digit <- lift (str_at (LoadCell.id cell) 0) ;;
  chamber <- lift (py_int digit) ;;
  fun self =>
    match py_index (cells self) (chamber - 1) with
    | Raise e => (Raise e, self)
    | Ok k =>
        (Ok tt,
         {| cells := update k (list_insert index cell) (cells self);
            num_cells := num_cells self + 1 |})
    end.

Fixpoint place_all (cs : list LoadCell.t) : M t unit :=
  match cs with
  | [] => ret tt
  | cell :: cs' => _ <- place cell ;; place_all cs'
  end.

(** [__init__(cells)]: an exception leaves no object. *)
Definition init (cs : option (list LoadCell.t)) : result t :=
  match cs with
  | None => Ok empty
  | Some l =>
      match place_all l empty with
      | (Ok _, self) => Ok self
      | (Raise e, _) => Raise e
      end
  end.

Section Persistence.
Context `{PyFloat}.

Definition write_str (cell : LoadCell.t) : string :=
  (str_int (LoadCell.data_pin cell) ++ "," ++
   str_int (LoadCell.clock_pin cell) ++ "," ++
   str_int (LoadCell.gain cell) ++ "," ++
   LoadCell.channel cell ++ "," ++
   LoadCell.id cell ++ "," ++
   str_coeff (LoadCell.m cell) ++ "," ++
   str_coeff (LoadCell.b cell) ++ "|")%string.

(** [save_array]: the text written to [cache/load_cells.txt], one record
    per sensor, chamber by chamber. *)
Definition save_array (self : t) : string :=
  String.concat ""
    (List.concat (map (fun chamber => map write_str chamber) (cells self))).

Definition parse_coeff (s : string) : result (option Q) :=
  if negb (String.eqb s "None") then
    match float s with
    | Ok v => Ok (Some v)
    | Raise e => Raise e
    end
  else Ok None.

(** One pass of the loop of [load_array], on one record of the file. *)
Definition load_record (record : string) : M t unit :=
  let fields := split ","%char record in
  data_pin <- lift (match list_at fields 0 with
                    | Ok s => py_int s | Raise e => Raise e end) ;;
  clock_pin <- lift (match list_at fields 1 with
                     | Ok s => py_int s | Raise e => Raise e end) ;;
  gain <- lift (match list_at fields 2 with
                | Ok s => py_int s | Raise e => Raise e end) ;;
  channel <- lift (list_at fields 3) ;;
  ident <- lift (list_at fields 4) ;;
  digit <- lift (str_at ident 0) ;;
  chamber <- lift (py_int digit) ;;
  side <- lift (str_at ident 1) ;;
  let index := if String.eqb side "L" then 0%nat else 1%nat in
  slope <- lift (match list_at fields 5 with
                 | Ok s => parse_coeff s | Raise e => Raise e end) ;;
  intercept <- lift (match list_at fields 6 with
                     | Ok s => parse_coeff s | Raise e => Raise e end) ;;
  fun self =>
    match py_index (cells self) (chamber - 1) with
    | Raise e => (Raise e, self)
    | Ok k =>
        match LoadCell.init data_pin clock_pin gain channel chamber side
                slope intercept with
        | Raise e => (Raise e, self)
        | Ok cell =>
            (Ok tt,
             set_cells self (update k (list_insert index cell) (cells self)))
        end
    end.

Fixpoint load_records (records : list string) : M t unit :=
  match records with
  | [] => ret tt
  | record :: rest => _ <- load_record record ;; load_records rest
  end.

(** [load_array], on the text read from [cache/load_cells.txt].  The file
    is modelled by its text; the change of directory that precedes the read
    belongs to the file system and is left out. *)
Definition load_array (data_string : string) : M t unit :=
  fun self =>
    let self := set_num_cells self 0 in
    let records := removelast (split "|"%char data_string) in
    let self := set_num_cells self (Z.of_nat (List.length records)) in
    load_records records self.

End Persistence.

(** [take_measurement]: the two nested loops appending to [data]. *)
Fixpoint measure_chamber (chamber : list LoadCell.t) (data : list Q)
  : M HX711 (list Q) :=
  match chamber with
  | [] => ret data
  | cell :: rest =>
      mass <- LoadCell.get_mass cell ;;
      measure_chamber rest (data ++ [mass])
  end.

Fixpoint measure_chambers (chambers : list (list LoadCell.t)) (data : list Q)
  : M HX711 (list Q) :=
  match chambers with
  | [] => ret data
  | chamber :: rest =>
      data' <- measure_chamber chamber data ;;
      measure_chambers rest data'
  end.

Definition take_measurement (self : t) : M HX711 (list Q) :=
  measure_chambers (cells self) [].

End LoadCellArray.

(** ** class MeasurementCoordinator (gui.py)

    The coordinator's surroundings are a [World]: the HX711 drivers, what
    the successive lookups of [controls['measure']], calls of [time()] and
    calls of [rht_array.take_measurement()] yield (the flag is written by the
    GUI thread and the humidity sensors are outside the repository), and the
    [trace] of what the worker has emitted, printed and slept so far. *)

Inductive event : Type :=
| Print (e : exn)                  (* print(e) *)
| RhtResult (r : list (Q * Q))     (* rht_signals.result.emit(rht_readings) *)
| MassResult (r : list Q)          (* mass_signals.result.emit(mass_readings) *)
| Sleep (d : Q)                    (* sleep(d) *)
| Read.                            (* signals.read.emit() *)

Record World : Type := {
  hw : HX711;
  measure : nat -> bool;
  clock : nat -> Q;
  rht : nat -> result (list (Q * Q));
  lookups : nat;
  ticks : nat;
  rht_reads : nat;
  trace : list event
}.

Inductive control : Type := Continue | Break.

Module MeasurementCoordinator.

Record t : Type := {
  mass_array : LoadCellArray.t;
  interval : Q
}.

(** [self.controls['measure']] *)
Definition controls_measure : M World bool :=
  fun w =>
    (Ok (measure w (lookups w)),
     {| hw := hw w; measure := measure w; clock := clock w; rht := rht w;
        lookups := S (lookups w); ticks := ticks w;
        rht_reads := rht_reads w; trace := trace w |}).

(** [time()] *)
Definition time : M World Q :=
  fun w =>
    (Ok (clock w (ticks w)),
     {| hw := hw w; measure := measure w; clock := clock w; rht := rht w;
        lookups := lookups w; ticks := S (ticks w);
        rht_reads := rht_reads w; trace := trace w |}).

(** [self.rht_array.take_measurement()] *)
Definition rht_take_measurement : M World (list (Q * Q)) :=
  fun w =>
    (rht w (rht_reads w),
     {| hw := hw w; measure := measure w; clock := clock w; rht := rht w;
        lookups := lookups w; ticks := ticks w;
        rht_reads := S (rht_reads w); trace := trace w |}).

(** Emitting a signal, printing and sleeping extend the trace. *)
Definition emit (ev : event) : M World unit :=
  fun w =>
    (Ok tt,
     {| hw := hw w; measure := measure w; clock := clock w; rht := rht w;
        lookups := lookups w; ticks := ticks w;
        rht_reads := rht_reads w; trace := trace w ++ [ev] |}).

(** A method of the load-cell array run on the world's drivers. *)
Definition on_hw {A} (c : M HX711 A) : M World A :=
  fun w =>
    let '(r, hw') := c (hw w) in
    (r,
     {| hw := hw'; measure := measure w; clock := clock w; rht := rht w;
        lookups := lookups w; ticks := ticks w;
        rht_reads := rht_reads w; trace := trace w |}).

(** [try: c  except Exception as e: ...]: the outcome as a value. *)
Definition catch {S A} (c : M S A) : M S (result A) :=
  fun s => let '(r, s') := c s in (Ok r, s').

(** One pass of [while True] in [run]. *)
Definition cycle (self : t) : M World control :=
  flag <- controls_measure ;;
  if negb flag then ret Break
  else
    measurement_start_time <- time ;;
    attempt <- catch rht_take_measurement ;;
    match attempt with
    | Raise e =>
        _ <- emit (Print e) ;;
        ret Continue
    | Ok rht_readings =>
        _ <- emit (RhtResult rht_readings) ;;
        mass_readings <-
          on_hw (LoadCellArray.take_measurement (mass_array self)) ;;
        stamp <- time ;;
        let mass_readings := stamp :: mass_readings in
        _ <- emit (MassResult mass_readings) ;;
        measurement_stop_time <- time ;;
        let time_elapsed :=
          (measurement_stop_time - measurement_start_time)%Q in
        _ <- (if Qltb time_elapsed (interval self)
              then emit (Sleep (interval self - time_elapsed)%Q)
              else ret tt) ;;
        _ <- emit Read ;;
        ret Continue
    end.

(** [run]: at most [fuel] passes of the loop.  [Break] says the loop was
    left, [Continue] that it is still going after [fuel] passes. *)
Fixpoint run (fuel : nat) (self : t) : M World control :=
  match fuel with
  | O => ret Continue
  | S fuel' =>
      c <- cycle self ;;
      match c with
      | Break => ret Break
      | Continue => run fuel' self
      end
  end.

End MeasurementCoordinator.

(** ** Calibration at the console (components/load_cell.py)

    [calibrate] talks to the operator through [input] and [print].  The
    [Console] holds the drivers, the lines the successive calls of [input]
    will return ([stdin], with the number of calls made so far) and what has
    been shown ([stdout]). *)

Inductive output : Type :=
| Prompted (prompt : string)       (* the prompt of [input(prompt)] *)
| Printed (line : string).         (* print(line) *)

Record Console : Type := {
  driver : HX711;
  stdin : nat -> string;
  answered : nat;
  stdout : list output
}.

(** [input(prompt)] *)
Definition input (prompt : string) : M Console string :=
  fun c =>
    (Ok (stdin c (answered c)),
     {| driver := driver c; stdin := stdin c; answered := S (answered c);
        stdout := stdout c ++ [Prompted prompt] |}).

(** [print(line)] *)
Definition print (line : string) : M Console unit :=
  fun c =>
    (Ok tt,
     {| driver := driver c; stdin := stdin c; answered := answered c;
        stdout := stdout c ++ [Printed line] |}).

(** A method of a sensor run on the console's drivers. *)
Definition on_driver {A} (c : M HX711 A) : M Console A :=
  fun con =>
    let '(r, hw') := c (driver con) in
    (r,
     {| driver := hw'; stdin := stdin con; answered := answered con;
        stdout := stdout con |}).

(** [c.lower()] on one character and [s.lower()] on a string. *)
Definition lower_ascii (c : ascii) : ascii :=
  let n := nat_of_ascii c in
  if (Nat.leb 65 n && Nat.leb n 90)%bool then ascii_of_nat (n + 32) else c.

Fixpoint lower (s : string) : string :=
  match s with
  | EmptyString => EmptyString
  | String c s' => String (lower_ascii c) (lower s')
  end.

(** [numpy.polyfit(x, y, 1)], which returns the slope and the intercept of
    the fitted line, and the ["%f"] conversion of a float are outside the
    repository; they are taken as an interface. *)
Class Fit : Type := {
  polyfit : list Q -> list Z -> result (Q * Q);
  format_f : Q -> string
}.

(** [LoadCellArray.calibrate] and [main] run on a [Session]: the array the
    program holds, the console, and the text of [cache/load_cells.txt]
    ([None] while the file does not exist).  The sensors of the array are
    distinct objects, as [load_array] builds them, so that calibrating one
    changes the entry at its position only. *)
Record Session : Type := {
  load_cell_array : LoadCellArray.t;
  console : Console;
  cache : option string
}.

Module Calibration.

(** The assignment [self.m, self.b = ...]. *)
Definition set_coefficients (self : LoadCell.t) (slope intercept : Q)
  : LoadCell.t :=
  {| LoadCell.data_pin := LoadCell.data_pin self;
     LoadCell.clock_pin := LoadCell.clock_pin self;
     LoadCell.gain := LoadCell.gain self;
     LoadCell.channel := LoadCell.channel self;
     LoadCell.id := LoadCell.id self;
     LoadCell.m := Some slope; LoadCell.b := Some intercept;
     LoadCell.offset := LoadCell.offset self |}.

(** The loop [while not working_mass_accepted] of [LoadCell.calibrate]: at
    most [tries] entries are read; [None] says that none of them was a
    mass. *)
Fixpoint working_mass_loop (tries : nat) : M Console (option Z) :=
  match tries with
  | O => ret None
  | S tries' =>
      entry <- input ("Add a known mass onto the scale."
                      ++ String "010" "Mass: ")%string ;;
      match py_int entry with
      | Ok working_mass => ret (Some working_mass)
      | Raise _ =>
          _ <- print "Not a valid mass..." ;;
          working_mass_loop tries'
      end
  end.

(** The loop [while calibrating], for at most [fuel] passes; [None] says
    that a loop was still going when its bound was reached. *)
Fixpoint calibrating_loop (tries fuel : nat) (self : LoadCell.t)
    (calibration_data : list Q * list Z)
  : M Console (option (list Q * list Z)) :=
  match fuel with
  | O => ret None
  | S fuel' =>
      entry <- working_mass_loop tries ;;
      match entry with
      | None => ret None
      | Some working_mass =>
          _ <- print "Do not disturb the scale during meausurement..." ;;
          measurement <- on_driver (LoadCell.take_measurement self) ;;
          let calibration_data :=
            (fst calibration_data ++ [measurement],
             snd calibration_data ++ [working_mass]) in
          ans <- input "Do you wish to continue? [Y/N] " ;;
          let ans := lower ans in
          if String.eqb ans "n" then ret (Some calibration_data)
          else if String.eqb ans "no" then ret (Some calibration_data)
          else
            _ <- (if negb (String.eqb ans "y")
                  then print "Answer interpreted as 'yes'"
                  else ret tt) ;;
            calibrating_loop tries fuel' self calibration_data
      end
  end.

Section Fitting.
Context `{Fit}.

(** [LoadCell.calibrate]: the sensor as the call leaves it, or [None] when
    a loop was still going after [fuel] passes. *)
Definition calibrate (fuel : nat) (self : LoadCell.t)
  : M Console (option LoadCell.t) :=
  accept <- input "Are you sure you want to calibrate cell %s? (y/n) " ;;
  if String.eqb (lower accept) "y" then
    _ <- print ("Now calibrating load cell: " ++ LoadCell.id self)%string ;;
    _ <- input "Ensure that 0 mass is on the scale, then press enter." ;;
    measurement <- on_driver (LoadCell.take_measurement self) ;;
    outcome <- calibrating_loop fuel fuel self ([measurement], [0]) ;;
    match outcome with
    | None => ret None
    | Some calibration_data =>
        line <- lift (polyfit (fst calibration_data) (snd calibration_data)) ;;
        let self := set_coefficients self (fst line) (snd line) in
        _ <- print ("Regression Equation: y = " ++ format_f (fst line)
                    ++ "*x = " ++ format_f (snd line))%string ;;
        ret (Some self)
    end
  else ret (Some self).

Definition on_console {A} (c : M Console A) : M Session A :=
  fun s =>
    let '(r, con) := c (console s) in
    (r, {| load_cell_array := load_cell_array s; console := con;
           cache := cache s |}).

Definition on_array {A} (c : M LoadCellArray.t A) : M Session A :=
  fun s =>
    let '(r, arr) := c (load_cell_array s) in
    (r, {| load_cell_array := arr; console := console s; cache := cache s |}).

(** The sensor at position [j] of chamber list [i] as its [calibrate] left
    it. *)
Definition store (i j : nat) (cell : LoadCell.t) : M Session unit :=
  on_array (fun self =>
    (Ok tt,
     LoadCellArray.set_cells self
       (update i (update j (fun _ => cell)) (LoadCellArray.cells self)))).

(** The two nested loops of [LoadCellArray.calibrate]; [false] says that a
    sensor's calibration was still going after [fuel] passes. *)
Fixpoint calibrate_chamber (fuel i j : nat) (chamber : list LoadCell.t)
  : M Session bool :=
  match chamber with
  | [] => ret true
  | cell :: rest =>
      outcome <- on_console (calibrate fuel cell) ;;
      match outcome with
      | None => ret false
      | Some cell' =>
          _ <- store i j cell' ;;
          calibrate_chamber fuel i (S j) rest
      end
  end.

Fixpoint calibrate_chambers (fuel i : nat) (chambers : list (list LoadCell.t))
  : M Session bool :=
  match chambers with
  | [] => ret true
  | chamber :: rest =>
      finished <- calibrate_chamber fuel i 0 chamber ;;
      if finished then calibrate_chambers fuel (S i) rest else ret false
  end.

Definition calibrate_array (fuel : nat) : M Session bool :=
  fun s =>
    calibrate_chambers fuel 0 (LoadCellArray.cells (load_cell_array s)) s.

Context `{PyFloat}.

(** [open(path, 'r').read()]: a missing file is an [OSError]. *)
Definition read_cache : M Session string :=
  fun s =>
    match cache s with
    | Some data_string => (Ok data_string, s)
    | None => (Raise OSError, s)
    end.

(** [open(path, 'w')] followed by the writes of [save_array]. *)
Definition write_cache (text : string) : M Session unit :=
  fun s =>
    (Ok tt, {| load_cell_array := load_cell_array s; console := console s;
               cache := Some text |}).

(** [print(cell.m, cell.b, sep=',')] for every sensor, chamber by chamber. *)
Fixpoint print_coefficients (cs : list LoadCell.t) : M Console unit :=
  match cs with
  | [] => ret tt
  | cell :: rest =>
      _ <- print (str_coeff (LoadCell.m cell) ++ ","
                  ++ str_coeff (LoadCell.b cell))%string ;;
      print_coefficients rest
  end.

(** [main], run as a script ([load_array] then stays in the working
    directory); [false] says that a calibration was still going after [fuel]
    passes. *)
Definition main (fuel : nat) : M Session bool :=
  fresh <- lift (LoadCellArray.init None) ;;
  _ <- on_array (fun _ => (Ok tt, fresh)) ;;
  data_string <- read_cache ;;
  _ <- on_array (LoadCellArray.load_array data_string) ;;
  answer <- on_console (input "Do you want to calibrate? [Y/N]") ;;
  finished <- (if String.eqb answer "Y" then calibrate_array fuel
               else ret true) ;;
  if negb finished then ret false
  else
    _ <- (fun s =>
            on_console
              (print_coefficients
                 (List.concat (LoadCellArray.cells (load_cell_array s)))) s) ;;
    _ <- (fun s => write_cache (LoadCellArray.save_array (load_cell_array s)) s) ;;
    ret true.

End Fitting.

End Calibration.

(** * Vocabulary of the properties *)

(** ** The grid *)

(** The id [__init__] gives the sensor of a slot. *)
Definition slot_id (chamber : Z) (side : string) : string :=
  (str_int chamber ++ side)%string.

(** The chamber list of chamber [chamber] holds at most one sensor per side,
    the left one first. *)
Inductive chamber_ok (chamber : Z) : list LoadCell.t -> Prop :=
| chamber_none : chamber_ok chamber []
| chamber_left cl :
    LoadCell.id cl = slot_id chamber "L" -> chamber_ok chamber [cl]
| chamber_right cr :
    LoadCell.id cr = slot_id chamber "R" -> chamber_ok chamber [cr]
| chamber_both cl cr :
    LoadCell.id cl = slot_id chamber "L" ->
    LoadCell.id cr = slot_id chamber "R" -> chamber_ok chamber [cl; cr].

(** Four chambers, every slot holding at most one sensor. *)
Definition grid (cs : list (list LoadCell.t)) : Prop :=
  exists c1 c2 c3 c4,
    cs = [c1; c2; c3; c4] /\
    chamber_ok 1 c1 /\ chamber_ok 2 c2 /\ chamber_ok 3 c3 /\ chamber_ok 4 c4.

(** A sensor of some slot of the grid. *)
Definition slotted (cell : LoadCell.t) : Prop :=
  exists chamber side,
    1 <= chamber <= 4 /\ (side = "L"%string \/ side = "R"%string) /\
    LoadCell.id cell = slot_id chamber side.

(** Some sensor of the array already has the id of [cell]. *)
Definition occupied (self : LoadCellArray.t) (cell : LoadCell.t) : Prop :=
  exists c, In c (List.concat (LoadCellArray.cells self)) /\
            LoadCell.id c = LoadCell.id cell.

(** Position of a sensor's slot in array order (chamber 1 to 4, L before R),
    read off its id the way [__init__] reads it. *)
Definition slot_rank (cell : LoadCell.t) : Z :=
  match str_at (LoadCell.id cell) 0, str_at (LoadCell.id cell) 1 with
  | Ok digit, Ok side =>
      match py_int digit with
      | Ok chamber => 2 * (chamber - 1) + (if String.eqb side "L" then 0 else 1)
      | Raise _ => -1
      end
  | _, _ => -1
  end.


(** ** Samples and percentiles *)

(** The HX711 is a 24-bit converter: a raw sample is a signed 24-bit
    integer.  On such samples the comparisons of a batch of at most ten
    with its percentiles, which numpy evaluates in double precision, fall
    as they do on the rationals. *)
Definition raw24 (r : Z) : Prop := - 2 ^ 23 <= r < 2 ^ 23.

(** The quantile of order [q] of a sample given in ascending order, by
    linear interpolation between the two order statistics around the
    position [(n - 1) * q] (numpy's default method). *)
Definition linear_quantile (sorted : list Z) (q : Q) : Q :=
  let position := (inject_Z (Z.of_nat (List.length sorted) - 1) * q)%Q in
  let below := Qfloor position in
  let above := Z.min (below + 1) (Z.of_nat (List.length sorted) - 1) in
  (inject_Z (nth (Z.to_nat below) sorted 0%Z)
   + (position - inject_Z below)
     * (inject_Z (nth (Z.to_nat above) sorted 0%Z)
        - inject_Z (nth (Z.to_nat below) sorted 0%Z)))%Q.

(** The readings of a batch strictly between two bounds, in the order of
    the batch. *)
Definition strictly_between (lo hi : Q) (readings : list Z) : list Z :=
  filter (fun x => negb (Qle_bool (inject_Z x) lo)
                   && negb (Qle_bool hi (inject_Z x))) readings.

(** The arithmetic mean of a non-empty list of integers. *)
Definition mean (l : list Z) : Q :=
  (inject_Z (fold_right Z.add 0%Z l) / inject_Z (Z.of_nat (List.length l)))%Q.

(** ** Measuring the array *)

(** The masses of a list of sensors, read one after the other. *)
Fixpoint masses (cs : list LoadCell.t) : M HX711 (list Q) :=
  match cs with
  | [] => ret []
  | cell :: rest =>
      mass <- LoadCell.get_mass cell ;;
      more <- masses rest ;;
      ret (mass :: more)
  end.




(** ** The persisted text *)

Fixpoint has_char (c : ascii) (s : string) : bool :=
  match s with
  | EmptyString => false
  | String a r => Ascii.eqb a c || has_char c r
  end.

Fixpoint all_chars (p : ascii -> bool) (s : string) : bool :=
  match s with
  | EmptyString => true
  | String a r => p a && all_chars p r
  end.

Definition is_int_char (c : ascii) : bool :=
  is_digit c || Ascii.eqb c "-".

(** The sensor as [load_array] rebuilds it: [tare] is not persisted. *)
Definition reloaded (cell : LoadCell.t) : LoadCell.t :=
  LoadCell.set_offset cell None.

(** What loading the record of [cell] does to the chamber lists. *)
Definition put (cell : LoadCell.t) (cs : list (list LoadCell.t))
  : list (list LoadCell.t) :=
  update (Z.to_nat (slot_rank cell / 2))
    (list_insert (Z.to_nat (slot_rank cell mod 2)) (reloaded cell)) cs.

Section PersistenceVocabulary.
Context `{PyFloat}.

(** [float(str(x))] gives [x] back, and the text of [x] is neither the
    token [None] nor contains a delimiter. *)
Definition printable (x : option Q) : Prop :=
  match x with
  | None => True
  | Some v =>
      float (str_float v) = Ok v /\
      str_float v <> "None"%string /\
      has_char "," (str_float v) = false /\
      has_char "|" (str_float v) = false
  end.

(** A sensor whose fields can be written to the file. *)
Definition storable (cell : LoadCell.t) : Prop :=
  has_char "," (LoadCell.channel cell) = false /\
  has_char "|" (LoadCell.channel cell) = false /\
  printable (LoadCell.m cell) /\ printable (LoadCell.b cell).

(** The record of a sensor, without the closing delimiter. *)
Definition record_text (cell : LoadCell.t) : string :=
  (str_int (LoadCell.data_pin cell) ++ "," ++
   str_int (LoadCell.clock_pin cell) ++ "," ++
   str_int (LoadCell.gain cell) ++ "," ++
   LoadCell.channel cell ++ "," ++
   LoadCell.id cell ++ "," ++
   str_coeff (LoadCell.m cell) ++ "," ++
   str_coeff (LoadCell.b cell))%string.

End PersistenceVocabulary.

(** ** The trace of the coordinator *)

(** What one pass adds to the trace. *)
Definition events_of (self : MeasurementCoordinator.t) (w : World) : list event :=
  skipn (List.length (trace w)) (trace (snd (MeasurementCoordinator.cycle self w))).

Definition is_rht_result (ev : event) : bool :=
  match ev with RhtResult _ => true | _ => false end.

Definition is_mass_result (ev : event) : bool :=
  match ev with MassResult _ => true | _ => false end.

Definition is_sleep (ev : event) : bool :=
  match ev with Sleep _ => true | _ => false end.

(** The world with other values of the flag. *)
Definition with_measure (w : World) (flags : nat -> bool) : World :=
  {| hw := hw w; measure := flags; clock := clock w; rht := rht w;
     lookups := lookups w; ticks := ticks w; rht_reads := rht_reads w;
     trace := trace w |}.

(** The time the pass measures: from its first to its third call of
    [time()]. *)
Definition time_elapsed (w : World) : Q :=
  (clock w (S (S (ticks w))) - clock w (ticks w))%Q.

(** The pacing step of a pass that reaches it. *)
Definition pacing (self : MeasurementCoordinator.t) (w : World) : list event :=
  if Qltb (time_elapsed w) (MeasurementCoordinator.interval self)
  then [Sleep (MeasurementCoordinator.interval self - time_elapsed w)%Q]
  else [].

(** ** The records of a file and the sensors of an array *)

(** The number of occurrences of a character. *)
Fixpoint count_char (c : ascii) (s : string) : nat :=
  match s with
  | EmptyString => 0
  | String a r => (if Ascii.eqb a c then 1 else 0) + count_char c r
  end.

(** The number of sensors the chamber lists hold. *)
Definition sensors (self : LoadCellArray.t) : nat :=
  List.length (List.concat (LoadCellArray.cells self)).

(** ** Counting events *)

Definition is_read (ev : event) : bool :=
  match ev with Read => true | _ => false end.

(** The number of events of a kind. *)
Definition count (p : event -> bool) (evs : list event) : nat :=
  List.length (filter p evs).

(** ** Vocabulary of the calibration *)

(** The prompt of the mass entry. *)
Definition mass_prompt : string :=
  ("Add a known mass onto the scale." ++ String "010" "Mass: ")%string.

(** A line of ASCII characters, on which [int] reads the digits 0 to 9
    only. *)
Definition ascii_text (line : string) : Prop :=
  all_chars (fun ch => Nat.ltb (nat_of_ascii ch) 128) line = true.

(** What the console shows while [rejected] entries are refused. *)
Fixpoint refusals (rejected : nat) : list output :=
  match rejected with
  | O => []
  | S k => Prompted mass_prompt :: Printed "Not a valid mass..." :: refusals k
  end.

(** The pins of a sensor. *)
Definition pins_of (self : LoadCell.t) : pins :=
  (LoadCell.data_pin self, LoadCell.clock_pin self).

(** An answer that ends the calibration of a sensor. *)
Definition stop_answer (answer : string) : Prop :=
  lower answer = "n"%string \/ lower answer = "no"%string.


(** The sensor without its coefficients: what a calibration leaves as it
    is. *)
Definition wiring (cell : LoadCell.t) : LoadCell.t :=
  {| LoadCell.data_pin := LoadCell.data_pin cell;
     LoadCell.clock_pin := LoadCell.clock_pin cell;
     LoadCell.gain := LoadCell.gain cell;
     LoadCell.channel := LoadCell.channel cell;
     LoadCell.id := LoadCell.id cell;
     LoadCell.m := None; LoadCell.b := None;
     LoadCell.offset := LoadCell.offset cell |}.

(** What stays as it was across a calibration of the array. *)
Definition same_wiring (s s' : Session) : Prop :=
  map (map wiring) (LoadCellArray.cells (load_cell_array s')) =
    map (map wiring) (LoadCellArray.cells (load_cell_array s)) /\
  LoadCellArray.num_cells (load_cell_array s') =
    LoadCellArray.num_cells (load_cell_array s) /\
  cache s' = cache s.

(** The line [main] prints for a sensor. *)
Definition coefficient_line `{PyFloat} (cell : LoadCell.t) : output :=
  Printed (str_coeff (LoadCell.m cell) ++ ","
           ++ str_coeff (LoadCell.b cell))%string.

(** * Sample data of the worked examples *)

(** ** Sensors, drivers and arrays *)

Definition cell_1L : LoadCell.t :=
  {| LoadCell.data_pin := 5; LoadCell.clock_pin := 6; LoadCell.gain := 128;
     LoadCell.channel := "A"; LoadCell.id := "1L";
     LoadCell.m := Some (2 # 1); LoadCell.b := Some (1 # 2);
     LoadCell.offset := None |}.

Definition cell_1R : LoadCell.t :=
  {| LoadCell.data_pin := 13; LoadCell.clock_pin := 19; LoadCell.gain := 64;
     LoadCell.channel := "A"; LoadCell.id := "1R";
     LoadCell.m := None; LoadCell.b := None;
     LoadCell.offset := None |}.

Definition cell_3R : LoadCell.t :=
  {| LoadCell.data_pin := 20; LoadCell.clock_pin := 21; LoadCell.gain := 128;
     LoadCell.channel := "B"; LoadCell.id := "3R";
     LoadCell.m := Some (-3 # 4); LoadCell.b := None;
     LoadCell.offset := None |}.

Definition cell_3R_fit : LoadCell.t :=
  {| LoadCell.data_pin := 20; LoadCell.clock_pin := 21; LoadCell.gain := 128;
     LoadCell.channel := "B"; LoadCell.id := "3R";
     LoadCell.m := Some (-3 # 4); LoadCell.b := Some (10 # 1);
     LoadCell.offset := None |}.

(** A second sensor for the slot (1,L), on other pins. *)
Definition cell_1L_twin : LoadCell.t :=
  {| LoadCell.data_pin := 17; LoadCell.clock_pin := 27; LoadCell.gain := 128;
     LoadCell.channel := "A"; LoadCell.id := "1L";
     LoadCell.m := None; LoadCell.b := None;
     LoadCell.offset := None |}.

(** A sensor whose id names no chamber, as none built by [__init__] does. *)
Definition cell_bad_id : LoadCell.t :=
  {| LoadCell.data_pin := 2; LoadCell.clock_pin := 3; LoadCell.gain := 128;
     LoadCell.channel := "A"; LoadCell.id := "7L";
     LoadCell.m := None; LoadCell.b := None;
     LoadCell.offset := None |}.

(** A driver on which every sensor keeps reporting the counts 1..10. *)
Definition ramp_hw : HX711 :=
  {| feed := fun _ _ => [1; 2; 3; 4; 5; 6; 7; 8; 9; 10];
     reads := fun _ => 0%nat |}.

(** A driver on which every sensor is stuck at the count 5. *)
Definition stuck_hw : HX711 :=
  {| feed := fun _ _ => [5; 5; 5; 5; 5; 5; 5; 5; 5; 5];
     reads := fun _ => 0%nat |}.

(** Sensors at (1,L), (1,R) and (3,R); only the first is calibrated. *)
Definition sample_array : LoadCellArray.t :=
  {| LoadCellArray.cells := [[cell_1L; cell_1R]; []; [cell_3R]; []];
     LoadCellArray.num_cells := 3 |}.

(** Calibrated sensors at (1,L) and (3,R). *)
Definition fitted_array : LoadCellArray.t :=
  {| LoadCellArray.cells := [[cell_1L]; []; [cell_3R_fit]; []];
     LoadCellArray.num_cells := 2 |}.

(** The array holding [cell_1L] alone. *)
Definition one_cell_array : LoadCellArray.t :=
  {| LoadCellArray.cells := [[cell_1L]; []; []; []];
     LoadCellArray.num_cells := 1 |}.

(** A driver delivering the counts 1..10 in another order. *)
Definition shuffled_hw : HX711 :=
  {| feed := fun _ _ => [7; 2; 10; 4; 1; 9; 3; 8; 6; 5];
     reads := fun _ => 0%nat |}.

(** The ramp of [ramp_hw] under a preload of 100 counts. *)
Definition preloaded_hw : HX711 :=
  {| feed := fun _ _ => [101; 102; 103; 104; 105; 106; 107; 108; 109; 110];
     reads := fun _ => 0%nat |}.

(** A driver delivering three samples per batch. *)
Definition short_hw : HX711 :=
  {| feed := fun _ _ => [40; 10; 30]; reads := fun _ => 0%nat |}.

(** A driver delivering five samples at each of two neighbouring counts,
    and one delivering the lowest count twice. *)
Definition two_level_hw : HX711 :=
  {| feed := fun _ _ => [100; 100; 100; 100; 100; 101; 101; 101; 101; 101];
     reads := fun _ => 0%nat |}.

Definition low_pair_hw : HX711 :=
  {| feed := fun _ _ => [1; 1; 2; 3; 4; 5; 6; 7; 8; 9];
     reads := fun _ => 0%nat |}.


(** ** A decimal instance of the float interface

    [str] and [float] for values with a short decimal expansion, as Python
    prints them ([2.0], [0.5], [-0.75]). *)

Fixpoint fraction_digits (fuel : nat) (r d : Z) : string :=
  match fuel with
  | O => EmptyString
  | S fuel' =>
      if r =? 0 then EmptyString
      else String (ascii_of_nat (48 + Z.to_nat (r * 10 / d)))
             (fraction_digits fuel' ((r * 10) mod d) d)
  end.

Definition decimal_str (x : Q) : string :=
  let d := Z.pos (Qden x) in
  let a := Z.abs (Qnum x) in
  let sign := if Qnum x <? 0 then "-"%string else EmptyString in
  let fraction :=
    if a mod d =? 0 then "0"%string else fraction_digits 17 (a mod d) d in
  (sign ++ str_int (a / d) ++ "." ++ fraction)%string.

Definition decimal_float (s : string) : result Q :=
  let s := strip s in
  let '(negative, body) :=
    match s with
    | String "-"%char r => (true, r)
    | String "+"%char r => (false, r)
    | _ => (false, s)
    end in
  let signed (n : Z) := if negative then - n else n in
  match split "." body with
  | [whole] =>
      match NilZero.uint_of_string whole with
      | Some u => Ok (signed (Z.of_uint u) # 1)
      | None => Raise ValueError
      end
  | [whole; fraction] =>
      match NilEmpty.uint_of_string whole, NilEmpty.uint_of_string fraction with
      | Some u, Some f =>
          if String.eqb whole "" && String.eqb fraction "" then Raise ValueError
          else
            let scale := 10 ^ Z.of_nat (String.length fraction) in
            Ok (Qred (signed (Z.of_uint u * scale + Z.of_uint f)
                      # Z.to_pos scale))
      | _, _ => Raise ValueError
      end
  | _ => Raise ValueError
  end.

Definition decimal : PyFloat :=
  {| str_float := decimal_str; float := decimal_float |}.

(** ** Worlds and coordinators *)

Definition sample_rht : list (Q * Q) := [(21 # 1, 1 # 2)].

(** A world in which the flag stays set, the humidity read succeeds, the
    clock advances by 2 s per call and every load cell reports 1..10. *)
Definition steady_world : World :=
  {| hw := ramp_hw; measure := fun _ => true;
     clock := fun k => inject_Z (100 + 2 * Z.of_nat k);
     rht := fun _ => Ok sample_rht;
     lookups := 0; ticks := 0; rht_reads := 0; trace := [] |}.

(** The same world with a humidity read that fails the first time. *)
Definition flaky_world : World :=
  {| hw := ramp_hw; measure := fun _ => true;
     clock := fun k => inject_Z (100 + 2 * Z.of_nat k);
     rht := fun k => match k with O => Raise OSError | _ => Ok sample_rht end;
     lookups := 0; ticks := 0; rht_reads := 0; trace := [] |}.

(** A coordinator over the calibrated array, and one over the array with
    uncalibrated sensors; the interval is the default 10 s. *)
Definition fitted_coordinator : MeasurementCoordinator.t :=
  {| MeasurementCoordinator.mass_array := fitted_array;
     MeasurementCoordinator.interval := 10 # 1 |}.

Definition sample_coordinator : MeasurementCoordinator.t :=
  {| MeasurementCoordinator.mass_array := sample_array;
     MeasurementCoordinator.interval := 10 # 1 |}.

(** The calibrated coordinator with an interval of 3 s, which the 4 s of a
    pass in [steady_world] overrun. *)
Definition hurried_coordinator : MeasurementCoordinator.t :=
  {| MeasurementCoordinator.mass_array := fitted_array;
     MeasurementCoordinator.interval := 3 # 1 |}.

(** ** Consoles and sessions *)

(** A driver on which the load grows by 100 counts from one batch to the
    next. *)
Definition loading_hw : HX711 :=
  {| feed := fun _ k =>
       map (fun r => r + 100 * Z.of_nat k) [1; 2; 3; 4; 5; 6; 7; 8; 9; 10];
     reads := fun _ => 0%nat |}.

(** The operator typing the given lines, then empty lines. *)
Definition typing (lines : list string) : Console :=
  {| driver := loading_hw; stdin := fun k => nth k lines EmptyString;
     answered := 0; stdout := [] |}.

(** The ["%f"] conversion of a value with at most six decimals. *)
Definition fixed6 (x : Q) : string :=
  let n := Qfloor ((Z.abs (Qnum x) # Qden x) * inject_Z 1000000 + (1 # 2)) in
  let digit (p : Z) := String (ascii_of_nat (48 + Z.to_nat (n / p mod 10))) in
  ((if Qltb x 0 then "-" else "") ++ str_int (n / 1000000) ++ "." ++
   digit 100000 (digit 10000 (digit 1000 (digit 100 (digit 10 (digit 1 ""))))))%string.

(** A stand-in for numpy on the examples, which calibrate with one known
    mass: the line through the two points.  Other inputs do not occur in the
    examples. *)
Definition two_points : Fit :=
  {| polyfit := fun xs ys =>
       match xs, ys with
       | [x0; x1], [y0; y1] =>
           let slope := ((inject_Z y1 - inject_Z y0) / (x1 - x0))%Q in
           Ok (Qred slope, Qred (inject_Z y0 - slope * x0))
       | _, _ => Raise ValueError
       end;
     format_f := fixed6 |}.

(** A session at the start of [main]: the file, and the lines the operator
    will type. *)
Definition desk (file : option string) (lines : list string) : Session :=
  {| load_cell_array := LoadCellArray.empty; console := typing lines;
     cache := file |}.

(** * Properties *)

(** ** Comparisons and the monad *)

Lemma Qltb_lt (x y : Q) : Qltb x y = true <-> (x < y)%Q.
Proof.
  unfold Qltb. rewrite Qlt_alt.
  destruct (x ?= y)%Q; split; congruence.
Qed.

Lemma Qltb_irrefl (x y : Q) : (x == y)%Q -> Qltb x y = false.
Proof.
  intros E. destruct (Qltb x y) eqn:L; trivial.
  apply Qltb_lt in L. rewrite E in L. now apply Qlt_irrefl in L.
Qed.

Lemma lerp_linear (a c t : Q) : (lerp a c t == a + (c - a) * t)%Q.
Proof.
  unfold lerp. destruct (Qle_bool (1 # 2) t); ring.
Qed.

Lemma bind_ok {S A B} (c : M S A) (k : A -> M S B) s a s' :
  c s = (Ok a, s') -> bind c k s = k a s'.
Proof. unfold bind. now intros ->. Qed.


(** ** Sorting keeps the readings *)

Lemma insert_sorted_In x y l : In y (insert_sorted x l) <-> y = x \/ In y l.
Proof.
  induction l as [|z l IH]; simpl.
  - intuition.
  - destruct (x <=? z); simpl; rewrite ?IH; intuition.
Qed.

Lemma sort_In y l : In y (sort l) <-> In y l.
Proof.
  induction l as [|x l IH]; simpl; [tauto|].
  rewrite insert_sorted_In, IH. intuition.
Qed.

Lemma insert_sorted_length x l :
  List.length (insert_sorted x l) = S (List.length l).
Proof.
  induction l as [|z l IH]; simpl; trivial.
  destruct (x <=? z); simpl; auto.
Qed.

Lemma sort_length l : List.length (sort l) = List.length l.
Proof.
  induction l as [|x l IH]; simpl; trivial.
  now rewrite insert_sorted_length, IH.
Qed.

(** ** The quantile of a batch *)

(** Where the two order statistics of [quantile] sit. *)
Lemma virtual_index_range (n : Z) (q : Q) :
  1 <= n -> (0 <= q)%Q -> (q <= 1)%Q ->
  0 <= Qfloor (inject_Z (n - 1) * q) <= n - 1.
Proof.
  intros Hn H0 H1. split.
  - rewrite <- (Qfloor_Z 0). apply Qfloor_resp_le.
    apply Qmult_le_0_compat; trivial.
    change 0%Q with (inject_Z 0). rewrite <- Zle_Qle. lia.
  - assert (L : (inject_Z (n - 1) * q <= inject_Z (n - 1))%Q).
    { apply Qle_trans with (inject_Z (n - 1) * 1)%Q.
      - rewrite !(Qmult_comm (inject_Z (n - 1))).
        apply Qmult_le_compat_r; trivial.
        change 0%Q with (inject_Z 0). rewrite <- Zle_Qle. lia.
      - rewrite Qmult_1_r. apply Qle_refl. }
    apply Qfloor_resp_le in L. now rewrite Qfloor_Z in L.
Qed.

Lemma quantile_defined (a : list Z) (q : Q) :
  a <> [] -> (0 <= q)%Q -> (q <= 1)%Q ->
  exists lo hi : Z,
    In lo a /\ In hi a /\
    quantile a q =
      Ok (lerp (inject_Z lo) (inject_Z hi)
            (inject_Z (Z.of_nat (List.length a) - 1) * q
             - inject_Z (Qfloor (inject_Z (Z.of_nat (List.length a) - 1) * q)))).
Proof.
  intros Ha H0 H1. unfold quantile.
  apply Qle_bool_iff in H0 as B0. apply Qle_bool_iff in H1 as B1.
  rewrite B0, B1. simpl.
  destruct a as [|x a']; [congruence|].
  set (a := x :: a') in *.
  assert (Hn : 1 <= Z.of_nat (List.length a)) by (simpl; lia).
  pose proof (virtual_index_range _ q Hn H0 H1) as R.
  set (p := Qfloor _) in *.
  exists (nth (Z.to_nat p) (sort a) 0),
         (nth (Z.to_nat (Z.min (p + 1) (Z.of_nat (List.length a) - 1))) (sort a) 0).
  repeat split.
  - apply sort_In, nth_In. rewrite sort_length. lia.
  - apply sort_In, nth_In. rewrite sort_length. lia.
Qed.

Lemma trim_defined (readings : list Z) :
  readings <> [] ->
  exists q10 q90,
    quantile readings (1 # 10) = Ok q10 /\
    quantile readings (9 # 10) = Ok q90 /\
    LoadCell.trim readings =
      Ok (filter (fun r => Qltb q10 (inject_Z r) && Qltb (inject_Z r) q90)
            readings).
Proof.
  intros Hne.
  destruct (quantile_defined readings (1 # 10) Hne) as (l1 & h1 & _ & _ & E1);
    [discriminate | discriminate |].
  destruct (quantile_defined readings (9 # 10) Hne) as (l9 & h9 & _ & _ & E9);
    [discriminate | discriminate |].
  eexists. eexists. split; [exact E1|]. split; [exact E9|].
  unfold LoadCell.trim. now rewrite E1, E9.
Qed.

(** A batch of equal readings has that reading as every quantile. *)
Lemma quantile_constant (readings : list Z) (v : Z) (q : Q) :
  readings <> [] -> (forall x, In x readings -> x = v) ->
  (0 <= q)%Q -> (q <= 1)%Q ->
  exists r, quantile readings q = Ok r /\ (r == inject_Z v)%Q.
Proof.
  intros Hne Hall H0 H1.
  destruct (quantile_defined readings q Hne H0 H1) as (lo & hi & Il & Ih & E).
  apply Hall in Il. apply Hall in Ih. subst lo hi.
  eexists. split; [exact E|]. rewrite lerp_linear. ring.
Qed.

Lemma filter_none {A} (f : A -> bool) (l : list A) :
  (forall x, In x l -> f x = false) -> filter f l = [].
Proof.
  induction l as [|x l IH]; simpl; intros H; trivial.
  rewrite (H x) by auto. auto.
Qed.

Lemma trim_constant (readings : list Z) (v : Z) :
  readings <> [] -> (forall x, In x readings -> x = v) ->
  LoadCell.trim readings = Ok [].
Proof.
  intros Hne Hall.
  destruct (quantile_constant readings v (1 # 10) Hne Hall) as (q10 & E1 & V1);
    [discriminate | discriminate |].
  destruct (quantile_constant readings v (9 # 10) Hne Hall) as (q90 & E9 & V9);
    [discriminate | discriminate |].
  unfold LoadCell.trim. rewrite E1, E9. f_equal.
  apply filter_none. intros x Hx. apply Hall in Hx. subst x.
  rewrite (Qltb_irrefl q10 (inject_Z v) V1). reflexivity.
Qed.

Lemma take_measurement_unfold (self : LoadCell.t) (hw : HX711) :
  LoadCell.take_measurement self hw =
    (LoadCell.reduce
       (firstn 10
          (feed hw (LoadCell.data_pin self, LoadCell.clock_pin self)
             (reads hw (LoadCell.data_pin self, LoadCell.clock_pin self)))),
     bump (LoadCell.data_pin self, LoadCell.clock_pin self) hw).
Proof. reflexivity. Qed.

(** ** Batches of distinct readings *)

Lemma insert_sorted_sorted x l :
  StronglySorted Z.le l -> StronglySorted Z.le (insert_sorted x l).
Proof.
  induction 1 as [|y l Hs IH Hy]; simpl.
  - repeat constructor.
  - destruct (Z.leb_spec x y).
    + constructor; [now constructor|].
      constructor; trivial.
      eapply Forall_impl; [|exact Hy]. intros z Hz. lia.
    + constructor; trivial.
      apply Forall_forall. intros z Hz. apply insert_sorted_In in Hz as [-> | Hz].
      * lia.
      * now apply (proj1 (Forall_forall _ _) Hy).
Qed.

Lemma sort_sorted l : StronglySorted Z.le (sort l).
Proof.
  induction l as [|x l IH]; simpl; [constructor|].
  now apply insert_sorted_sorted.
Qed.

Lemma insert_sorted_NoDup x l :
  ~ In x l -> NoDup l -> NoDup (insert_sorted x l).
Proof.
  intros Hx Hl. induction Hl as [|y l Hy Hl IH]; simpl.
  - repeat constructor. intros [].
  - destruct (x <=? y).
    + constructor; [exact Hx | now constructor].
    + constructor.
      * rewrite insert_sorted_In. simpl in Hx. intuition.
      * apply IH. simpl in Hx. tauto.
Qed.

Lemma sort_NoDup l : NoDup l -> NoDup (sort l).
Proof.
  induction 1 as [|x l Hx Hl IH]; simpl; [constructor|].
  apply insert_sorted_NoDup; trivial. now rewrite sort_In.
Qed.

(** In a sorted array without repeats, later means larger. *)
Lemma nth_increasing (s : list Z) :
  StronglySorted Z.le s -> NoDup s ->
  forall i j, (i < j < List.length s)%nat -> nth i s 0 < nth j s 0.
Proof.
  induction 1 as [|a s Hs IH Ha]; intros Hnd i j Hij; simpl in Hij; [lia|].
  inversion Hnd as [|? ? Hna Hnd']; subst.
  destruct j as [|j]; [lia|]. destruct i as [|i]; simpl.
  - assert (Hin : In (nth j s 0) s) by (apply nth_In; lia).
    pose proof (proj1 (Forall_forall _ _) Ha _ Hin) as Hle.
    assert (a <> nth j s 0) by (intros ->; contradiction). lia.
  - apply IH; trivial. lia.
Qed.

Lemma lerp_below (a c t : Q) : (a < c)%Q -> (t < 1)%Q -> (lerp a c t < c)%Q.
Proof. intros Hac Ht. rewrite lerp_linear. nra. Qed.

Lemma lerp_not_below (a c t : Q) : (a <= c)%Q -> (0 <= t)%Q -> (a <= lerp a c t)%Q.
Proof. intros Hac Ht. rewrite lerp_linear. nra. Qed.

Lemma lerp_above (a c t : Q) : (a < c)%Q -> (0 < t)%Q -> (a < lerp a c t)%Q.
Proof. intros Hac Ht. rewrite lerp_linear. nra. Qed.

Lemma Qfloor_scaled (x : Z) (k : positive) :
  Qfloor (inject_Z x * (Z.pos k # 10)) = x * Z.pos k / 10.
Proof. unfold Qfloor, Qmult, inject_Z. simpl. reflexivity. Qed.

(** The two order statistics around the virtual index, for a quantile
    [k/10] of a batch of [n >= 2] readings. *)
Lemma quantile_tenths (a : list Z) (k : positive) :
  (2 <= List.length a)%nat -> (Z.pos k <= 10) ->
  let x := Z.of_nat (List.length a) - 1 in
  let lo := x * Z.pos k / 10 in
  quantile a (Z.pos k # 10) =
    Ok (lerp (inject_Z (nth (Z.to_nat lo) (sort a) 0))
             (inject_Z (nth (Z.to_nat (Z.min (lo + 1) x)) (sort a) 0))
             (inject_Z x * (Z.pos k # 10) - inject_Z lo)).
Proof.
  intros Hlen Hk x lo. unfold quantile.
  assert (B0 : Qle_bool 0 (Z.pos k # 10) = true) by reflexivity.
  assert (B1 : Qle_bool (Z.pos k # 10) 1 = true).
  { apply Qle_bool_iff. unfold Qle. simpl. lia. }
  rewrite B0, B1. cbn [andb negb].
  destruct a as [|r a']; [simpl in Hlen; lia|].
  fold x. rewrite Qfloor_scaled. reflexivity.
Qed.

(** A batch of at least three pairwise different readings keeps some
    reading, so its trimmed mean exists. *)
Lemma trim_distinct (readings : list Z) :
  NoDup readings -> (3 <= List.length readings)%nat ->
  exists kept, LoadCell.trim readings = Ok kept /\ kept <> [].
Proof.
  intros Hnd Hlen.
  set (s := sort readings).
  set (x := Z.of_nat (List.length readings) - 1).
  assert (Hx : 2 <= x) by (unfold x; lia).
  assert (Ex : x = Z.of_nat (List.length readings) - 1) by reflexivity.
  assert (Hs : forall i j, 0 <= i < j -> j <= x ->
                 nth (Z.to_nat i) s 0 < nth (Z.to_nat j) s 0).
  { intros i j Hij Hj. apply nth_increasing.
    - apply sort_sorted.
    - now apply sort_NoDup.
    - unfold s. rewrite sort_length. lia. }
  set (lo1 := x * 1 / 10). set (lo9 := x * 9 / 10).
  assert (B1 : 10 * lo1 <= x < 10 * lo1 + 10)
    by (unfold lo1; Z.div_mod_to_equations; lia).
  assert (B9 : 10 * lo9 <= 9 * x < 10 * lo9 + 10)
    by (unfold lo9; Z.div_mod_to_equations; lia).
  assert (E1 : lo1 = x * 1 / 10) by reflexivity.
  assert (E9 : lo9 = x * 9 / 10) by reflexivity.
  clearbody x lo1 lo9.
  set (v := nth (Z.to_nat (lo1 + 1)) s 0).
  assert (Hv : In v readings).
  { apply sort_In, nth_In. rewrite sort_length. lia. }
  unfold LoadCell.trim.
  rewrite (quantile_tenths readings 1) by lia.
  rewrite (quantile_tenths readings 9) by lia.
  rewrite <- Ex, <- E1, <- E9. fold s.
  clear E1 E9.
  replace (Z.min (lo1 + 1) x) with (lo1 + 1) by (lia).
  replace (Z.min (lo9 + 1) x) with (lo9 + 1) by (lia).
  fold v.
  eexists. split; [reflexivity|].
  intros Hnil.
  assert (Hin : In v (filter
            (fun r => Qltb (lerp (inject_Z (nth (Z.to_nat lo1) s 0)) (inject_Z v)
                              (inject_Z x * (1 # 10) - inject_Z lo1))
                        (inject_Z r) &&
                      Qltb (inject_Z r)
                        (lerp (inject_Z (nth (Z.to_nat lo9) s 0))
                           (inject_Z (nth (Z.to_nat (lo9 + 1)) s 0))
                           (inject_Z x * (9 # 10) - inject_Z lo9)))
            readings)); [|now rewrite Hnil in Hin].
  apply filter_In. split; [exact Hv|].
  apply andb_true_iff. split; apply Qltb_lt.
  - apply lerp_below.
    + rewrite <- Zlt_Qlt. apply Hs; lia.
    + assert (E : x < 10 * lo1 + 10) by (lia).
      rewrite Zlt_Qlt, inject_Z_plus, inject_Z_mult in E.
      change (inject_Z 10) with 10%Q in E. lra.
  - assert (G0 : (0 <= inject_Z x * (9 # 10) - inject_Z lo9)%Q).
    { assert (E : 10 * lo9 <= 9 * x) by (lia).
      rewrite Zle_Qle, !inject_Z_mult in E.
      change (inject_Z 10) with 10%Q in E. change (inject_Z 9) with 9%Q in E.
      lra. }
    assert (Up : (inject_Z (nth (Z.to_nat lo9) s 0%Z) <
                  inject_Z (nth (Z.to_nat (lo9 + 1)) s 0%Z))%Q).
    { rewrite <- Zlt_Qlt. apply Hs; lia. }
    destruct (Z.eq_dec lo9 (lo1 + 1)) as [Eq | N9].
    + unfold v. rewrite <- Eq. apply lerp_above; trivial.
      assert (E : 10 * lo9 < 9 * x) by (lia).
      rewrite Zlt_Qlt, !inject_Z_mult in E.
      change (inject_Z 10) with 10%Q in E. change (inject_Z 9) with 9%Q in E.
      lra.
    + apply Qlt_le_trans with (inject_Z (nth (Z.to_nat lo9) s 0)).
      * rewrite <- Zlt_Qlt. apply Hs; lia.
      * apply lerp_not_below; trivial. now apply Qlt_le_weak.
Qed.

(** X6.  On at least three pairwise different samples (of the 24-bit
    converter) [take_measurement] returns a value. *)
Lemma take_measurement_distinct (self : LoadCell.t) (hw hw' : HX711)
    (readings : list Z) :
  LoadCell.get_raw_data self 10 hw = (Ok readings, hw') ->
  NoDup readings -> (3 <= List.length readings)%nat ->
  Forall raw24 readings ->
  exists raw, LoadCell.take_measurement self hw = (Ok raw, hw').
Proof.
  intros Hpull Hnd Hlen _.
  destruct (trim_distinct readings Hnd Hlen) as (kept & Ht & Hk).
  unfold LoadCell.take_measurement. rewrite (bind_ok _ _ _ _ _ Hpull).
  unfold lift, LoadCell.reduce. rewrite Ht.
  destruct kept as [|r kept]; [congruence|]. eexists. reflexivity.
Qed.

(** ** LoadCell: calibrated mass *)

(** With the raw measurement in hand, [get_mass] is the linear map or the
    [TypeError] of arithmetic on [None]. *)
Lemma get_mass_of_raw (self : LoadCell.t) (hw hw' : HX711) (raw : Q) :
  LoadCell.take_measurement self hw = (Ok raw, hw') ->
  LoadCell.get_mass self hw =
    match LoadCell.m self, LoadCell.b self with
    | Some slope, Some intercept => (Ok (slope * raw + intercept)%Q, hw')
    | _, _ => (Raise TypeError, hw')
    end.
Proof.
  intros E. unfold LoadCell.get_mass.
  rewrite (bind_ok _ _ _ _ _ E).
  destruct (LoadCell.m self), (LoadCell.b self); reflexivity.
Qed.

(** C1. [get_mass] fails whenever the slope [m] or the intercept [b] is
    unset; for the raw measurement [raw] obtained in the call, the failure is
    the [TypeError] of arithmetic on [None], and with both coefficients set
    the result is exactly [m * raw + b]. *)
Theorem get_mass_calibration (self : LoadCell.t) (hw : HX711) :
  (LoadCell.m self = None \/ LoadCell.b self = None ->
   raises (fst (LoadCell.get_mass self hw))) /\
  (forall raw hw',
     LoadCell.take_measurement self hw = (Ok raw, hw') ->
     LoadCell.get_mass self hw =
       match LoadCell.m self, LoadCell.b self with
       | Some slope, Some intercept => (Ok (slope * raw + intercept)%Q, hw')
       | _, _ => (Raise TypeError, hw')
       end).
Proof.
  split.
  - intros Hunset. unfold LoadCell.get_mass, bind.
    destruct (LoadCell.take_measurement self hw) as [[raw|e] hw'].
    + destruct Hunset as [-> | Hb].
      * now exists TypeError.
      * rewrite Hb. destruct (LoadCell.m self); now exists TypeError.
    + now exists e.
  - intros raw hw'. apply get_mass_of_raw.
Qed.

Lemma get_mass_calibration_witness :
  LoadCell.get_mass cell_1L ramp_hw =
    (Ok ((2 # 1) * (44 # 8) + (1 # 2))%Q, bump (5, 6) ramp_hw) /\
  LoadCell.get_mass cell_3R ramp_hw = (Raise TypeError, bump (20, 21) ramp_hw) /\
  raises (fst (LoadCell.get_mass cell_1R stuck_hw)).
Proof.
  split; [| split].
  - exact (proj2 (get_mass_calibration cell_1L ramp_hw) _ _ eq_refl).
  - exact (proj2 (get_mass_calibration cell_3R ramp_hw) _ _ eq_refl).
  - exact (proj1 (get_mass_calibration cell_1R stuck_hw) (or_introl eq_refl)).
Defined.

(** ** LoadCell: the trimmed measurement *)

(** On the counts 1..10 the extremes 1 and 10 are dropped and the mean of
    2..9 is returned. *)
Example take_measurement_ramp :
  LoadCell.trim [1; 2; 3; 4; 5; 6; 7; 8; 9; 10] = Ok [2; 3; 4; 5; 6; 7; 8; 9] /\
  fst (LoadCell.take_measurement cell_1L ramp_hw) = Ok (44 # 8).
Proof. split; reflexivity. Qed.

(** The comparisons are strict on both sides, so a reading equal to a
    percentile is left out as well: here the 10th percentile is 5, the 90th
    is 12.1, and both readings 5 go with the 13. *)
Example take_measurement_boundary :
  (exists q10 q90,
     quantile [5; 5; 6; 7; 8; 9; 10; 11; 12; 13] (1 # 10) = Ok q10 /\
     quantile [5; 5; 6; 7; 8; 9; 10; 11; 12; 13] (9 # 10) = Ok q90 /\
     (q10 == 5)%Q /\ (q90 == 121 # 10)%Q) /\
  LoadCell.trim [5; 5; 6; 7; 8; 9; 10; 11; 12; 13] = Ok [6; 7; 8; 9; 10; 11; 12].
Proof.
  split; [|reflexivity].
  eexists. eexists. split; [reflexivity|]. split; [reflexivity|].
  split; reflexivity.
Qed.

(** A batch on which trimming leaves nothing makes [take_measurement] fail:
    the mean of the empty list divides by zero. *)
Lemma take_measurement_nothing_kept (self : LoadCell.t) (hw hw' : HX711)
    (readings : list Z) :
  LoadCell.get_raw_data self 10 hw = (Ok readings, hw') ->
  LoadCell.trim readings = Ok [] ->
  LoadCell.take_measurement self hw = (Raise ZeroDivisionError, hw').
Proof.
  intros Hpull Ht. unfold LoadCell.take_measurement.
  rewrite (bind_ok _ _ _ _ _ Hpull). unfold lift, LoadCell.reduce.
  now rewrite Ht.
Qed.

(** X7.  On a batch of equal readings, whatever its size, trimming keeps
    none of them and [take_measurement] raises [ZeroDivisionError], the
    driver having been read. *)
Lemma take_measurement_constant_batch (self : LoadCell.t) (hw hw' : HX711)
    (readings : list Z) (v : Z) :
  LoadCell.get_raw_data self 10 hw = (Ok readings, hw') ->
  readings <> [] -> (forall x, In x readings -> x = v) ->
  LoadCell.take_measurement self hw = (Raise ZeroDivisionError, hw').
Proof.
  intros Hpull Hne Hall.
  apply (take_measurement_nothing_kept self hw hw' readings Hpull).
  exact (trim_constant readings v Hne Hall).
Qed.

(** C4. On a sensor stuck at one count, trimming keeps no reading and
    [take_measurement] raises [ZeroDivisionError]; the untrimmed mean of the
    batch, 5, is not returned. *)
Theorem take_measurement_stuck_sensor :
  LoadCell.trim [5; 5; 5; 5; 5; 5; 5; 5; 5; 5] = Ok [] /\
  average [5; 5; 5; 5; 5; 5; 5; 5; 5; 5] = Ok (50 # 10) /\
  fst (LoadCell.take_measurement cell_1L stuck_hw) = Raise ZeroDivisionError.
Proof. repeat split; reflexivity. Qed.

(** ** LoadCell: tare *)

(** C10. The offset stored by [tare] is not read by the measurement path:
    whatever value the [offset] attribute holds, and in particular after a
    [tare] that succeeded, [take_measurement] and [get_mass] give on every
    driver state the results (and leave the driver as) they do on the sensor
    before. *)
Theorem tare_offset_unused (self : LoadCell.t) :
  (forall v hw,
     LoadCell.take_measurement (LoadCell.set_offset self v) hw =
       LoadCell.take_measurement self hw /\
     LoadCell.get_mass (LoadCell.set_offset self v) hw =
       LoadCell.get_mass self hw) /\
  (forall sample_size hw0 self' hw1,
     LoadCell.tare self sample_size hw0 = (Ok self', hw1) ->
     (exists v, LoadCell.offset self' = Some v) /\
     forall hw,
       LoadCell.take_measurement self' hw = LoadCell.take_measurement self hw /\
       LoadCell.get_mass self' hw = LoadCell.get_mass self hw).
Proof.
  assert (Frame : forall v hw,
     LoadCell.take_measurement (LoadCell.set_offset self v) hw =
       LoadCell.take_measurement self hw /\
     LoadCell.get_mass (LoadCell.set_offset self v) hw =
       LoadCell.get_mass self hw).
  { intros v hw. split; reflexivity. }
  split; [exact Frame|].
  intros sample_size hw0 self' hw1 Htare.
  unfold LoadCell.tare, bind, lift, ret in Htare.
  destruct (LoadCell.get_raw_data self sample_size hw0) as [[readings|e] hw2];
    [|discriminate].
  destruct (average readings) as [avg|e]; [|discriminate].
  injection Htare as <- _.
  split; [now exists avg|]. intros hw. apply Frame.
Qed.

Lemma tare_offset_unused_witness :
  (exists v, LoadCell.offset (LoadCell.set_offset cell_1L (Some (55 # 10))) = Some v) /\
  forall hw,
    LoadCell.take_measurement (LoadCell.set_offset cell_1L (Some (55 # 10))) hw =
      LoadCell.take_measurement cell_1L hw /\
    LoadCell.get_mass (LoadCell.set_offset cell_1L (Some (55 # 10))) hw =
      LoadCell.get_mass cell_1L hw.
Proof.
  exact (proj2 (tare_offset_unused cell_1L) 25%nat ramp_hw _ _ eq_refl).
Defined.

(** ** LoadCellArray: the grid and its order *)









Lemma slot_rank_left cell chamber :
  1 <= chamber <= 4 -> LoadCell.id cell = slot_id chamber "L" ->
  slot_rank cell = 2 * (chamber - 1).
Proof.
  intros Hc Hid. unfold slot_rank. rewrite Hid.
  assert (C : chamber = 1 \/ chamber = 2 \/ chamber = 3 \/ chamber = 4) by lia.
  destruct C as [-> | [-> | [-> | ->]]]; reflexivity.
Qed.

Lemma slot_rank_right cell chamber :
  1 <= chamber <= 4 -> LoadCell.id cell = slot_id chamber "R" ->
  slot_rank cell = 2 * (chamber - 1) + 1.
Proof.
  intros Hc Hid. unfold slot_rank. rewrite Hid.
  assert (C : chamber = 1 \/ chamber = 2 \/ chamber = 3 \/ chamber = 4) by lia.
  destruct C as [-> | [-> | [-> | ->]]]; reflexivity.
Qed.





Lemma sample_array_grid : grid (LoadCellArray.cells sample_array).
Proof.
  exists [cell_1L; cell_1R], [], [cell_3R], [].
  repeat split; constructor; reflexivity.
Qed.

Lemma fitted_array_grid : grid (LoadCellArray.cells fitted_array).
Proof.
  exists [cell_1L], [], [cell_3R_fit], [].
  repeat split; constructor; reflexivity.
Qed.




(** The vector of the calibrated array on the counts 1..10: the mass of
    (1,L), then that of (3,R). *)
Example take_measurement_fitted :
  fst (LoadCellArray.take_measurement fitted_array ramp_hw) =
    Ok [((2 # 1) * (44 # 8) + (1 # 2))%Q; ((-3 # 4) * (44 # 8) + (10 # 1))%Q].
Proof. reflexivity. Qed.

(** ** LoadCellArray: inserting sensors *)

Lemma existsb_false_not_In {A} (eqb : A -> A -> bool) (x : A) (l : list A) :
  (forall y, eqb x y = true <-> x = y) ->
  ~ In x l -> existsb (eqb x) l = false.
Proof.
  intros Heqb Hn. destruct (existsb (eqb x) l) eqn:E; trivial.
  apply existsb_exists in E as (y & Hy & Exy).
  apply Heqb in Exy. subst y. contradiction.
Qed.

(** [__init__] of a sensor rejects a chamber or side outside the grid. *)
Lemma init_invalid_topology data_pin clock_pin gain channel chamber side m b :
  ~ In chamber [1; 2; 3; 4] \/ ~ In (upper side) ["L"; "R"]%string ->
  LoadCell.init data_pin clock_pin gain channel chamber side m b =
    Raise ValueError.
Proof.
  intros H. unfold LoadCell.init.
  destruct (existsb (Z.eqb chamber) [1; 2; 3; 4]) eqn:Ec; trivial. cbn [negb].
  destruct H as [H | H].
  - rewrite (existsb_false_not_In Z.eqb chamber _ (Z.eqb_eq chamber) H) in Ec.
    discriminate.
  - now rewrite (existsb_false_not_In String.eqb (upper side) _
                   (String.eqb_eq (upper side)) H).
Qed.

Lemma init_valid_topology data_pin clock_pin gain channel chamber side m b :
  In chamber [1; 2; 3; 4] -> In (upper side) ["L"; "R"]%string ->
  LoadCell.init data_pin clock_pin gain channel chamber side m b =
    Ok {| LoadCell.data_pin := data_pin; LoadCell.clock_pin := clock_pin;
          LoadCell.gain := gain; LoadCell.channel := channel;
          LoadCell.id := slot_id chamber (upper side);
          LoadCell.m := m; LoadCell.b := b; LoadCell.offset := None |}.
Proof.
  intros Hc Hs. unfold LoadCell.init.
  assert (Ec : existsb (Z.eqb chamber) [1; 2; 3; 4] = true).
  { apply existsb_exists. exists chamber. split; trivial. apply Z.eqb_refl. }
  assert (Es : existsb (String.eqb (upper side)) ["L"; "R"]%string = true).
  { apply existsb_exists. exists (upper side). split; trivial.
    apply String.eqb_refl. }
  now rewrite Ec, Es.
Qed.

(** An insertion that raises has not touched the array. *)
Lemma place_raise_unchanged cell self e self' :
  LoadCellArray.place cell self = (Raise e, self') -> self' = self.
Proof.
  unfold LoadCellArray.place, bind, lift.
  destruct (str_at (LoadCell.id cell) 1); [|now intros [= _ <-]].
  destruct (str_at (LoadCell.id cell) 0); [|now intros [= _ <-]].
  destruct (py_int _); [|now intros [= _ <-]].
  destruct (py_index _ _); [discriminate | now intros [= _ <-]].
Qed.

(** Inserting a sensor of a valid slot succeeds whatever the chamber list
    already holds. *)
Lemma place_valid_slot cell self chamber side :
  1 <= chamber <= 4 -> side = "L"%string \/ side = "R"%string ->
  LoadCell.id cell = slot_id chamber side ->
  List.length (LoadCellArray.cells self) = 4%nat ->
  LoadCellArray.place cell self =
    (Ok tt,
     {| LoadCellArray.cells :=
          update (Z.to_nat (chamber - 1))
            (list_insert (if String.eqb side "L" then 0 else 1)%nat cell)
            (LoadCellArray.cells self);
        LoadCellArray.num_cells := LoadCellArray.num_cells self + 1 |}).
Proof.
  intros Hc Hs Hid Hlen. unfold LoadCellArray.place, bind, lift.
  rewrite Hid. unfold py_index. rewrite Hlen.
  assert (C : chamber = 1 \/ chamber = 2 \/ chamber = 3 \/ chamber = 4) by lia.
  destruct C as [-> | [-> | [-> | ->]]]; destruct Hs as [-> | ->]; reflexivity.
Qed.

(** C6, as stated, fails: with (1,L) occupied by [cell_1L], inserting a
    second sensor built for (1,L) does not raise; it is put in front of the
    first and counted. *)
Lemma place_occupied_slot_accepted :
  LoadCell.init 17 27 128 "A" 1 "L" None None = Ok cell_1L_twin /\
  LoadCellArray.init (Some [cell_1L]) = Ok one_cell_array /\
  occupied one_cell_array cell_1L_twin /\
  LoadCellArray.place cell_1L_twin one_cell_array =
    (Ok tt,
     {| LoadCellArray.cells := [[cell_1L_twin; cell_1L]; []; []; []];
        LoadCellArray.num_cells := 2 |}) /\
  ~ raises (fst (LoadCellArray.place cell_1L_twin one_cell_array)).
Proof.
  split; [reflexivity|]. split; [reflexivity|]. split; [|split].
  - exists cell_1L. split; [simpl; tauto | reflexivity].
  - reflexivity.
  - intros (e & He). discriminate He.
Qed.

(** C6 (amended). Building a sensor with a chamber outside 1..4 or a side
    that is not L or R once upper-cased raises [ValueError], so no such
    sensor reaches an array; an insertion that raises leaves the array as it
    was; inserting a sensor of a valid slot into a four-chamber array
    succeeds whether or not the slot is occupied: the sensor enters its
    chamber's list at index 0 (L) or 1 (R) and [num_cells] grows by one. *)
Theorem insert_topology :
  (forall data_pin clock_pin gain channel chamber side m b,
     ~ In chamber [1; 2; 3; 4] \/ ~ In (upper side) ["L"; "R"]%string ->
     LoadCell.init data_pin clock_pin gain channel chamber side m b =
       Raise ValueError) /\
  (forall cell self e self',
     LoadCellArray.place cell self = (Raise e, self') -> self' = self) /\
  (forall cell self chamber side,
     1 <= chamber <= 4 -> side = "L"%string \/ side = "R"%string ->
     LoadCell.id cell = slot_id chamber side ->
     List.length (LoadCellArray.cells self) = 4%nat ->
     LoadCellArray.place cell self =
       (Ok tt,
        {| LoadCellArray.cells :=
             update (Z.to_nat (chamber - 1))
               (list_insert (if String.eqb side "L" then 0 else 1)%nat cell)
               (LoadCellArray.cells self);
           LoadCellArray.num_cells := LoadCellArray.num_cells self + 1 |})).
Proof.
  split; [|split].
  - exact init_invalid_topology.
  - exact place_raise_unchanged.
  - exact place_valid_slot.
Qed.

Lemma insert_topology_witness :
  LoadCell.init 5 6 128 "A" 5 "L" None None = Raise ValueError /\
  LoadCell.init 5 6 128 "A" 2 "x" None None = Raise ValueError /\
  snd (LoadCellArray.place cell_bad_id one_cell_array) = one_cell_array /\
  LoadCellArray.place cell_1R one_cell_array =
    (Ok tt,
     {| LoadCellArray.cells := [[cell_1L; cell_1R]; []; []; []];
        LoadCellArray.num_cells := 2 |}).
Proof.
  destruct insert_topology as (Hinit & Hraise & Hplace).
  split; [|split; [|split]].
  - apply Hinit. left. simpl. lia.
  - apply Hinit. right. simpl. intros [H | [H | []]]; discriminate.
  - exact (Hraise cell_bad_id one_cell_array IndexError _ eq_refl).
  - exact (Hplace cell_1R one_cell_array 1 "R"%string
             (conj (Z.le_refl 1) (Zle_bool_imp_le 1 4 eq_refl))
             (or_intror eq_refl) eq_refl eq_refl).
Defined.

(** ** LoadCellArray: arrays built by [__init__] *)

(** A sensor built by [__init__] belongs to a slot of the grid. *)
Lemma init_slotted data_pin clock_pin gain channel chamber side m b cell :
  LoadCell.init data_pin clock_pin gain channel chamber side m b = Ok cell ->
  slotted cell.
Proof.
  unfold LoadCell.init.
  destruct (existsb (Z.eqb chamber) [1; 2; 3; 4]) eqn:Ec; [|discriminate].
  destruct (existsb (String.eqb (upper side)) ["L"; "R"]%string) eqn:Es;
    [|discriminate].
  cbn [negb]. intros [= <-].
  apply existsb_exists in Ec as (k & Hk & Ek). apply Z.eqb_eq in Ek. subst k.
  apply existsb_exists in Es as (sd & Hs & Esd). apply String.eqb_eq in Esd.
  subst sd.
  exists chamber, (upper side). split; [simpl in Hk; lia|].
  split; [simpl in Hs; intuition|]. reflexivity.
Qed.

Lemma In_list_insert {A} (i : nat) (x c : A) (l : list A) :
  In c (list_insert i x l) <-> c = x \/ In c l.
Proof.
  unfold list_insert. rewrite <- (firstn_skipn i l) at 3.
  rewrite !in_app_iff. simpl. intuition congruence.
Qed.

Lemma In_concat_update {A} (f : list A -> list A) (x c : A)
    (l : list (list A)) : forall k,
  (k < List.length l)%nat ->
  (forall a, In c (f a) <-> c = x \/ In c a) ->
  In c (List.concat (update k f l)) <-> c = x \/ In c (List.concat l).
Proof.
  induction l as [|a l IH]; intros [|k] Hk Hf; simpl in *; try lia.
  - rewrite !in_app_iff, Hf. tauto.
  - rewrite !in_app_iff, (IH k) by (trivial; lia). tauto.
Qed.

(** Inserting a sensor into a free slot keeps the grid. *)
Lemma place_free_slot (cell : LoadCell.t) (self : LoadCellArray.t) :
  grid (LoadCellArray.cells self) -> slotted cell -> ~ occupied self cell ->
  exists self',
    LoadCellArray.place cell self = (Ok tt, self') /\
    grid (LoadCellArray.cells self') /\
    (forall c, In c (List.concat (LoadCellArray.cells self')) <->
               c = cell \/ In c (List.concat (LoadCellArray.cells self))) /\
    LoadCellArray.num_cells self' = LoadCellArray.num_cells self + 1.
Proof.
  intros (c1 & c2 & c3 & c4 & E & H1 & H2 & H3 & H4)
         (chamber & side & Hc & Hs & Hid) Hfree.
  assert (Hlen : List.length (LoadCellArray.cells self) = 4%nat)
    by now rewrite E.
  rewrite (place_valid_slot cell self chamber side Hc Hs Hid Hlen).
  eexists. split; [reflexivity|]. cbn [LoadCellArray.cells LoadCellArray.num_cells].
  split; [|split; [|reflexivity]].
  - rewrite E.
    assert (Free : forall c, In c (c1 ++ c2 ++ c3 ++ c4) ->
                             LoadCell.id c <> slot_id chamber side).
    { intros c Hin Hc'. apply Hfree. exists c. rewrite E. simpl.
      rewrite app_nil_r. split; [exact Hin | congruence]. }
    assert (C : chamber = 1 \/ chamber = 2 \/ chamber = 3 \/ chamber = 4) by lia.
    destruct C as [-> | [-> | [-> | ->]]]; destruct Hs as [-> | ->];
      simpl update.
    all: match goal with
         | |- grid [?a; ?b; ?c; ?d] =>
             exists a, b, c, d; split; [reflexivity|]
         end.
    all: repeat split; trivial.
    all: match goal with
         | Hk : chamber_ok ?k ?ch |- chamber_ok ?k _ =>
             destruct Hk as [| cl Hl | cr Hr | cl cr Hl Hr]; simpl;
             try (constructor; assumption);
             try (exfalso; eapply (Free cl); [|eassumption];
                  repeat (apply in_or_app; simpl; auto; right));
             try (exfalso; eapply (Free cr); [|eassumption];
                  repeat (apply in_or_app; simpl; auto; right))
         end.
  - intros c. apply In_concat_update; [lia|].
    intros a. apply In_list_insert.
Qed.

Lemma place_all_free_slots (cs : list LoadCell.t) : forall self,
  grid (LoadCellArray.cells self) -> Forall slotted cs ->
  NoDup (map LoadCell.id cs) ->
  (forall c, In c cs -> ~ occupied self c) ->
  exists self',
    LoadCellArray.place_all cs self = (Ok tt, self') /\
    grid (LoadCellArray.cells self') /\
    (forall c, In c (List.concat (LoadCellArray.cells self')) <->
               In c cs \/ In c (List.concat (LoadCellArray.cells self))) /\
    LoadCellArray.num_cells self' =
      LoadCellArray.num_cells self + Z.of_nat (List.length cs).
Proof.
  induction cs as [|cell rest IH]; intros self Hgrid Hsl Hnd Hfree.
  - exists self. simpl. repeat split; trivial; try tauto; lia.
  - inversion Hsl as [|? ? Hs1 Hs2]; inversion Hnd as [|? ? Hn1 Hn2]; subst.
    destruct (place_free_slot cell self Hgrid Hs1 (Hfree cell (or_introl eq_refl)))
      as (self1 & P1 & G1 & M1 & N1).
    destruct (IH self1 G1 Hs2 Hn2) as (self' & P & G & M & N).
    { intros c Hc (c' & Hin & Hid). apply M1 in Hin as [-> | Hin].
      - apply Hn1. rewrite Hid. now apply in_map.
      - apply (Hfree c (or_intror Hc)). now exists c'. }
    exists self'. cbn [LoadCellArray.place_all].
    rewrite (bind_ok _ _ _ _ _ P1). split; [exact P|]. split; [exact G|].
    split.
    + intros c. rewrite M, M1. simpl. intuition congruence.
    + rewrite N, N1. cbn [List.length]. lia.
Qed.

(** X10.  [LoadCellArray(cells)] on sensors of pairwise different slots is a grid
    holding exactly these sensors. *)
Lemma init_grid (cs : list LoadCell.t) :
  Forall slotted cs -> NoDup (map LoadCell.id cs) ->
  exists self,
    LoadCellArray.init (Some cs) = Ok self /\
    grid (LoadCellArray.cells self) /\
    (forall c, In c (List.concat (LoadCellArray.cells self)) <-> In c cs) /\
    LoadCellArray.num_cells self = Z.of_nat (List.length cs).
Proof.
  intros Hsl Hnd.
  destruct (place_all_free_slots cs LoadCellArray.empty) as (self & P & G & M & N);
    trivial.
  - exists [], [], [], []. repeat split; constructor.
  - intros c _ (c' & [] & _).
  - exists self. unfold LoadCellArray.init. rewrite P.
    split; [reflexivity|]. split; [exact G|]. split; [|exact N].
    intros c. rewrite M. simpl. tauto.
Qed.

(** With two sensors built for one slot the chamber list is no grid any
    more: here the right sensor ends up between the two left ones. *)
Example init_shared_slot :
  LoadCellArray.init (Some [cell_1L; cell_1L_twin; cell_1R]) =
    Ok {| LoadCellArray.cells := [[cell_1L_twin; cell_1R; cell_1L]; []; []; []];
          LoadCellArray.num_cells := 3 |}.
Proof. reflexivity. Qed.

(** ** Persistence: text without delimiters *)

Lemma has_char_app c s1 s2 :
  has_char c (s1 ++ s2) = has_char c s1 || has_char c s2.
Proof.
  induction s1 as [|a r IH]; simpl; trivial.
  now rewrite IH, orb_assoc.
Qed.

Lemma split_no_sep sep s : has_char sep s = false -> split sep s = [s].
Proof.
  induction s as [|a r IH]; simpl; trivial.
  intros H. apply orb_false_iff in H as (Ha & Hr).
  now rewrite Ha, (IH Hr).
Qed.

Lemma split_app_sep sep s1 s2 :
  has_char sep s1 = false ->
  split sep (s1 ++ String sep s2) = s1 :: split sep s2.
Proof.
  induction s1 as [|a r IH]; simpl.
  - intros _. now rewrite Ascii.eqb_refl.
  - intros H. apply orb_false_iff in H as (Ha & Hr).
    now rewrite Ha, (IH Hr).
Qed.

Lemma all_chars_has_char p c s :
  all_chars p s = true -> p c = false -> has_char c s = false.
Proof.
  intros Hall Hc. induction s as [|a r IH]; simpl in *; trivial.
  apply andb_true_iff in Hall as (Ha & Hr). rewrite (IH Hr), orb_false_r.
  destruct (Ascii.eqb_spec a c); trivial. congruence.
Qed.

Lemma string_of_uint_digits d :
  all_chars is_digit (NilEmpty.string_of_uint d) = true.
Proof. induction d; simpl; trivial. Qed.

Lemma nilzero_string_of_uint_digits d :
  all_chars is_digit (NilZero.string_of_uint d) = true.
Proof. destruct d; try reflexivity; apply (string_of_uint_digits). Qed.

Lemma str_int_chars n : all_chars is_int_char (str_int n) = true.
Proof.
  assert (W : forall s, all_chars is_digit s = true ->
                        all_chars is_int_char s = true).
  { induction s as [|a r IH]; simpl; trivial.
    intros H. apply andb_true_iff in H as (Ha & Hr).
    unfold is_int_char at 1. now rewrite Ha, (IH Hr). }
  unfold str_int. destruct (Z.to_int n) as [d|d]; simpl.
  - apply W, nilzero_string_of_uint_digits.
  - apply W, nilzero_string_of_uint_digits.
Qed.

Lemma str_int_no_char c n : is_int_char c = false -> has_char c (str_int n) = false.
Proof. apply all_chars_has_char, str_int_chars. Qed.

(** ** Persistence: [int(str(n))] *)

Lemma lstrip_no_space s :
  all_chars (fun c => negb (is_space c)) s = true -> lstrip s = s.
Proof.
  destruct s as [|a r]; simpl; trivial.
  intros H. apply andb_true_iff in H as (Ha & _).
  apply negb_true_iff in Ha. now rewrite Ha.
Qed.

Lemma rstrip_no_space s :
  all_chars (fun c => negb (is_space c)) s = true -> rstrip s = s.
Proof.
  induction s as [|a r IH]; simpl; trivial.
  intros H. apply andb_true_iff in H as (Ha & Hr).
  apply negb_true_iff in Ha. rewrite (IH Hr), Ha. now destruct r.
Qed.

Lemma all_chars_weaken (p q : ascii -> bool) s :
  (forall c, p c = true -> q c = true) ->
  all_chars p s = true -> all_chars q s = true.
Proof.
  intros PQ. induction s as [|a r IH]; simpl; trivial.
  intros H. apply andb_true_iff in H as (Ha & Hr).
  now rewrite (PQ _ Ha), (IH Hr).
Qed.

Lemma is_digit_cases c :
  is_digit c = true ->
  In c ["0"; "1"; "2"; "3"; "4"; "5"; "6"; "7"; "8"; "9"]%char.
Proof.
  destruct c as [[|] [|] [|] [|] [|] [|] [|] [|]]; vm_compute; intros H;
    try discriminate; tauto.
Qed.

Lemma int_char_not_space c : is_int_char c = true -> negb (is_space c) = true.
Proof.
  destruct c as [[|] [|] [|] [|] [|] [|] [|] [|]]; vm_compute; intros H;
    try discriminate; reflexivity.
Qed.

Lemma strip_no_space s :
  all_chars (fun c => negb (is_space c)) s = true -> strip s = s.
Proof.
  intros H. unfold strip. now rewrite (lstrip_no_space _ H), (rstrip_no_space _ H).
Qed.

Lemma digit_not_space c : is_digit c = true -> negb (is_space c) = true.
Proof.
  intros H. apply int_char_not_space. unfold is_int_char. now rewrite H.
Qed.

Lemma uint_of_string_of_uint u :
  exists u', NilZero.uint_of_string (NilZero.string_of_uint u) = Some u' /\
             Z.of_uint u' = Z.of_uint u.
Proof.
  destruct u;
    [ exists Decimal.zero; split; reflexivity | .. ];
    (eexists; split; [apply NilZero.usu; discriminate | reflexivity]).
Qed.

Lemma digit_not_underscore c : is_digit c = true -> Ascii.eqb c "_" = false.
Proof.
  destruct c as [[|] [|] [|] [|] [|] [|] [|] [|]]; vm_compute; intros H;
    try discriminate; reflexivity.
Qed.

Lemma int_digits_plain s : all_chars is_digit s = true -> int_digits s = Some s.
Proof.
  induction s as [|c r IH]; [reflexivity|].
  intros H. cbn [all_chars] in H. apply andb_true_iff in H as (Hc & Hr).
  cbn [int_digits]. rewrite Hc. cbn [negb].
  destruct r as [|u r2]; [reflexivity|].
  assert (Hu : is_digit u = true)
    by (cbn [all_chars] in Hr; now apply andb_true_iff in Hr as (Hu & _)).
  rewrite (digit_not_underscore u Hu). now rewrite (IH Hr).
Qed.

Lemma py_int_unsigned u :
  py_int (NilZero.string_of_uint u) = Ok (Z.of_uint u).
Proof.
  pose proof (nilzero_string_of_uint_digits u) as D.
  unfold py_int.
  rewrite strip_no_space
    by (apply (all_chars_weaken is_digit); [apply digit_not_space | exact D]).
  destruct (uint_of_string_of_uint u) as (u' & E & V).
  destruct (NilZero.string_of_uint u) as [|a r] eqn:S.
  - simpl in E. discriminate.
  - pose proof D as D0.
    simpl in D. apply andb_true_iff in D as (Da & _).
    apply is_digit_cases in Da. simpl in Da.
    assert (M : match String a r with
                | String "-"%char r0 => (true, r0)
                | String "+"%char r0 => (false, r0)
                | _ => (false, String a r)
                end = (false, String a r)).
    { decompose [or] Da; subst; try reflexivity; contradiction. }
    rewrite M, (int_digits_plain _ D0).
    rewrite E. now rewrite V.
Qed.

(** [int(str(n)) == n] *)
Lemma py_int_str_int n : py_int (str_int n) = Ok n.
Proof.
  unfold str_int. rewrite <- (DecimalZ.of_to n) at 2.
  destruct (Z.to_int n) as [u|u]; simpl NilZero.string_of_int.
  - apply py_int_unsigned.
  - pose proof (nilzero_string_of_uint_digits u) as D.
    unfold py_int. rewrite strip_no_space.
    + destruct (uint_of_string_of_uint u) as (u' & E & V).
      rewrite (int_digits_plain _ D), E. simpl. now rewrite V.
    + simpl. apply (all_chars_weaken is_digit); [apply digit_not_space | exact D].
Qed.

(** ** Persistence: one record *)

Lemma even_half k : 2 * k / 2 = k.
Proof. rewrite Z.mul_comm. apply Z.div_mul. lia. Qed.

Lemma even_rem k : (2 * k) mod 2 = 0.
Proof. rewrite Z.mul_comm. apply Z.mod_mul. lia. Qed.

Lemma odd_half k : (2 * k + 1) / 2 = k.
Proof. symmetry. apply (Z.div_unique _ 2 k 1); lia. Qed.

Lemma odd_rem k : (2 * k + 1) mod 2 = 1.
Proof. symmetry. apply (Z.mod_unique _ 2 k 1); lia. Qed.

Lemma append_assoc (s1 s2 s3 : string) :
  ((s1 ++ s2) ++ s3 = s1 ++ (s2 ++ s3))%string.
Proof. induction s1 as [|a r IH]; simpl; congruence. Qed.

Lemma append_cons_assoc (s1 : string) (c : ascii) (s2 s3 : string) :
  ((s1 ++ String c s2) ++ s3 = s1 ++ String c (s2 ++ s3))%string.
Proof. now rewrite append_assoc. Qed.

Section PersistenceFacts.
Context `{PyFloat}.

Lemma write_str_record_text cell rest :
  (LoadCellArray.write_str cell ++ rest =
   record_text cell ++ String "|" rest)%string.
Proof.
  unfold LoadCellArray.write_str, record_text. simpl.
  now rewrite !append_cons_assoc.
Qed.

Lemma str_coeff_no_char x c :
  printable x -> c = ","%char \/ c = "|"%char ->
  has_char c (str_coeff x) = false.
Proof.
  destruct x as [v|]; simpl.
  - intros (_ & _ & Hc & Hb) [-> | ->]; trivial.
  - intros _ [-> | ->]; reflexivity.
Qed.

Lemma parse_coeff_str_coeff x :
  printable x -> LoadCellArray.parse_coeff (str_coeff x) = Ok x.
Proof.
  unfold LoadCellArray.parse_coeff. destruct x as [v|]; simpl.
  - intros (Hf & Hn & _). apply String.eqb_neq in Hn. rewrite Hn. simpl.
    now rewrite Hf.
  - reflexivity.
Qed.

Lemma slot_id_no_char chamber side c :
  side = "L"%string \/ side = "R"%string -> c = ","%char \/ c = "|"%char ->
  has_char c (slot_id chamber side) = false.
Proof.
  intros Hs Hc. unfold slot_id. rewrite has_char_app.
  rewrite str_int_no_char by (destruct Hc as [-> | ->]; reflexivity).
  destruct Hs as [-> | ->], Hc as [-> | ->]; reflexivity.
Qed.

Lemma record_text_no_bar cell chamber side :
  side = "L"%string \/ side = "R"%string ->
  LoadCell.id cell = slot_id chamber side -> storable cell ->
  has_char "|" (record_text cell) = false.
Proof.
  intros Hs Hid (_ & Hch & Hm & Hb). unfold record_text. simpl.
  repeat (rewrite has_char_app; simpl).
  rewrite !str_int_no_char by reflexivity.
  rewrite Hch, Hid, (slot_id_no_char _ _ _ Hs (or_intror eq_refl)).
  now rewrite !str_coeff_no_char by (trivial; now right).
Qed.

Lemma record_text_fields cell chamber side :
  side = "L"%string \/ side = "R"%string ->
  LoadCell.id cell = slot_id chamber side -> storable cell ->
  split "," (record_text cell) =
    [str_int (LoadCell.data_pin cell); str_int (LoadCell.clock_pin cell);
     str_int (LoadCell.gain cell); LoadCell.channel cell; LoadCell.id cell;
     str_coeff (LoadCell.m cell); str_coeff (LoadCell.b cell)].
Proof.
  intros Hs Hid (Hch & _ & Hm & Hb). unfold record_text. simpl.
  rewrite split_app_sep by (now apply str_int_no_char).
  rewrite split_app_sep by (now apply str_int_no_char).
  rewrite split_app_sep by (now apply str_int_no_char).
  rewrite split_app_sep by exact Hch.
  rewrite split_app_sep
    by (rewrite Hid; apply slot_id_no_char; [exact Hs | now left]).
  rewrite split_app_sep by (apply str_coeff_no_char; [exact Hm | now left]).
  rewrite split_no_sep by (apply str_coeff_no_char; [exact Hb | now left]).
  reflexivity.
Qed.

(** Loading the record of a sensor puts the sensor, with its fields as
    saved, into its chamber's list. *)
Lemma load_record_text cell self chamber side :
  1 <= chamber <= 4 -> side = "L"%string \/ side = "R"%string ->
  LoadCell.id cell = slot_id chamber side -> storable cell ->
  List.length (LoadCellArray.cells self) = 4%nat ->
  LoadCellArray.load_record (record_text cell) self =
    (Ok tt,
     LoadCellArray.set_cells self
       (update (Z.to_nat (chamber - 1))
          (list_insert (if String.eqb side "L" then 0 else 1)%nat
             (reloaded cell))
          (LoadCellArray.cells self))).
Proof.
  intros Hc Hs Hid Hst Hlen. unfold LoadCellArray.load_record.
  rewrite (record_text_fields cell chamber side Hs Hid Hst).
  destruct Hst as (_ & _ & Hm & Hb).
  unfold bind, lift, list_at. simpl nth_error. cbv beta iota.
  rewrite !py_int_str_int, !parse_coeff_str_coeff by trivial.
  unfold py_index. rewrite Hlen.
  assert (E : reloaded cell =
    {| LoadCell.data_pin := LoadCell.data_pin cell;
       LoadCell.clock_pin := LoadCell.clock_pin cell;
       LoadCell.gain := LoadCell.gain cell;
       LoadCell.channel := LoadCell.channel cell;
       LoadCell.id := slot_id chamber side;
       LoadCell.m := LoadCell.m cell; LoadCell.b := LoadCell.b cell;
       LoadCell.offset := None |}).
  { unfold reloaded, LoadCell.set_offset. now rewrite Hid. }
  rewrite E, Hid. clear E Hid.
  assert (C : chamber = 1 \/ chamber = 2 \/ chamber = 3 \/ chamber = 4) by lia.
  destruct C as [-> | [-> | [-> | ->]]]; destruct Hs as [-> | ->]; reflexivity.
Qed.

(** ** Persistence: the whole file *)

Lemma update_length {A} (f : A -> A) (l : list A) : forall k,
  List.length (update k f l) = List.length l.
Proof.
  induction l as [|x l IH]; intros [|k]; simpl; trivial. now rewrite IH.
Qed.

Lemma update_ext {A} (f g : A -> A) (l : list A) : forall k x,
  nth_error l k = Some x -> f x = g x -> update k f l = update k g l.
Proof.
  induction l as [|y l IH]; intros [|k] x; simpl; trivial.
  - intros [= ->] E. now rewrite E.
  - intros Hn E. now rewrite (IH k x Hn E).
Qed.

Lemma update_update {A} (f g : A -> A) (l : list A) : forall k,
  update k g (update k f l) = update k (fun x => g (f x)) l.
Proof.
  induction l as [|y l IH]; intros [|k]; simpl; trivial. now rewrite IH.
Qed.

Lemma update_same {A} (l : list A) : forall k x,
  nth_error l k = Some x -> l = update k (fun _ => x) l.
Proof.
  induction l as [|y l IH]; intros [|k] x; simpl; trivial.
  - now intros [= ->].
  - intros Hn. now rewrite <- (IH k x Hn).
Qed.

Lemma load_record_put cell self :
  slotted cell -> storable cell ->
  List.length (LoadCellArray.cells self) = 4%nat ->
  LoadCellArray.load_record (record_text cell) self =
    (Ok tt, LoadCellArray.set_cells self (put cell (LoadCellArray.cells self))).
Proof.
  intros (chamber & side & Hc & Hs & Hid) Hst Hlen.
  rewrite (load_record_text cell self chamber side Hc Hs Hid Hst Hlen).
  unfold put. destruct Hs as [-> | ->].
  - now rewrite (slot_rank_left _ _ Hc Hid), even_half, even_rem.
  - now rewrite (slot_rank_right _ _ Hc Hid), odd_half, odd_rem.
Qed.

Lemma load_records_fold cs : forall self,
  Forall slotted cs -> Forall storable cs ->
  List.length (LoadCellArray.cells self) = 4%nat ->
  LoadCellArray.load_records (map record_text cs) self =
    (Ok tt,
     LoadCellArray.set_cells self
       (fold_left (fun st cell => put cell st) cs (LoadCellArray.cells self))).
Proof.
  induction cs as [|cell rest IH]; intros self Hsl Hst Hlen; simpl.
  - now destruct self.
  - inversion Hsl as [|? ? Hsl1 Hsl2]; inversion Hst as [|? ? Hst1 Hst2]; subst.
    rewrite (bind_ok _ _ _ _ _ (load_record_put cell self Hsl1 Hst1 Hlen)).
    rewrite IH; trivial.
    simpl. unfold put at 1. now rewrite update_length.
Qed.

Lemma concat_empty_cons (x : string) (xs : list string) :
  String.concat "" (x :: xs) = (x ++ String.concat "" xs)%string.
Proof.
  destruct xs as [|y ys]; simpl; trivial.
  induction x as [|a r IH]; simpl; congruence.
Qed.

(** The file splits at its delimiters into the records written. *)
Lemma split_saved cs :
  Forall slotted cs -> Forall storable cs ->
  split "|" (String.concat "" (map LoadCellArray.write_str cs)) =
    map record_text cs ++ [EmptyString].
Proof.
  induction cs as [|cell rest IH]; intros Hsl Hst; [reflexivity|].
  inversion Hsl as [|? ? (chamber & side & _ & Hs & Hid) Hsl2];
    inversion Hst as [|? ? Hst1 Hst2]; subst.
  cbn [map]. rewrite concat_empty_cons, write_str_record_text.
  rewrite split_app_sep
    by exact (record_text_no_bar cell chamber side Hs Hid Hst1).
  now rewrite IH.
Qed.

Lemma chamber_ok_slotted chamber cs :
  1 <= chamber <= 4 -> chamber_ok chamber cs -> Forall slotted cs.
Proof.
  intros Hc [| cl Hl | cr Hr | cl cr Hl Hr]; repeat constructor;
    try (exists chamber, "L"%string; now auto);
    try (exists chamber, "R"%string; now auto).
Qed.

Lemma grid_slotted cs : grid cs -> Forall slotted (List.concat cs).
Proof.
  intros (c1 & c2 & c3 & c4 & -> & H1 & H2 & H3 & H4). simpl.
  repeat (apply Forall_app; split);
    try (eapply chamber_ok_slotted; [|eassumption]; lia).
  constructor.
Qed.

(** Loading the records of a well-formed chamber list into an empty
    chamber list rebuilds it. *)
Lemma put_chamber chamber cs st :
  1 <= chamber <= 4 -> chamber_ok chamber cs ->
  nth_error st (Z.to_nat (chamber - 1)) = Some [] ->
  fold_left (fun st cell => put cell st) cs st =
    update (Z.to_nat (chamber - 1)) (fun _ => map reloaded cs) st.
Proof.
  intros Hc Hok Hnth.
  destruct Hok as [| cl Hl | cr Hr | cl cr Hl Hr]; simpl; unfold put.
  - now apply update_same.
  - rewrite (slot_rank_left _ _ Hc Hl), even_half, even_rem.
    now apply (update_ext _ _ _ _ _ Hnth).
  - rewrite (slot_rank_right _ _ Hc Hr), odd_half, odd_rem.
    now apply (update_ext _ _ _ _ _ Hnth).
  - rewrite (slot_rank_left _ _ Hc Hl), (slot_rank_right _ _ Hc Hr).
    rewrite even_half, even_rem, odd_half, odd_rem.
    rewrite update_update. now apply (update_ext _ _ _ _ _ Hnth).
Qed.

Lemma put_grid c1 c2 c3 c4 :
  chamber_ok 1 c1 -> chamber_ok 2 c2 -> chamber_ok 3 c3 -> chamber_ok 4 c4 ->
  fold_left (fun st cell => put cell st) (List.concat [c1; c2; c3; c4])
    [[]; []; []; []] =
  [map reloaded c1; map reloaded c2; map reloaded c3; map reloaded c4].
Proof.
  intros H1 H2 H3 H4. simpl. rewrite app_nil_r, !fold_left_app.
  rewrite (put_chamber 1 c1) by (trivial; lia). simpl.
  rewrite (put_chamber 2 c2) by (trivial; lia). simpl.
  rewrite (put_chamber 3 c3) by (trivial; lia). simpl.
  rewrite (put_chamber 4 c4) by (trivial; lia). reflexivity.
Qed.

End PersistenceFacts.

Lemma reloaded_fields (cell : LoadCell.t) :
  LoadCell.data_pin (reloaded cell) = LoadCell.data_pin cell /\
  LoadCell.clock_pin (reloaded cell) = LoadCell.clock_pin cell /\
  LoadCell.gain (reloaded cell) = LoadCell.gain cell /\
  LoadCell.channel (reloaded cell) = LoadCell.channel cell /\
  LoadCell.id (reloaded cell) = LoadCell.id cell /\
  LoadCell.m (reloaded cell) = LoadCell.m cell /\
  LoadCell.b (reloaded cell) = LoadCell.b cell.
Proof. repeat split. Qed.

(** C2. For an array holding at most one sensor per slot whose fields can
    be written (no delimiter in the channel, coefficients that [str] and
    [float] carry through, [None] included), loading into a fresh array the
    text [save_array] wrote succeeds and rebuilds every chamber list with
    the same sensors at the same places: each has the data pin, clock pin,
    gain, channel, id, slope and intercept it had ([reloaded] only drops the
    tare offset, which is not saved). *)
Theorem save_load_roundtrip `{PyFloat} (self : LoadCellArray.t) :
  grid (LoadCellArray.cells self) ->
  Forall storable (List.concat (LoadCellArray.cells self)) ->
  LoadCellArray.load_array (LoadCellArray.save_array self) LoadCellArray.empty =
    (Ok tt,
     {| LoadCellArray.cells := map (map reloaded) (LoadCellArray.cells self);
        LoadCellArray.num_cells :=
          Z.of_nat (List.length (List.concat (LoadCellArray.cells self))) |}).
Proof.
  intros Hgrid Hst.
  pose proof (grid_slotted _ Hgrid) as Hsl.
  unfold LoadCellArray.load_array, LoadCellArray.save_array.
  rewrite <- concat_map, (split_saved _ Hsl Hst), removelast_last, length_map.
  rewrite load_records_fold by trivial.
  destruct Hgrid as (c1 & c2 & c3 & c4 & E & H1 & H2 & H3 & H4).
  rewrite E. unfold LoadCellArray.set_cells. cbn [LoadCellArray.cells
    LoadCellArray.num_cells LoadCellArray.set_num_cells LoadCellArray.empty].
  now rewrite (put_grid c1 c2 c3 c4 H1 H2 H3 H4).
Qed.

(** ** Persistence: the sample array *)

Example save_array_sample :
  @LoadCellArray.save_array decimal sample_array =
    "5,6,128,A,1L,2.0,0.5|13,19,64,A,1R,None,None|20,21,128,B,3R,-0.75,None|"%string.
Proof. reflexivity. Qed.

Lemma sample_array_storable :
  Forall (@storable decimal) (List.concat (LoadCellArray.cells sample_array)).
Proof.
  repeat constructor; try reflexivity; simpl; discriminate.
Qed.

Lemma save_load_roundtrip_witness :
  @LoadCellArray.load_array decimal
     (@LoadCellArray.save_array decimal sample_array) LoadCellArray.empty =
    (Ok tt, sample_array).
Proof.
  exact (@save_load_roundtrip decimal sample_array sample_array_grid
           sample_array_storable).
Defined.

(** Outside the grid the order within a chamber is not kept: two sensors
    sharing the slot (1,L) come back swapped. *)
Example reload_shared_slot :
  @LoadCellArray.load_array decimal
     (@LoadCellArray.save_array decimal
        {| LoadCellArray.cells := [[cell_1L_twin; cell_1L]; []; []; []];
           LoadCellArray.num_cells := 2 |})
     LoadCellArray.empty =
    (Ok tt,
     {| LoadCellArray.cells := [[cell_1L; cell_1L_twin]; []; []; []];
        LoadCellArray.num_cells := 2 |}).
Proof. reflexivity. Qed.

(** ** MeasurementCoordinator: one pass of the loop *)

Lemma skipn_length_app {A} (l1 l2 : list A) :
  skipn (List.length l1) (l1 ++ l2) = l2.
Proof. induction l1; simpl; trivial. Qed.

(** The four ways a pass can go. *)
Lemma cycle_cases (self : MeasurementCoordinator.t) (w : World) :
  (measure w (lookups w) = false /\
   fst (MeasurementCoordinator.cycle self w) = Ok Break /\
   events_of self w = []) \/
  (measure w (lookups w) = true /\
   exists e, rht w (rht_reads w) = Raise e /\
   fst (MeasurementCoordinator.cycle self w) = Ok Continue /\
   events_of self w = [Print e]) \/
  (measure w (lookups w) = true /\
   exists readings e, rht w (rht_reads w) = Ok readings /\
   fst (LoadCellArray.take_measurement
          (MeasurementCoordinator.mass_array self) (hw w)) = Raise e /\
   fst (MeasurementCoordinator.cycle self w) = Raise e /\
   events_of self w = [RhtResult readings]) \/
  (measure w (lookups w) = true /\
   exists readings masses, rht w (rht_reads w) = Ok readings /\
   fst (LoadCellArray.take_measurement
          (MeasurementCoordinator.mass_array self) (hw w)) = Ok masses /\
   fst (MeasurementCoordinator.cycle self w) = Ok Continue /\
   events_of self w =
     [RhtResult readings; MassResult (clock w (S (ticks w)) :: masses)]
     ++ pacing self w ++ [Read]).
Proof.
  unfold events_of, pacing, time_elapsed, MeasurementCoordinator.cycle.
  unfold bind, MeasurementCoordinator.controls_measure. cbn [negb fst snd].
  destruct (measure w (lookups w)) eqn:Flag; cbn [negb].
  2:{ left. unfold ret. simpl. split; trivial. split; trivial.
      apply skipn_all. }
  right.
  unfold MeasurementCoordinator.time, MeasurementCoordinator.catch,
    MeasurementCoordinator.rht_take_measurement. cbn.
  destruct (rht w (rht_reads w)) as [readings|e] eqn:Rht.
  2:{ left. split; trivial. exists e. unfold MeasurementCoordinator.emit, ret.
      simpl. repeat split; trivial. apply skipn_length_app. }
  right.
  unfold MeasurementCoordinator.emit, MeasurementCoordinator.on_hw. cbn.
  destruct (LoadCellArray.take_measurement _ (hw w)) as [[masses|e] hw'] eqn:Mass.
  2:{ left. split; trivial. exists readings, e. simpl.
      repeat split; trivial. apply skipn_length_app. }
  right. split; trivial. exists readings, masses. cbn.
  destruct (Qltb _ _); unfold ret; cbn; repeat split; trivial;
    rewrite <- !app_assoc; apply skipn_length_app.
Qed.

(** A pass only appends to the trace. *)
Lemma cycle_trace (self : MeasurementCoordinator.t) (w : World) :
  trace (snd (MeasurementCoordinator.cycle self w)) = trace w ++ events_of self w.
Proof.
  unfold events_of, MeasurementCoordinator.cycle.
  unfold bind, MeasurementCoordinator.controls_measure. cbn [negb fst snd].
  destruct (measure w (lookups w)); cbn [negb].
  2:{ unfold ret. simpl. now rewrite skipn_all, app_nil_r. }
  unfold MeasurementCoordinator.time, MeasurementCoordinator.catch,
    MeasurementCoordinator.rht_take_measurement. cbn.
  destruct (rht w (rht_reads w)) as [readings|e].
  2:{ unfold MeasurementCoordinator.emit, ret. simpl.
      now rewrite skipn_length_app. }
  unfold MeasurementCoordinator.emit, MeasurementCoordinator.on_hw. cbn.
  destruct (LoadCellArray.take_measurement _ (hw w)) as [[masses|e] hw'].
  2:{ simpl. now rewrite skipn_length_app. }
  cbn. destruct (Qltb _ _); unfold ret; cbn;
    rewrite <- !app_assoc; now rewrite skipn_length_app.
Qed.

(** A failed humidity read leaves the drivers alone and costs one lookup of
    the flag, one call of [time()] and the read itself. *)
Lemma cycle_rht_failed (self : MeasurementCoordinator.t) (w : World) (e : exn) :
  measure w (lookups w) = true -> rht w (rht_reads w) = Raise e ->
  MeasurementCoordinator.cycle self w =
    (Ok Continue,
     {| hw := hw w; measure := measure w; clock := clock w; rht := rht w;
        lookups := S (lookups w); ticks := S (ticks w);
        rht_reads := S (rht_reads w); trace := trace w ++ [Print e] |}).
Proof.
  intros Flag Rht. unfold MeasurementCoordinator.cycle.
  unfold bind, MeasurementCoordinator.controls_measure. cbn [negb fst snd].
  rewrite Flag. cbn [negb].
  unfold MeasurementCoordinator.time, MeasurementCoordinator.catch,
    MeasurementCoordinator.rht_take_measurement. cbn.
  now rewrite Rht.
Qed.

(** ** MeasurementCoordinator: leaving the loop *)

(** The loop is left at the first pass that finds the flag unset, without
    reading or emitting anything. *)
Lemma run_stops (self : MeasurementCoordinator.t) (w : World) (fuel : nat) :
  measure w (lookups w) = false ->
  fst (MeasurementCoordinator.run (S fuel) self w) = Ok Break /\
  trace (snd (MeasurementCoordinator.run (S fuel) self w)) = trace w /\
  hw (snd (MeasurementCoordinator.run (S fuel) self w)) = hw w.
Proof.
  intros Flag. cbn [MeasurementCoordinator.run].
  unfold MeasurementCoordinator.cycle, bind,
    MeasurementCoordinator.controls_measure.
  rewrite Flag. repeat split.
Qed.

(** ** MeasurementCoordinator: publishing *)

(** C7, as stated, fails: with an uncalibrated sensor in the array the
    humidity read succeeds (this is not the retry case), its result is
    emitted, the mass read then raises, and the pass ends with the humidity
    result alone published. *)
Lemma cycle_half_published :
  rht steady_world (rht_reads steady_world) = Ok sample_rht /\
  MeasurementCoordinator.cycle sample_coordinator steady_world =
    (Raise TypeError,
     {| hw := bump (13, 19) (bump (5, 6) ramp_hw);
        measure := measure steady_world; clock := clock steady_world;
        rht := rht steady_world;
        lookups := 1; ticks := 1; rht_reads := 1;
        trace := [RhtResult sample_rht] |}) /\
  existsb is_rht_result (events_of sample_coordinator steady_world) = true /\
  existsb is_mass_result (events_of sample_coordinator steady_world) = false.
Proof. repeat split; reflexivity. Qed.

(** C7 (amended). In a pass whose mass-array read does not raise, the
    humidity result and the mass result are both emitted (the humidity
    result first) or neither is: neither when the flag is found unset or the
    humidity read fails, both otherwise.  The flag enters a pass only
    through the lookup at its top: other values of the flag at later
    lookups change nothing in what the pass returns and emits. *)
Theorem cycle_publishes_both_or_neither
    (self : MeasurementCoordinator.t) (w : World) :
  ~ raises (fst (LoadCellArray.take_measurement
                   (MeasurementCoordinator.mass_array self) (hw w))) ->
  (exists c, fst (MeasurementCoordinator.cycle self w) = Ok c) /\
  existsb is_rht_result (events_of self w) =
    existsb is_mass_result (events_of self w) /\
  (existsb is_mass_result (events_of self w) = true <->
   measure w (lookups w) = true /\ is_ok (rht w (rht_reads w)) = true) /\
  (forall readings masses before after,
     events_of self w = before ++ MassResult masses :: after ->
     In (RhtResult readings) (events_of self w) ->
     In (RhtResult readings) before) /\
  (forall flags,
     flags (lookups w) = measure w (lookups w) ->
     fst (MeasurementCoordinator.cycle self (with_measure w flags)) =
       fst (MeasurementCoordinator.cycle self w) /\
     events_of self (with_measure w flags) = events_of self w).
Proof.
  intros Hmass.
  assert (Flags : forall flags,
     flags (lookups w) = measure w (lookups w) ->
     fst (MeasurementCoordinator.cycle self (with_measure w flags)) =
       fst (MeasurementCoordinator.cycle self w) /\
     events_of self (with_measure w flags) = events_of self w).
  { intros flags Hf.
    unfold events_of, MeasurementCoordinator.cycle, bind,
      MeasurementCoordinator.controls_measure, with_measure.
    cbn [negb fst snd measure lookups trace]. rewrite Hf.
    destruct (measure w (lookups w)); cbn [negb]; [|split; reflexivity].
    unfold MeasurementCoordinator.time, MeasurementCoordinator.catch,
      MeasurementCoordinator.rht_take_measurement. cbn.
    destruct (rht w (rht_reads w)) as [readings|e]; [|split; reflexivity].
    unfold MeasurementCoordinator.emit, MeasurementCoordinator.on_hw. cbn.
    destruct (LoadCellArray.take_measurement _ (hw w)) as [[masses|e] hw'];
      [|split; reflexivity].
    cbn. destruct (Qltb _ _); split; reflexivity. }
  enough (Main :
    (exists c, fst (MeasurementCoordinator.cycle self w) = Ok c) /\
    existsb is_rht_result (events_of self w) =
      existsb is_mass_result (events_of self w) /\
    (existsb is_mass_result (events_of self w) = true <->
     measure w (lookups w) = true /\ is_ok (rht w (rht_reads w)) = true) /\
    (forall readings masses before after,
       events_of self w = before ++ MassResult masses :: after ->
       In (RhtResult readings) (events_of self w) ->
       In (RhtResult readings) before)).
  { destruct Main as (A & B & C & D).
    split; [exact A|]. split; [exact B|]. split; [exact C|].
    split; [exact D | exact Flags]. }
  clear Flags.
  destruct (cycle_cases self w)
    as [(Flag & R & E) | [(Flag & e & Rht & R & E)
       | [(Flag & readings & e & Rht & Mass & R & E)
         | (Flag & readings & masses & Rht & Mass & R & E)]]];
    rewrite ?E, ?R, ?Flag, ?Rht.
  - split; [now exists Break|]. split; [reflexivity|].
    split; [split; [discriminate | intros (F & _); discriminate]|].
    intros ? ? ? ? _ [].
  - split; [now exists Continue|]. split; [reflexivity|].
    split; [split; [discriminate | intros (_ & F); discriminate]|].
    intros ? ? ? ? _ [F | []]. discriminate.
  - exfalso. apply Hmass. now exists e.
  - split; [now exists Continue|].
    split; [reflexivity|]. split; [split; [now split | reflexivity]|].
    intros readings' masses' before after Hsplit Hin.
    destruct before as [|ev before]; [discriminate Hsplit|].
    injection Hsplit as <- Hrest. left.
    cbn [app In] in Hin.
    destruct Hin as [Hin | [Hin | Hin]]; [exact Hin | discriminate |].
    exfalso. apply in_app_or in Hin as [Hin | Hin].
    + unfold pacing in Hin. destruct (Qltb _ _); [|destruct Hin].
      destruct Hin as [Hin | []]. discriminate.
    + destruct Hin as [Hin | []]. discriminate.
Qed.

Lemma cycle_publishes_both_or_neither_witness :
  existsb is_rht_result (events_of fitted_coordinator steady_world) =
    existsb is_mass_result (events_of fitted_coordinator steady_world) /\
  existsb is_rht_result (events_of fitted_coordinator flaky_world) =
    existsb is_mass_result (events_of fitted_coordinator flaky_world).
Proof.
  split.
  - refine (proj1 (proj2 (cycle_publishes_both_or_neither
                            fitted_coordinator steady_world _))).
    intros (e & He). discriminate He.
  - refine (proj1 (proj2 (cycle_publishes_both_or_neither
                            fitted_coordinator flaky_world _))).
    intros (e & He). discriminate He.
Defined.

(** What the steady pass emits: both results, the pacing sleep of 6 s (4 s
    elapsed against an interval of 10 s) and the read pulse. *)
Example cycle_steady_events :
  events_of fitted_coordinator steady_world =
    [RhtResult sample_rht;
     MassResult [inject_Z 102;
                 ((2 # 1) * (44 # 8) + (1 # 2))%Q;
                 ((-3 # 4) * (44 # 8) + (10 # 1))%Q];
     Sleep ((10 # 1) - (inject_Z 104 - inject_Z 100))%Q;
     Read].
Proof. reflexivity. Qed.

(** ** MeasurementCoordinator: pacing *)

(** C8. A pass never sleeps for a duration that is not positive.  In a
    pass that reaches the pacing step (flag set, both reads successful):
    if the time elapsed is below the interval the pass sleeps once, for
    exactly the interval minus the time elapsed; otherwise it does not sleep
    at all; either way it then emits the read pulse and the loop goes on. *)
Theorem cycle_pacing (self : MeasurementCoordinator.t) (w : World) :
  (forall d, In (Sleep d) (events_of self w) -> (0 < d)%Q) /\
  (forall readings masses,
     measure w (lookups w) = true ->
     rht w (rht_reads w) = Ok readings ->
     fst (LoadCellArray.take_measurement
            (MeasurementCoordinator.mass_array self) (hw w)) = Ok masses ->
     fst (MeasurementCoordinator.cycle self w) = Ok Continue /\
     events_of self w =
       [RhtResult readings; MassResult (clock w (S (ticks w)) :: masses)]
       ++ pacing self w ++ [Read] /\
     ((time_elapsed w < MeasurementCoordinator.interval self)%Q ->
      pacing self w =
        [Sleep (MeasurementCoordinator.interval self - time_elapsed w)%Q]) /\
     (~ (time_elapsed w < MeasurementCoordinator.interval self)%Q ->
      pacing self w = [])).
Proof.
  assert (Pace : forall d, In (Sleep d) (pacing self w) -> (0 < d)%Q).
  { unfold pacing. intros d.
    destruct (Qltb _ _) eqn:L; [|intros []].
    intros [[= <-] | []]. apply Qltb_lt in L.
    exact (proj1 (Qlt_minus_iff _ _) L). }
  split.
  - intros d Hin.
    destruct (cycle_cases self w)
      as [(_ & _ & E) | [(_ & e & _ & _ & E)
         | [(_ & readings & e & _ & _ & _ & E)
           | (_ & readings & masses & _ & _ & _ & E)]]];
      rewrite E in Hin.
    + destruct Hin.
    + destruct Hin as [Hin | []]. discriminate.
    + destruct Hin as [Hin | []]. discriminate.
    + cbn [app In] in Hin.
      destruct Hin as [Hin | [Hin | Hin]]; [discriminate | discriminate |].
      apply in_app_or in Hin as [Hin | Hin]; [now apply Pace|].
      destruct Hin as [Hin | []]. discriminate.
  - intros readings masses Flag Rht Mass.
    destruct (cycle_cases self w)
      as [(F & _) | [(_ & e & R & _)
         | [(_ & readings' & e & _ & M & _)
           | (_ & readings' & masses' & R & M & C & E)]]];
      try congruence.
    rewrite Rht in R. injection R as <-.
    rewrite Mass in M. injection M as <-.
    split; [exact C|]. split; [exact E|]. unfold pacing. split.
    + intros L. apply Qltb_lt in L. now rewrite L.
    + intros L. destruct (Qltb _ _) eqn:B; trivial.
      apply Qltb_lt in B. contradiction.
Qed.

Lemma cycle_pacing_witness :
  pacing fitted_coordinator steady_world =
    [Sleep ((10 # 1) - time_elapsed steady_world)%Q] /\
  pacing hurried_coordinator steady_world = [] /\
  forall d, In (Sleep d) (events_of fitted_coordinator steady_world) -> (0 < d)%Q.
Proof.
  split; [|split].
  - destruct (proj2 (cycle_pacing fitted_coordinator steady_world)
                _ _ eq_refl eq_refl eq_refl) as (_ & _ & Under & _).
    apply Under. reflexivity.
  - destruct (proj2 (cycle_pacing hurried_coordinator steady_world)
                _ _ eq_refl eq_refl eq_refl) as (_ & _ & _ & Over).
    apply Over. intros L. discriminate L.
  - exact (proj1 (cycle_pacing fitted_coordinator steady_world)).
Defined.

(** ** MeasurementCoordinator: a failed humidity read *)

(** C9, as stated, fails: when the humidity read fails the pass prints the
    exception and nothing else; no sleep stands between the failure and the
    next attempt, which the second pass makes at once. *)
Lemma cycle_retry_without_delay :
  rht flaky_world (rht_reads flaky_world) = Raise OSError /\
  events_of fitted_coordinator flaky_world = [Print OSError] /\
  existsb is_sleep (events_of fitted_coordinator flaky_world) = false /\
  firstn 2 (trace (snd (MeasurementCoordinator.run 2 fitted_coordinator
                          flaky_world))) =
    [Print OSError; RhtResult sample_rht].
Proof. repeat split; reflexivity. Qed.

(** C9 (amended). When the humidity read fails in a pass, the exception is
    printed and the pass ends there, with no delay: nothing is slept,
    neither a humidity nor a mass result is emitted, and the load cells are
    not read.  The loop does not stop: it goes on with the next pass, which
    looks the flag up again. *)
Theorem cycle_rht_failure_retried
    (self : MeasurementCoordinator.t) (w : World) (e : exn) :
  measure w (lookups w) = true ->
  rht w (rht_reads w) = Raise e ->
  MeasurementCoordinator.cycle self w =
    (Ok Continue,
     {| hw := hw w; measure := measure w; clock := clock w; rht := rht w;
        lookups := S (lookups w); ticks := S (ticks w);
        rht_reads := S (rht_reads w); trace := trace w ++ [Print e] |}) /\
  events_of self w = [Print e] /\
  forall fuel,
    MeasurementCoordinator.run (S fuel) self w =
    MeasurementCoordinator.run fuel self
      {| hw := hw w; measure := measure w; clock := clock w; rht := rht w;
         lookups := S (lookups w); ticks := S (ticks w);
         rht_reads := S (rht_reads w); trace := trace w ++ [Print e] |}.
Proof.
  intros Flag Rht.
  pose proof (cycle_rht_failed self w e Flag Rht) as C.
  split; [exact C|]. split.
  - unfold events_of. rewrite C. cbn [snd trace]. apply skipn_length_app.
  - intros fuel. cbn [MeasurementCoordinator.run].
    now rewrite (bind_ok _ _ _ _ _ C).
Qed.

Lemma cycle_rht_failure_retried_witness :
  events_of fitted_coordinator flaky_world = [Print OSError] /\
  forall fuel,
    MeasurementCoordinator.run (S fuel) fitted_coordinator flaky_world =
    MeasurementCoordinator.run fuel fitted_coordinator
      {| hw := ramp_hw; measure := measure flaky_world;
         clock := clock flaky_world; rht := rht flaky_world;
         lookups := 1; ticks := 1; rht_reads := 1;
         trace := [Print OSError] |}.
Proof.
  exact (proj2 (cycle_rht_failure_retried fitted_coordinator flaky_world
                  OSError eq_refl eq_refl)).
Defined.


(** * Further properties *)

(** ** The trimmed mean and the extremes of a batch *)

Lemma nth_monotone (s : list Z) :
  StronglySorted Z.le s ->
  forall i j, (i <= j < List.length s)%nat -> nth i s 0 <= nth j s 0.
Proof.
  induction 1 as [|a s Hs IH Ha]; intros i j Hij; simpl in Hij; [lia|].
  destruct j as [|j]; destruct i as [|i]; simpl; try lia.
  - apply (proj1 (Forall_forall _ _) Ha). apply nth_In. lia.
  - apply IH. lia.
Qed.

Lemma lerp_not_above (a c t : Q) : (a <= c)%Q -> (t <= 1)%Q -> (lerp a c t <= c)%Q.
Proof. intros Hac Ht. rewrite lerp_linear. nra. Qed.

(** A quantile lies between two readings of the batch. *)
Lemma quantile_between (a : list Z) (q : Q) :
  a <> [] -> (0 <= q)%Q -> (q <= 1)%Q ->
  exists (lo hi : Z) (v : Q),
    In lo a /\ In hi a /\ quantile a q = Ok v /\
    (inject_Z lo <= v)%Q /\ (v <= inject_Z hi)%Q.
Proof.
  intros Ha H0 H1. unfold quantile.
  apply Qle_bool_iff in H0 as B0. apply Qle_bool_iff in H1 as B1.
  rewrite B0, B1. cbn [andb negb].
  destruct a as [|x a']; [congruence|].
  set (a := x :: a') in *.
  assert (Hn : 1 <= Z.of_nat (List.length a)) by (simpl; lia).
  pose proof (virtual_index_range _ q Hn H0 H1) as R.
  set (vi := (inject_Z (Z.of_nat (List.length a) - 1) * q)%Q) in *.
  pose proof (Qfloor_le vi) as F0. pose proof (Qlt_floor vi) as F1.
  set (p := Qfloor vi) in *.
  rewrite inject_Z_plus in F1. change (inject_Z 1) with 1%Q in F1.
  set (lo := nth (Z.to_nat p) (sort a) 0).
  set (hi := nth (Z.to_nat (Z.min (p + 1) (Z.of_nat (List.length a) - 1))) (sort a) 0).
  assert (Hle : (inject_Z lo <= inject_Z hi)%Q).
  { rewrite <- Zle_Qle. apply nth_monotone; [apply sort_sorted|].
    rewrite sort_length. lia. }
  exists lo, hi. eexists. split; [|split; [|split; [reflexivity|split]]].
  - apply sort_In, nth_In. rewrite sort_length. lia.
  - apply sort_In, nth_In. rewrite sort_length. lia.
  - apply lerp_not_below; trivial. lra.
  - apply lerp_not_above; trivial. lra.
Qed.

Lemma sum_shift (l : list Z) : forall acc, fold_left Z.add l acc = acc + sum l.
Proof.
  unfold sum. induction l as [|x l IH]; intros acc; simpl; [lia|].
  rewrite (IH (acc + x)), (IH x). lia.
Qed.

Lemma sum_cons (x : Z) (l : list Z) : sum (x :: l) = x + sum l.
Proof. unfold sum at 1. simpl. apply sum_shift. Qed.

Lemma sum_above (l : list Z) (lo : Q) :
  l <> [] -> (forall x, In x l -> (lo < inject_Z x)%Q) ->
  (lo * inject_Z (Z.of_nat (List.length l)) < inject_Z (sum l))%Q.
Proof.
  induction l as [|x l IH]; [congruence|]. intros _ Hall.
  rewrite sum_cons, inject_Z_plus.
  cbn [List.length]. rewrite Nat2Z.inj_succ. unfold Z.succ.
  rewrite inject_Z_plus. change (inject_Z 1) with 1%Q.
  pose proof (Hall x (or_introl eq_refl)) as Hx.
  destruct l as [|y l].
  - cbn [List.length sum fold_left Z.of_nat]. change (inject_Z 0) with 0%Q. lra.
  - assert (H : (lo * inject_Z (Z.of_nat (List.length (y :: l))) <
                 inject_Z (sum (y :: l)))%Q).
    { apply IH; [discriminate|]. intros z Hz. apply Hall. now right. }
    lra.
Qed.

Lemma sum_below (l : list Z) (hi : Q) :
  l <> [] -> (forall x, In x l -> (inject_Z x < hi)%Q) ->
  (inject_Z (sum l) < hi * inject_Z (Z.of_nat (List.length l)))%Q.
Proof.
  induction l as [|x l IH]; [congruence|]. intros _ Hall.
  rewrite sum_cons, inject_Z_plus.
  cbn [List.length]. rewrite Nat2Z.inj_succ. unfold Z.succ.
  rewrite inject_Z_plus. change (inject_Z 1) with 1%Q.
  pose proof (Hall x (or_introl eq_refl)) as Hx.
  destruct l as [|y l].
  - cbn [List.length sum fold_left Z.of_nat]. change (inject_Z 0) with 0%Q. lra.
  - assert (H : (inject_Z (sum (y :: l)) <
                 hi * inject_Z (Z.of_nat (List.length (y :: l))))%Q).
    { apply IH; [discriminate|]. intros z Hz. apply Hall. now right. }
    lra.
Qed.

(** The mean of readings that all lie strictly inside an interval lies
    strictly inside it. *)
Lemma average_between (l : list Z) (lo hi : Q) :
  l <> [] ->
  (forall x, In x l -> (lo < inject_Z x)%Q /\ (inject_Z x < hi)%Q) ->
  exists v, average l = Ok v /\ (lo < v)%Q /\ (v < hi)%Q.
Proof.
  intros Hne Hall.
  pose proof (sum_above l lo Hne (fun x Hx => proj1 (Hall x Hx))) as Lo.
  pose proof (sum_below l hi Hne (fun x Hx => proj2 (Hall x Hx))) as Hi.
  assert (Hn : (0 < inject_Z (Z.of_nat (List.length l)))%Q).
  { change 0%Q with (inject_Z 0). rewrite <- Zlt_Qlt.
    destruct l; [congruence | simpl; lia]. }
  unfold average. destruct l as [|x l]; [congruence|].
  eexists. split; [reflexivity|]. split.
  - now apply Qlt_shift_div_l.
  - now apply Qlt_shift_div_r.
Qed.

(** X1.  Every reading that enters the mean has a smaller and a larger reading
    in its batch: the smallest and the largest readings never enter it. *)
Theorem trim_drops_extremes (readings kept : list Z) :
  LoadCell.trim readings = Ok kept ->
  forall r, In r kept ->
    In r readings /\
    (exists a, In a readings /\ a < r) /\
    (exists c, In c readings /\ r < c).
Proof.
  intros Ht r Hr.
  assert (Hne : readings <> []).
  { intros ->. unfold LoadCell.trim in Ht. simpl in Ht. discriminate. }
  destruct (quantile_between readings (1 # 10) Hne) as (a & _ & q10 & Ia & _ & E1 & La & _);
    [discriminate | discriminate |].
  destruct (quantile_between readings (9 # 10) Hne) as (_ & c & q90 & _ & Ic & E9 & _ & Uc);
    [discriminate | discriminate |].
  unfold LoadCell.trim in Ht. rewrite E1, E9 in Ht. injection Ht as <-.
  apply filter_In in Hr as (Hin & Hb).
  apply andb_true_iff in Hb as (L & U). apply Qltb_lt in L, U.
  split; [exact Hin|]. split.
  - exists a. split; [exact Ia|]. rewrite Zlt_Qlt. lra.
  - exists c. split; [exact Ic|]. rewrite Zlt_Qlt. lra.
Qed.

Lemma trim_drops_extremes_witness :
  In 5 [1; 2; 3; 4; 5; 6; 7; 8; 9; 10] /\
  (exists a, In a [1; 2; 3; 4; 5; 6; 7; 8; 9; 10] /\ a < 5) /\
  (exists c, In c [1; 2; 3; 4; 5; 6; 7; 8; 9; 10] /\ 5 < c).
Proof.
  apply (trim_drops_extremes [1; 2; 3; 4; 5; 6; 7; 8; 9; 10]
           [2; 3; 4; 5; 6; 7; 8; 9] eq_refl 5).
  simpl. tauto.
Defined.

(** X2.  The value [take_measurement] returns lies strictly between the 10th and
    the 90th percentile of the batch pulled, hence strictly between two of
    its readings. *)
Theorem take_measurement_between (self : LoadCell.t) (hw hw' : HX711) (raw : Q) :
  LoadCell.take_measurement self hw = (Ok raw, hw') ->
  exists (readings : list Z) (q10 q90 : Q) (a c : Z),
    LoadCell.get_raw_data self 10 hw = (Ok readings, hw') /\
    quantile readings (1 # 10) = Ok q10 /\
    quantile readings (9 # 10) = Ok q90 /\
    In a readings /\ In c readings /\
    (inject_Z a <= q10)%Q /\ (q10 < raw)%Q /\
    (raw < q90)%Q /\ (q90 <= inject_Z c)%Q.
Proof.
  rewrite take_measurement_unfold.
  set (readings := firstn 10 _). intros [= Hr <-].
  exists readings.
  assert (Hne : readings <> []).
  { intros E. rewrite E in Hr. discriminate. }
  destruct (quantile_between readings (1 # 10) Hne) as (a & _ & q10 & Ia & _ & E1 & La & _);
    [discriminate | discriminate |].
  destruct (quantile_between readings (9 # 10) Hne) as (_ & c & q90 & _ & Ic & E9 & _ & Uc);
    [discriminate | discriminate |].
  exists q10, q90, a, c.
  unfold LoadCell.reduce, LoadCell.trim in Hr. rewrite E1, E9 in Hr.
  set (kept := filter _ readings) in Hr.
  assert (Hk : kept <> []) by (intros E; rewrite E in Hr; discriminate).
  destruct (average_between kept q10 q90 Hk) as (v & Ev & Lv & Uv).
  { intros x Hx. apply filter_In in Hx as (_ & Hb).
    apply andb_true_iff in Hb as (L & U). now apply Qltb_lt in L, U. }
  rewrite Ev in Hr. injection Hr as <-.
  repeat split; trivial.
Qed.

Lemma take_measurement_between_witness :
  exists (readings : list Z) (q10 q90 : Q) (a c : Z),
    LoadCell.get_raw_data cell_1L 10 ramp_hw = (Ok readings, bump (5, 6) ramp_hw) /\
    quantile readings (1 # 10) = Ok q10 /\
    quantile readings (9 # 10) = Ok q90 /\
    In a readings /\ In c readings /\
    (inject_Z a <= q10)%Q /\ (q10 < 44 # 8)%Q /\
    (44 # 8 < q90)%Q /\ (q90 <= inject_Z c)%Q.
Proof.
  exact (take_measurement_between cell_1L ramp_hw _ _ eq_refl).
Defined.
(** ** The order of the samples does not matter *)

Lemma insert_sorted_comm (x y : Z) (l : list Z) :
  insert_sorted x (insert_sorted y l) = insert_sorted y (insert_sorted x l).
Proof.
  induction l as [|z l IH]; simpl.
  - destruct (Z.leb_spec x y), (Z.leb_spec y x); trivial; try lia.
    assert (x = y) by lia. now subst.
  - destruct (Z.leb_spec y z), (Z.leb_spec x z); simpl;
      repeat match goal with
             | |- context [?a <=? ?b] => destruct (Z.leb_spec a b)
             end; trivial; try lia.
    + assert (x = y) by lia. now subst.
    + now rewrite IH.
Qed.

Lemma insert_sorted_permutation (x : Z) (l : list Z) :
  Permutation (x :: l) (insert_sorted x l).
Proof.
  induction l as [|y l IH]; simpl; [reflexivity|].
  destruct (x <=? y); [reflexivity|].
  rewrite perm_swap. now constructor.
Qed.

Lemma permutation_sort (l : list Z) : Permutation l (sort l).
Proof.
  induction l as [|x l IH]; simpl; [constructor|].
  rewrite <- insert_sorted_permutation. now constructor.
Qed.

Lemma sort_permutation (l l' : list Z) : Permutation l l' -> sort l = sort l'.
Proof.
  induction 1 as [| x l l' _ IH | x y l | l l1 l2 _ IH1 _ IH2]; simpl.
  - reflexivity.
  - now rewrite IH.
  - apply insert_sorted_comm.
  - congruence.
Qed.

Lemma sum_permutation (l l' : list Z) : Permutation l l' -> sum l = sum l'.
Proof.
  induction 1 as [| x l l' _ IH | x y l | l l1 l2 _ IH1 _ IH2].
  - reflexivity.
  - now rewrite !sum_cons, IH.
  - rewrite !sum_cons. lia.
  - congruence.
Qed.

Lemma filter_permutation {A} (f : A -> bool) (l l' : list A) :
  Permutation l l' -> Permutation (filter f l) (filter f l').
Proof.
  induction 1 as [| x l l' _ IH | x y l | l l1 l2 _ IH1 _ IH2]; simpl.
  - constructor.
  - destruct (f x); [now constructor | exact IH].
  - destruct (f x), (f y); try reflexivity. constructor.
  - now transitivity (filter f l1).
Qed.

Lemma average_permutation (l l' : list Z) :
  Permutation l l' -> average l = average l'.
Proof.
  intros P. unfold average.
  rewrite (sum_permutation _ _ P), (Permutation_length P).
  destruct l as [|x l], l' as [|y l']; trivial.
  - apply Permutation_nil in P. discriminate.
  - apply Permutation_sym, Permutation_nil in P. discriminate.
Qed.

Lemma quantile_permutation (l l' : list Z) (q : Q) :
  Permutation l l' -> quantile l q = quantile l' q.
Proof.
  intros P. unfold quantile.
  rewrite (sort_permutation _ _ P), (Permutation_length P).
  destruct l as [|x l], l' as [|y l']; trivial.
  - apply Permutation_nil in P. discriminate.
  - apply Permutation_sym, Permutation_nil in P. discriminate.
Qed.

Lemma reduce_permutation (l l' : list Z) :
  Permutation l l' -> LoadCell.reduce l = LoadCell.reduce l'.
Proof.
  intros P. unfold LoadCell.reduce, LoadCell.trim.
  rewrite !(quantile_permutation _ _ _ P).
  destruct (quantile l' (1 # 10)) as [q10|e]; trivial.
  destruct (quantile l' (9 # 10)) as [q90|e]; trivial.
  apply average_permutation, filter_permutation, P.
Qed.

(** X3.  The measurement does not depend on the order in which the driver
    delivers the samples of the batch. *)
Theorem take_measurement_order_free (self : LoadCell.t) (hw1 hw2 : HX711)
    (readings1 readings2 : list Z) (hw1' hw2' : HX711) :
  LoadCell.get_raw_data self 10 hw1 = (Ok readings1, hw1') ->
  LoadCell.get_raw_data self 10 hw2 = (Ok readings2, hw2') ->
  Permutation readings1 readings2 ->
  fst (LoadCell.take_measurement self hw1) =
  fst (LoadCell.take_measurement self hw2).
Proof.
  intros P1 P2 P. unfold LoadCell.take_measurement.
  rewrite (bind_ok _ _ _ _ _ P1), (bind_ok _ _ _ _ _ P2).
  unfold lift. cbn [fst]. now apply reduce_permutation.
Qed.

Lemma take_measurement_order_free_witness :
  fst (LoadCell.take_measurement cell_1L ramp_hw) =
  fst (LoadCell.take_measurement cell_1L shuffled_hw).
Proof.
  apply (take_measurement_order_free cell_1L ramp_hw shuffled_hw
           [1; 2; 3; 4; 5; 6; 7; 8; 9; 10] [7; 2; 10; 4; 1; 9; 3; 8; 6; 5]
           (bump (5, 6) ramp_hw) (bump (5, 6) shuffled_hw) eq_refl eq_refl).
  exact (Permutation_sym (permutation_sort [7; 2; 10; 4; 1; 9; 3; 8; 6; 5])).
Defined.

(** ** The trimmed measurement, in full *)

Lemma sum_total (l : list Z) : sum l = fold_right Z.add 0 l.
Proof.
  unfold sum. apply fold_symmetric.
  - intros x y z. apply Z.add_assoc.
  - intros y. apply Z.add_comm.
Qed.

Lemma average_mean (l : list Z) : l <> [] -> average l = Ok (mean l).
Proof.
  destruct l as [|x l]; [congruence|]. intros _.
  unfold average, mean. now rewrite sum_total.
Qed.

Lemma Qltb_not_le (x y : Q) : Qltb x y = negb (Qle_bool y x).
Proof.
  destruct (Qltb x y) eqn:L, (Qle_bool y x) eqn:G; trivial.
  - apply Qltb_lt in L. apply Qle_bool_iff in G.
    exfalso. exact (Qlt_not_le _ _ L G).
  - exfalso. destruct (Qlt_le_dec x y) as [L' | G'].
    + apply Qltb_lt in L'. congruence.
    + apply Qle_bool_iff in G'. congruence.
Qed.

Lemma trim_strictly_between (readings : list Z) (q10 q90 : Q) :
  quantile readings (1 # 10) = Ok q10 ->
  quantile readings (9 # 10) = Ok q90 ->
  LoadCell.trim readings = Ok (strictly_between q10 q90 readings).
Proof.
  intros E1 E9. unfold LoadCell.trim, strictly_between. rewrite E1, E9.
  f_equal. apply filter_ext. intros x. now rewrite !Qltb_not_le.
Qed.

Lemma quantile_sorted (a : list Z) (q : Q) :
  a <> [] -> (0 <= q)%Q -> (q <= 1)%Q ->
  exists v, quantile a q = Ok v /\ (v == linear_quantile (sort a) q)%Q.
Proof.
  intros Ha H0 H1. unfold quantile.
  apply Qle_bool_iff in H0 as B0. apply Qle_bool_iff in H1 as B1.
  rewrite B0, B1. cbn [andb negb].
  destruct a as [|x a']; [congruence|].
  eexists. split; [reflexivity|].
  unfold linear_quantile. rewrite sort_length, lerp_linear. ring.
Qed.

Lemma strictly_between_In (lo hi : Q) (readings : list Z) (x : Z) :
  In x (strictly_between lo hi readings) <->
  In x readings /\ (lo < inject_Z x)%Q /\ (inject_Z x < hi)%Q.
Proof.
  unfold strictly_between.
  rewrite filter_In, andb_true_iff, <- !Qltb_not_le, !Qltb_lt. tauto.
Qed.

(** C3. For a batch of at least 3 samples (of the 24-bit converter) pulled
    by [take_measurement], the two cuts are the 10th and the 90th percentile
    of that batch, interpolated between its order statistics, and the
    readings averaged are exactly those strictly between the cuts, in the
    order of the batch: every reading at or below the 10th, or at or above
    the 90th percentile is left out, hence every reading strictly below or
    strictly above.  If some reading is left, the value returned is the
    arithmetic mean of the readings left; if none is, the call raises
    [ZeroDivisionError].  Some reading is left whenever the readings are
    pairwise different. *)
Theorem take_measurement_trims (self : LoadCell.t) (hw hw' : HX711)
    (readings : list Z) :
  LoadCell.get_raw_data self 10 hw = (Ok readings, hw') ->
  (3 <= List.length readings)%nat ->
  Forall raw24 readings ->
  exists (sorted : list Z) (q10 q90 : Q),
    Permutation readings sorted /\ StronglySorted Z.le sorted /\
    quantile readings (1 # 10) = Ok q10 /\
    quantile readings (9 # 10) = Ok q90 /\
    (q10 == linear_quantile sorted (1 # 10))%Q /\
    (q90 == linear_quantile sorted (9 # 10))%Q /\
    (forall x, In x readings ->
       (inject_Z x <= q10)%Q \/ (q90 <= inject_Z x)%Q ->
       ~ In x (strictly_between q10 q90 readings)) /\
    LoadCell.take_measurement self hw =
      (match strictly_between q10 q90 readings with
       | [] => Raise ZeroDivisionError
       | _ :: _ => Ok (mean (strictly_between q10 q90 readings))
       end, hw') /\
    (NoDup readings -> strictly_between q10 q90 readings <> []).
Proof.
  intros Hpull Hlen _.
  assert (Hne : readings <> [])
    by (destruct readings; simpl in *; [lia | congruence]).
  destruct (quantile_sorted readings (1 # 10) Hne) as (q10 & E1 & S1);
    [discriminate.. |].
  destruct (quantile_sorted readings (9 # 10) Hne) as (q90 & E9 & S9);
    [discriminate.. |].
  pose proof (trim_strictly_between readings q10 q90 E1 E9) as Et.
  exists (sort readings), q10, q90.
  split; [apply permutation_sort|]. split; [apply sort_sorted|].
  split; [exact E1|]. split; [exact E9|].
  split; [exact S1|]. split; [exact S9|].
  split; [|split].
  - intros x _ [Hlow | Hhigh] Hin;
      apply strictly_between_In in Hin as (_ & L & U).
    + exact (Qlt_not_le _ _ L Hlow).
    + exact (Qlt_not_le _ _ U Hhigh).
  - unfold LoadCell.take_measurement.
    rewrite (bind_ok _ _ _ _ _ Hpull).
    unfold lift, LoadCell.reduce. rewrite Et.
    destruct (strictly_between q10 q90 readings) as [|r kept] eqn:K;
      [reflexivity|].
    now rewrite average_mean.
  - intros Hnd.
    destruct (trim_distinct readings Hnd Hlen) as (kept' & Ht' & Hk').
    rewrite Et in Ht'. now injection Ht' as <-.
Qed.

Lemma take_measurement_trims_witness :
  exists (sorted : list Z) (q10 q90 : Q),
    Permutation [7; 2; 10; 4; 1; 9; 3; 8; 6; 5] sorted /\
    StronglySorted Z.le sorted /\
    quantile [7; 2; 10; 4; 1; 9; 3; 8; 6; 5] (1 # 10) = Ok q10 /\
    quantile [7; 2; 10; 4; 1; 9; 3; 8; 6; 5] (9 # 10) = Ok q90 /\
    (q10 == linear_quantile sorted (1 # 10))%Q /\
    (q90 == linear_quantile sorted (9 # 10))%Q /\
    (forall x, In x [7; 2; 10; 4; 1; 9; 3; 8; 6; 5] ->
       (inject_Z x <= q10)%Q \/ (q90 <= inject_Z x)%Q ->
       ~ In x (strictly_between q10 q90 [7; 2; 10; 4; 1; 9; 3; 8; 6; 5])) /\
    LoadCell.take_measurement cell_1L shuffled_hw =
      (match strictly_between q10 q90 [7; 2; 10; 4; 1; 9; 3; 8; 6; 5] with
       | [] => Raise ZeroDivisionError
       | _ :: _ =>
           Ok (mean (strictly_between q10 q90 [7; 2; 10; 4; 1; 9; 3; 8; 6; 5]))
       end, bump (5, 6) shuffled_hw) /\
    (NoDup [7; 2; 10; 4; 1; 9; 3; 8; 6; 5] ->
     strictly_between q10 q90 [7; 2; 10; 4; 1; 9; 3; 8; 6; 5] <> []).
Proof.
  apply (take_measurement_trims cell_1L shuffled_hw).
  - reflexivity.
  - simpl. lia.
  - apply Forall_forall. intros x Hx. simpl in Hx. unfold raw24. lia.
Defined.

(** On the shuffled counts 1..10 the cuts are 1.9 and 9.1: 1 and 10 are
    left out and the mean of the others, in the order of the batch, is
    returned. *)
Example take_measurement_shuffled :
  strictly_between (19 # 10) (91 # 10) [7; 2; 10; 4; 1; 9; 3; 8; 6; 5] =
    [7; 2; 4; 9; 3; 8; 6; 5] /\
  fst (LoadCell.take_measurement cell_1L shuffled_hw) = Ok (44 # 8).
Proof. split; reflexivity. Qed.

(** C3, as stated, fails on batches with readings on a cut.  On five
    samples of 100 and five of 101 the cuts are 100 and 101: no reading is
    strictly below the first or strictly above the second, yet none is
    averaged and the call raises.  On 1, 1, 2, ..., 9 the cuts are 1 and
    8.1: the readings not strictly below the first nor strictly above the
    second are 1, 1, 2, ..., 8, of mean 37/9, but both readings 1 are left
    out and the call returns 5, the mean of 2, ..., 8. *)
Lemma take_measurement_cut_readings_dropped :
  (3 <= List.length [100; 100; 100; 100; 100; 101; 101; 101; 101; 101])%nat /\
  (exists q10 q90,
     quantile [100; 100; 100; 100; 100; 101; 101; 101; 101; 101] (1 # 10) =
       Ok q10 /\
     quantile [100; 100; 100; 100; 100; 101; 101; 101; 101; 101] (9 # 10) =
       Ok q90 /\
     (q10 == 100)%Q /\ (q90 == 101)%Q) /\
  LoadCell.take_measurement cell_1L two_level_hw =
    (Raise ZeroDivisionError, bump (5, 6) two_level_hw) /\
  (exists q10 q90,
     quantile [1; 1; 2; 3; 4; 5; 6; 7; 8; 9] (1 # 10) = Ok q10 /\
     quantile [1; 1; 2; 3; 4; 5; 6; 7; 8; 9] (9 # 10) = Ok q90 /\
     (q10 == 1)%Q /\ (q90 == 81 # 10)%Q /\
     filter (fun x => Qle_bool q10 (inject_Z x) && Qle_bool (inject_Z x) q90)
       [1; 1; 2; 3; 4; 5; 6; 7; 8; 9] = [1; 1; 2; 3; 4; 5; 6; 7; 8] /\
     (mean [1; 1; 2; 3; 4; 5; 6; 7; 8]%Z == 37 # 9)%Q) /\
  LoadCell.take_measurement cell_1L low_pair_hw =
    (Ok (mean [2; 3; 4; 5; 6; 7; 8]), bump (5, 6) low_pair_hw) /\
  (mean [2; 3; 4; 5; 6; 7; 8]%Z == 5)%Q /\
  ~ (mean [2; 3; 4; 5; 6; 7; 8]%Z == 37 # 9)%Q.
Proof.
  split; [simpl; lia|].
  split.
  { eexists. eexists. split; [reflexivity|]. split; [reflexivity|].
    split; reflexivity. }
  split; [reflexivity|].
  split.
  - eexists. eexists. split; [reflexivity|]. split; [reflexivity|].
    split; [reflexivity|]. split; [reflexivity|]. split; reflexivity.
  - split; [reflexivity|]. split; [reflexivity|]. discriminate.
Qed.

(** ** Ten different samples: the mean of the middle eight *)

Lemma Qltb_false (x y : Q) : (y <= x)%Q -> Qltb x y = false.
Proof.
  intros H. destruct (Qltb x y) eqn:E; trivial.
  apply Qltb_lt in E. exfalso. exact (Qlt_not_le _ _ E H).
Qed.

Lemma Qltb_true (x y : Q) : (x < y)%Q -> Qltb x y = true.
Proof. apply Qltb_lt. Qed.

Lemma sort_ten (readings : list Z) :
  List.length readings = 10%nat -> NoDup readings ->
  exists s0 s1 s2 s3 s4 s5 s6 s7 s8 s9,
    sort readings = [s0; s1; s2; s3; s4; s5; s6; s7; s8; s9] /\
    s0 < s1 /\ s1 < s2 /\ s2 < s3 /\ s3 < s4 /\ s4 < s5 /\
    s5 < s6 /\ s6 < s7 /\ s7 < s8 /\ s8 < s9.
Proof.
  intros Hlen Hnd.
  pose proof (sort_length readings) as L. rewrite Hlen in L.
  pose proof (nth_increasing (sort readings) (sort_sorted readings)
                (sort_NoDup readings Hnd)) as Inc.
  destruct (sort readings)
    as [|s0 [|s1 [|s2 [|s3 [|s4 [|s5 [|s6 [|s7 [|s8 [|s9 [|? ?]]]]]]]]]]];
    try discriminate L.
  exists s0, s1, s2, s3, s4, s5, s6, s7, s8, s9. split; [reflexivity|].
  pose proof (Inc 0%nat 1%nat). pose proof (Inc 1%nat 2%nat).
  pose proof (Inc 2%nat 3%nat). pose proof (Inc 3%nat 4%nat).
  pose proof (Inc 4%nat 5%nat). pose proof (Inc 5%nat 6%nat).
  pose proof (Inc 6%nat 7%nat). pose proof (Inc 7%nat 8%nat).
  pose proof (Inc 8%nat 9%nat). simpl in *. lia.
Qed.

(** X4.  Of ten pairwise different samples (of the 24-bit converter)
    exactly the smallest and the largest are dropped: the measurement is
    the mean of the other eight, their total being that of the ten less the
    two extremes. *)
Theorem take_measurement_middle_eight (self : LoadCell.t) (hw hw' : HX711)
    (readings : list Z) :
  LoadCell.get_raw_data self 10 hw = (Ok readings, hw') ->
  List.length readings = 10%nat -> NoDup readings ->
  Forall raw24 readings ->
  exists lo hi,
    In lo readings /\ In hi readings /\
    (forall r, In r readings -> lo <= r <= hi) /\
    LoadCell.trim readings =
      Ok (filter (fun r => negb (r =? lo) && negb (r =? hi)) readings) /\
    LoadCell.take_measurement self hw =
      (Ok (inject_Z (fold_right Z.add 0%Z readings - lo - hi) / inject_Z 8)%Q,
       hw').
Proof.
  intros Hpull Hlen Hnd _. rewrite <- sum_total.
  destruct (sort_ten readings Hlen Hnd)
    as (s0 & s1 & s2 & s3 & s4 & s5 & s6 & s7 & s8 & s9 & Es & O).
  pose proof (permutation_sort readings) as P. rewrite Es in P.
  assert (Hin : forall r, In r readings <->
            r = s0 \/ r = s1 \/ r = s2 \/ r = s3 \/ r = s4 \/
            r = s5 \/ r = s6 \/ r = s7 \/ r = s8 \/ r = s9).
  { intros r. rewrite <- sort_In, Es. simpl. intuition. }
  exists s0, s9.
  split; [apply Hin; tauto|]. split; [apply Hin; tauto|].
  split; [intros r Hr; apply Hin in Hr; lia|].
  assert (Et : LoadCell.trim readings =
            Ok (filter (fun r => negb (r =? s0) && negb (r =? s9)) readings)).
  { unfold LoadCell.trim.
    rewrite (quantile_tenths readings 1), (quantile_tenths readings 9)
      by (rewrite ?Hlen; lia).
    rewrite Hlen, Es.
    change (Z.of_nat 10 - 1) with 9.
    change (9 * 1 / 10) with 0. change (9 * 9 / 10) with 8.
    change (Z.to_nat (Z.min (0 + 1) 9)) with 1%nat.
    change (Z.to_nat (Z.min (8 + 1) 9)) with 9%nat.
    change (Z.to_nat 0) with 0%nat. change (Z.to_nat 8) with 8%nat.
    cbn [nth].
    set (q10 := lerp (inject_Z s0) (inject_Z s1) _).
    set (q90 := lerp (inject_Z s8) (inject_Z s9) _).
    assert (B1 : (inject_Z s0 < q10 /\ q10 < inject_Z s1)%Q).
    { split; [apply lerp_above | apply lerp_below];
        try (rewrite <- Zlt_Qlt; lia); reflexivity. }
    assert (B9 : (inject_Z s8 < q90 /\ q90 < inject_Z s9)%Q).
    { split; [apply lerp_above | apply lerp_below];
        try (rewrite <- Zlt_Qlt; lia); reflexivity. }
    f_equal. apply filter_ext_in. intros r Hr. apply Hin in Hr.
    assert (Z0 : forall a c : Z, a <= c -> (inject_Z a <= inject_Z c)%Q)
      by (intros; now rewrite <- Zle_Qle).
    destruct (Z.eqb_spec r s0) as [-> | N0].
    - cbn [negb andb]. rewrite Qltb_false; [reflexivity | lra].
    - destruct (Z.eqb_spec r s9) as [-> | N9].
      + cbn [negb andb]. rewrite (Qltb_false _ q90); [apply andb_false_r | lra].
      + cbn [negb andb].
        assert (R : s1 <= r <= s8) by lia.
        pose proof (Z0 s1 r (proj1 R)). pose proof (Z0 r s8 (proj2 R)).
        rewrite !Qltb_true; [reflexivity | lra | lra]. }
  split; [exact Et|].
  unfold LoadCell.take_measurement. rewrite (bind_ok _ _ _ _ _ Hpull).
  unfold lift, LoadCell.reduce. rewrite Et.
  set (g := fun r => negb (r =? s0) && negb (r =? s9)).
  assert (Pk : Permutation (filter g readings) [s1; s2; s3; s4; s5; s6; s7; s8]).
  { rewrite (filter_permutation g _ _ P). cbn [filter]. unfold g.
    rewrite !Z.eqb_refl.
    repeat match goal with
           | |- context [?a =? ?c] => rewrite (proj2 (Z.eqb_neq a c)) by lia
           end.
    cbn [negb andb]. reflexivity. }
  assert (E : sum [s1; s2; s3; s4; s5; s6; s7; s8] = sum readings - s0 - s9).
  { rewrite (sum_permutation _ _ P), !sum_cons. lia. }
  rewrite (average_permutation _ _ Pk). unfold average.
  now rewrite E.
Qed.

Lemma take_measurement_middle_eight_witness :
  exists lo hi,
    In lo [7; 2; 10; 4; 1; 9; 3; 8; 6; 5] /\
    In hi [7; 2; 10; 4; 1; 9; 3; 8; 6; 5] /\
    (forall r, In r [7; 2; 10; 4; 1; 9; 3; 8; 6; 5] -> lo <= r <= hi) /\
    LoadCell.trim [7; 2; 10; 4; 1; 9; 3; 8; 6; 5] =
      Ok (filter (fun r => negb (r =? lo) && negb (r =? hi))
            [7; 2; 10; 4; 1; 9; 3; 8; 6; 5]) /\
    LoadCell.take_measurement cell_1L shuffled_hw =
      (Ok (Qdiv (inject_Z (fold_right Z.add 0 [7; 2; 10; 4; 1; 9; 3; 8; 6; 5]
                           - lo - hi))
                (inject_Z 8)),
       bump (5, 6) shuffled_hw).
Proof.
  apply (take_measurement_middle_eight cell_1L shuffled_hw); [reflexivity.. | |].
  - repeat (constructor; [simpl; intuition lia|]). constructor.
  - apply Forall_forall. intros x Hx. simpl in Hx. unfold raw24. lia.
Defined.

(** ** A constant load shifts the measurement *)

Lemma insert_sorted_shift (c x : Z) (l : list Z) :
  insert_sorted (x + c) (map (fun r => r + c) l) =
  map (fun r => r + c) (insert_sorted x l).
Proof.
  induction l as [|y l IH]; simpl; trivial.
  replace (x + c <=? y + c) with (x <=? y)
    by (destruct (Z.leb_spec x y), (Z.leb_spec (x + c) (y + c)); trivial; lia).
  destruct (x <=? y); simpl; trivial. now rewrite IH.
Qed.

Lemma sort_shift (c : Z) (l : list Z) :
  sort (map (fun r => r + c) l) = map (fun r => r + c) (sort l).
Proof.
  induction l as [|x l IH]; simpl; trivial.
  now rewrite IH, insert_sorted_shift.
Qed.

Lemma Qltb_compat (x x' y y' : Q) :
  (x == x')%Q -> (y == y')%Q -> Qltb x y = Qltb x' y'.
Proof. intros Hx Hy. unfold Qltb. now rewrite Hx, Hy. Qed.

Lemma lerp_shift (a b t c : Q) :
  (lerp (a + c) (b + c) t == lerp a b t + c)%Q.
Proof. rewrite !lerp_linear. ring. Qed.

Lemma nth_shift (c : Z) (l : list Z) (i : nat) :
  (i < List.length l)%nat ->
  nth i (map (fun r => r + c) l) 0 = nth i l 0 + c.
Proof.
  intros L. rewrite (nth_indep _ 0 (0 + c)) by (now rewrite length_map).
  apply (map_nth (fun r => r + c)).
Qed.

Lemma quantile_shift (c : Z) (l : list Z) (q : Q) :
  match quantile l q with
  | Ok v =>
      exists v', quantile (map (fun r => r + c) l) q = Ok v' /\
                 (v' == v + inject_Z c)%Q
  | Raise e => quantile (map (fun r => r + c) l) q = Raise e
  end.
Proof.
  unfold quantile.
  destruct (Qle_bool 0 q) eqn:B0; [|reflexivity].
  destruct (Qle_bool q 1) eqn:B1; [|reflexivity].
  cbn [andb negb].
  destruct l as [|x l]; trivial.
  cbn [map]. rewrite <- (map_cons (fun r => r + c)).
  rewrite sort_shift, length_map.
  set (a := x :: l).
  apply Qle_bool_iff in B0, B1.
  assert (Hn : 1 <= Z.of_nat (List.length a)) by (simpl; lia).
  pose proof (virtual_index_range _ q Hn B0 B1) as R.
  set (p := Qfloor _) in *.
  eexists. split; [reflexivity|].
  rewrite !nth_shift by (rewrite sort_length; lia).
  rewrite !inject_Z_plus. apply lerp_shift.
Qed.

Lemma sum_map_shift (c : Z) (l : list Z) :
  sum (map (fun r => r + c) l) = sum l + Z.of_nat (List.length l) * c.
Proof.
  induction l as [|x l IH]; [reflexivity|].
  cbn [map]. rewrite !sum_cons, IH. cbn [List.length]. lia.
Qed.

Lemma trim_shift (c : Z) (readings : list Z) :
  LoadCell.trim (map (fun r => r + c) readings) =
  match LoadCell.trim readings with
  | Ok kept => Ok (map (fun r => r + c) kept)
  | Raise e => Raise e
  end.
Proof.
  unfold LoadCell.trim.
  pose proof (quantile_shift c readings (1 # 10)) as H10.
  pose proof (quantile_shift c readings (9 # 10)) as H90.
  destruct (quantile readings (1 # 10)) as [q10|e]; [|now rewrite H10].
  destruct H10 as (q10' & -> & E10).
  destruct (quantile readings (9 # 10)) as [q90|e]; [|now rewrite H90].
  destruct H90 as (q90' & -> & E90).
  f_equal.
  clear -E10 E90. induction readings as [|r l IH]; [reflexivity|].
  cbn [map filter].
  rewrite inject_Z_plus.
  rewrite (Qltb_compat q10' (q10 + inject_Z c) _ _ E10 (Qeq_refl _)).
  rewrite (Qltb_compat _ _ q90' (q90 + inject_Z c) (Qeq_refl _) E90).
  assert (S1 : forall x y z : Q, Qltb (x + z) (y + z) = Qltb x y).
  { intros x y z. destruct (Qltb x y) eqn:L.
    - apply Qltb_lt in L. apply Qltb_lt. now apply Qplus_lt_l.
    - destruct (Qltb (x + z) (y + z)) eqn:L'; trivial.
      apply Qltb_lt in L'. apply Qplus_lt_l in L'.
      apply Qltb_lt in L'. congruence. }
  rewrite !S1.
  destruct (Qltb q10 (inject_Z r) && Qltb (inject_Z r) q90);
    cbn [map]; now rewrite IH.
Qed.

(** X5.  Two batches of samples (of the 24-bit converter) that differ by
    the same constant [c], a fixed preload on the second: the cuts move
    with the samples and the same samples are discarded, so that the
    readings kept of the second batch are those kept of the first, each
    raised by [c], and their total is the first total plus [c] per reading
    kept; each measurement is the mean of its readings kept.  When nothing
    is kept of the first batch, or it is empty, both calls raise the same
    exception. *)
Theorem take_measurement_shift (self : LoadCell.t) (hw1 hw2 hw1' hw2' : HX711)
    (readings : list Z) (c : Z) :
  LoadCell.get_raw_data self 10 hw1 = (Ok readings, hw1') ->
  LoadCell.get_raw_data self 10 hw2 =
    (Ok (map (fun r => r + c) readings), hw2') ->
  Forall raw24 readings ->
  Forall raw24 (map (fun r => r + c) readings) ->
  match LoadCell.trim readings with
  | Ok [] =>
      LoadCell.trim (map (fun r => r + c) readings) = Ok [] /\
      fst (LoadCell.take_measurement self hw1) = Raise ZeroDivisionError /\
      fst (LoadCell.take_measurement self hw2) = Raise ZeroDivisionError
  | Ok kept =>
      LoadCell.trim (map (fun r => r + c) readings) =
        Ok (map (fun r => r + c) kept) /\
      fst (LoadCell.take_measurement self hw1) = Ok (mean kept) /\
      fst (LoadCell.take_measurement self hw2) =
        Ok (mean (map (fun r => r + c) kept)) /\
      fold_right Z.add 0 (map (fun r => r + c) kept) =
        fold_right Z.add 0 kept + Z.of_nat (List.length kept) * c
  | Raise e =>
      LoadCell.trim (map (fun r => r + c) readings) = Raise e /\
      fst (LoadCell.take_measurement self hw1) = Raise e /\
      fst (LoadCell.take_measurement self hw2) = Raise e
  end.
Proof.
  intros H1 H2 _ _. unfold LoadCell.take_measurement.
  rewrite (bind_ok _ _ _ _ _ H1), (bind_ok _ _ _ _ _ H2).
  unfold lift, LoadCell.reduce. cbn [fst]. rewrite (trim_shift c readings).
  destruct (LoadCell.trim readings) as [[|k kept]|e].
  - repeat split.
  - split; [reflexivity|]. split; [now rewrite average_mean|].
    split; [now rewrite average_mean|].
    rewrite <- !sum_total. apply sum_map_shift.
  - repeat split.
Qed.

Lemma take_measurement_shift_witness :
  LoadCell.trim [101; 102; 103; 104; 105; 106; 107; 108; 109; 110] =
    Ok (map (fun r => r + 100) [2; 3; 4; 5; 6; 7; 8; 9]) /\
  fst (LoadCell.take_measurement cell_1L ramp_hw) =
    Ok (mean [2; 3; 4; 5; 6; 7; 8; 9]) /\
  fst (LoadCell.take_measurement cell_1L preloaded_hw) =
    Ok (mean (map (fun r => r + 100) [2; 3; 4; 5; 6; 7; 8; 9])) /\
  fold_right Z.add 0 (map (fun r => r + 100) [2; 3; 4; 5; 6; 7; 8; 9]) =
    fold_right Z.add 0 [2; 3; 4; 5; 6; 7; 8; 9] + Z.of_nat 8 * 100.
Proof.
  apply (take_measurement_shift cell_1L ramp_hw preloaded_hw
           (bump (5, 6) ramp_hw) (bump (5, 6) preloaded_hw)
           [1; 2; 3; 4; 5; 6; 7; 8; 9; 10] 100); try reflexivity;
    apply Forall_forall; intros x Hx; simpl in Hx; unfold raw24; lia.
Defined.

(** * Calibration *)

(** ** Entering a mass *)

(** An entry that is not an integer is refused and asked for again: when
    the next [rejected] lines are refused by [int] and the one after them
    denotes [working_mass], the loop (given more than [rejected] tries)
    yields [working_mass], has read exactly these [rejected + 1] lines, has
    shown the prompt before each and the refusal after each rejected one,
    and has not touched the drivers. *)
Theorem working_mass_loop_retries (tries rejected : nat) (c : Console)
    (working_mass : Z) :
  (forall i, (i < rejected)%nat ->
             raises (py_int (stdin c (answered c + i)%nat))) ->
  py_int (stdin c (answered c + rejected)%nat) = Ok working_mass ->
  (rejected < tries)%nat ->
  Calibration.working_mass_loop tries c =
    (Ok (Some working_mass),
     {| driver := driver c; stdin := stdin c;
        answered := (answered c + S rejected)%nat;
        stdout := stdout c ++ refusals rejected ++ [Prompted mass_prompt] |}).
Proof.
  revert tries c. induction rejected as [|k IH]; intros tries c Hbad Hgood Hlt.
  - destruct tries as [|tries]; [lia|].
    cbn [Calibration.working_mass_loop]. unfold bind, input.
    rewrite Nat.add_0_r in Hgood. rewrite Hgood. unfold ret.
    now rewrite Nat.add_1_r.
  - destruct tries as [|tries]; [lia|].
    cbn [Calibration.working_mass_loop]. unfold bind at 1. unfold input.
    destruct (Hbad 0%nat ltac:(lia)) as [e He].
    rewrite Nat.add_0_r in He. rewrite He.
    unfold bind, print.
    rewrite (IH tries _); cbn [answered stdin driver stdout].
    + f_equal. f_equal; [lia|].
      cbn [refusals]. now rewrite <- !app_assoc.
    + intros i Hi. specialize (Hbad (S i) ltac:(lia)).
      now rewrite Nat.add_succ_r in Hbad.
    + now rewrite Nat.add_succ_r in Hgood.
    + lia.
Qed.

Lemma working_mass_loop_retries_witness :
  Calibration.working_mass_loop 3 (typing ["two"; "12.5"; " 200 "]%string) =
    (Ok (Some 200),
     {| driver := loading_hw;
        stdin := stdin (typing ["two"; "12.5"; " 200 "]%string);
        answered := 3;
        stdout := [Prompted mass_prompt; Printed "Not a valid mass...";
                   Prompted mass_prompt; Printed "Not a valid mass...";
                   Prompted mass_prompt] |}).
Proof.
  apply (working_mass_loop_retries 3 2
           (typing ["two"; "12.5"; " 200 "]%string) 200).
  - intros [|[|i]] Hi; [now exists ValueError..|lia].
  - reflexivity.
  - lia.
Defined.

Lemma pins_eqb_refl (p : pins) : pins_eqb p p = true.
Proof. unfold pins_eqb. now rewrite !Z.eqb_refl. Qed.

Lemma pins_eqb_neq (p q : pins) : q <> p -> pins_eqb q p = false.
Proof.
  intros N. unfold pins_eqb. destruct p as [p1 p2], q as [q1 q2]. simpl.
  destruct (Z.eqb_spec q1 p1), (Z.eqb_spec q2 p2); trivial. congruence.
Qed.

Lemma working_mass_loop_frame (tries : nat) : forall c r c',
  Calibration.working_mass_loop tries c = (r, c') ->
  driver c' = driver c /\ stdin c' = stdin c /\
  (answered c <= answered c')%nat /\
  (exists o, r = Ok o) /\
  (forall w, r = Ok (Some w) ->
             (answered c < answered c')%nat /\
             py_int (stdin c (answered c' - 1)) = Ok w).
Proof.
  induction tries as [|tries IH]; intros c r c' E.
  - cbn in E. injection E as <- <-.
    split; [|split; [|split; [|split]]]; trivial.
    + now exists None.
    + discriminate.
  - cbn [Calibration.working_mass_loop] in E. unfold bind at 1 in E.
    unfold input in E.
    destruct (py_int (stdin c (answered c))) as [w0|e] eqn:P.
    + injection E as <- <-. cbn.
      split; [|split; [|split; [|split]]]; trivial; try lia.
      * now exists (Some w0).
      * intros w1 [= <-]. rewrite Nat.sub_0_r. split; [lia|trivial].
    + unfold bind, print in E. apply IH in E. cbn in E.
      destruct E as (D & I & A & O & W).
      split; [|split; [|split; [|split]]]; trivial; try lia.
      intros w1 Hw. apply W in Hw. split; [lia|apply Hw].
Qed.

(** ** The calibration points *)

Lemma calibrating_loop_points (tries fuel : nat) (self : LoadCell.t) :
  forall data c data' c',
  Calibration.calibrating_loop tries fuel self data c = (Ok (Some data'), c') ->
  exists xs ys,
    fst data' = fst data ++ xs /\ snd data' = snd data ++ ys /\
    List.length xs = List.length ys /\ (1 <= List.length xs)%nat /\
    feed (driver c') = feed (driver c) /\ stdin c' = stdin c /\
    reads (driver c') (pins_of self) =
      (reads (driver c) (pins_of self) + List.length xs)%nat /\
    (forall q, q <> pins_of self ->
               reads (driver c') q = reads (driver c) q) /\
    (forall i, (i < List.length xs)%nat ->
       LoadCell.reduce
         (firstn 10 (feed (driver c) (pins_of self)
                       (reads (driver c) (pins_of self) + i)%nat)) =
       Ok (nth i xs 0%Q)) /\
    (answered c < answered c')%nat /\
    stop_answer (stdin c (answered c' - 1)).
Proof.
  induction fuel as [|fuel IH]; intros data c data' c' E.
  - discriminate.
  - cbn [Calibration.calibrating_loop] in E. unfold bind at 1 in E.
    destruct (Calibration.working_mass_loop tries c) as [r c1] eqn:W.
    apply working_mass_loop_frame in W.
    destruct W as (D1 & I1 & A1 & [o ->] & _).
    destruct o as [w|]; [|discriminate].
    unfold bind at 1 in E. unfold print at 1 in E.
    unfold bind at 1 in E. unfold on_driver at 1 in E.
    cbn [driver stdin answered stdout] in E.
    rewrite take_measurement_unfold in E.
    fold (pins_of self) in E.
    destruct (LoadCell.reduce _) as [x|e] eqn:Rd; [|discriminate].
    unfold bind at 1 in E. unfold input at 1 in E.
    cbn [driver stdin answered stdout fst snd] in E.
    set (ans := lower (stdin c1 (answered c1))) in E.
    assert (Stop : ans = "n"%string \/ ans = "no"%string ->
                   stop_answer (stdin c (S (answered c1) - 1))).
    { intros S0. unfold stop_answer. rewrite <- I1.
      replace (S (answered c1) - 1)%nat with (answered c1) by lia. exact S0. }
    assert (Here :
      forall c2, driver c2 = bump (pins_of self) (driver c1) ->
                 stdin c2 = stdin c1 -> answered c2 = S (answered c1) ->
      exists xs ys,
        fst (fst data ++ [x], snd data ++ [w]) = fst data ++ xs /\
        snd (fst data ++ [x], snd data ++ [w]) = snd data ++ ys /\
        List.length xs = List.length ys /\ (1 <= List.length xs)%nat /\
        feed (driver c2) = feed (driver c) /\ stdin c2 = stdin c /\
        reads (driver c2) (pins_of self) =
          (reads (driver c) (pins_of self) + List.length xs)%nat /\
        (forall q, q <> pins_of self ->
                   reads (driver c2) q = reads (driver c) q) /\
        (forall i, (i < List.length xs)%nat ->
           LoadCell.reduce
             (firstn 10 (feed (driver c) (pins_of self)
                           (reads (driver c) (pins_of self) + i)%nat)) =
           Ok (nth i xs 0%Q)) /\
        (answered c < answered c2)%nat /\
        (ans = "n"%string \/ ans = "no"%string ->
         stop_answer (stdin c (answered c2 - 1)))).
    { intros c2 D2 I2 A2. exists [x], [w]. rewrite D2, I2, A2, D1, I1.
      cbn [fst snd List.length bump feed reads].
      rewrite pins_eqb_refl.
      split; [|split; [|split; [|split; [|split; [|split; [|split;
        [|split; [|split; [|split]]]]]]]]]; trivial; try lia.
      - intros q Hq. now rewrite (pins_eqb_neq _ _ Hq).
      - intros i Hi. replace i with 0%nat by lia.
        rewrite Nat.add_0_r. rewrite <- D1. exact Rd. }
    destruct (String.eqb ans "n") eqn:En.
    { injection E as <- Ec. apply String.eqb_eq in En.
      destruct (Here c')
        as (xs & ys & F1 & F2 & F3 & F4 & F5 & F6 & F7 & F8 & F9 & F10 & F11);
        [now rewrite <- Ec..|].
      exists xs, ys. repeat (split; trivial). apply F11. now left. }
    destruct (String.eqb ans "no") eqn:Eno.
    { injection E as <- Ec. apply String.eqb_eq in Eno.
      destruct (Here c')
        as (xs & ys & F1 & F2 & F3 & F4 & F5 & F6 & F7 & F8 & F9 & F10 & F11);
        [now rewrite <- Ec..|].
      exists xs, ys. repeat (split; trivial). apply F11. now right. }
    unfold bind at 1 in E.
    match type of E with
    | (let '(_, _) := ?pr ?st in _) = _ =>
        assert (P : exists c2, pr st = (Ok tt, c2) /\
                  driver c2 = bump (pins_of self) (driver c1) /\
                  stdin c2 = stdin c1 /\ answered c2 = S (answered c1))
    end.
    { destruct (negb (String.eqb ans "y")); unfold print, ret;
        eexists; (split; [reflexivity|]); cbn; auto. }
    destruct P as (c2 & P & D2 & I2 & A2). rewrite P in E.
    apply IH in E.
    destruct E as (xs & ys & G1 & G2 & G3 & G4 & G5 & G6 & G7 & G8 & G9 & G10 & G11).
    destruct (Here c2 D2 I2 A2)
      as (xs0 & ys0 & F1 & F2 & F3 & F4 & F5 & F6 & F7 & F8 & F9 & F10 & _).
    cbn [fst snd] in G1, G2.
    exists (x :: xs), (w :: ys).
    rewrite G1, G2. cbn [List.length].
    assert (R2 : reads (driver c2) (pins_of self) =
                 S (reads (driver c) (pins_of self))).
    { rewrite D2, D1. cbn. now rewrite pins_eqb_refl. }
    assert (Fd : feed (driver c2) = feed (driver c)).
    { rewrite D2, D1. reflexivity. }
    assert (H1 : (fst data ++ [x]) ++ xs = fst data ++ x :: xs)
      by (now rewrite <- app_assoc).
    assert (H2 : (snd data ++ [w]) ++ ys = snd data ++ w :: ys)
      by (now rewrite <- app_assoc).
    assert (H3 : S (List.length xs) = S (List.length ys)) by congruence.
    assert (H4 : (1 <= S (List.length xs))%nat) by lia.
    assert (H5 : feed (driver c') = feed (driver c)) by (now rewrite G5).
    assert (H6 : stdin c' = stdin c) by (now rewrite G6, I2).
    assert (H7 : reads (driver c') (pins_of self) =
                 (reads (driver c) (pins_of self) + S (List.length xs))%nat)
      by lia.
    assert (H8 : forall q, q <> pins_of self ->
                           reads (driver c') q = reads (driver c) q).
    { intros q Hq. rewrite (G8 q Hq), D2, D1. cbn.
      now rewrite (pins_eqb_neq _ _ Hq). }
    assert (H9 : forall i, (i < S (List.length xs))%nat ->
       LoadCell.reduce
         (firstn 10 (feed (driver c) (pins_of self)
                       (reads (driver c) (pins_of self) + i)%nat)) =
       Ok (nth i (x :: xs) 0%Q)).
    { intros [|i] Hi.
      - rewrite Nat.add_0_r. cbn [nth]. rewrite <- D1. exact Rd.
      - cbn [nth]. rewrite <- (G9 i ltac:(lia)). rewrite Fd, R2.
        now rewrite Nat.add_succ_r. }
    assert (H10 : (answered c < answered c')%nat) by lia.
    assert (H11 : stop_answer (stdin c (answered c' - 1))).
    { unfold stop_answer in *. rewrite I2, I1 in G11. exact G11. }
    repeat (split; [assumption|]). assumption.
Qed.

(** X14.  Once the loops are left and the line is fitted, the sensor carries the
    coefficients [polyfit] returned for the points collected: as many
    readings as masses and at least two of each, the first mass being the
    0 of the empty scale; the readings are the trimmed means of successive
    batches of this sensor, one batch per point, and no other sensor was
    read; the last line read was the operator's [n] or [no] (in either
    case). *)
Theorem calibrate_points `{Fit} (fuel : nat) (self self' : LoadCell.t)
    (c c' : Console) :
  lower (stdin c (answered c)) = "y"%string ->
  Calibration.calibrate fuel self c = (Ok (Some self'), c') ->
  exists xs ys slope intercept,
    polyfit xs ys = Ok (slope, intercept) /\
    self' = Calibration.set_coefficients self slope intercept /\
    List.length xs = List.length ys /\ (2 <= List.length xs)%nat /\
    hd_error ys = Some 0 /\
    (forall i, (i < List.length xs)%nat ->
       LoadCell.reduce
         (firstn 10 (feed (driver c) (pins_of self)
                       (reads (driver c) (pins_of self) + i)%nat)) =
       Ok (nth i xs 0%Q)) /\
    reads (driver c') (pins_of self) =
      (reads (driver c) (pins_of self) + List.length xs)%nat /\
    (forall q, q <> pins_of self ->
               reads (driver c') q = reads (driver c) q) /\
    stop_answer (stdin c (answered c' - 1)).
Proof.
  intros Yes E. unfold Calibration.calibrate in E.
  unfold bind at 1 in E. unfold input at 1 in E. rewrite Yes in E.
  cbn [String.eqb Ascii.eqb Bool.eqb] in E.
  unfold bind at 1 in E. unfold print at 1 in E.
  unfold bind at 1 in E. unfold input at 1 in E.
  unfold bind at 1 in E. unfold on_driver at 1 in E.
  cbn [driver stdin answered stdout] in E.
  rewrite take_measurement_unfold in E. fold (pins_of self) in E.
  destruct (LoadCell.reduce _) as [x0|e] eqn:Rd; [|discriminate].
  unfold bind at 1 in E.
  destruct (Calibration.calibrating_loop fuel fuel self ([x0], [0]) _)
    as [[[data|]|e] c1] eqn:Loop; try discriminate.
  apply calibrating_loop_points in Loop.
  destruct Loop as (xs & ys & G1 & G2 & G3 & G4 & G5 & G6 & G7 & G8 & G9 & G10 & G11).
  cbn [fst snd driver stdin answered stdout bump feed reads app] in *.
  rewrite pins_eqb_refl in *.
  unfold bind at 1 in E. unfold lift at 1 in E.
  destruct (polyfit (fst data) (snd data)) as [line|e] eqn:Fit0; [|discriminate].
  unfold bind, print, ret in E. injection E as <- <-.
  cbn [driver stdin answered stdout].
  exists (fst data), (snd data), (fst line), (snd line).
  rewrite G1, G2 in *. cbn [List.length hd_error].
  assert (H9 : forall i, (i < S (List.length xs))%nat ->
     LoadCell.reduce
       (firstn 10 (feed (driver c) (pins_of self)
                     (reads (driver c) (pins_of self) + i)%nat)) =
     Ok (nth i (x0 :: xs) 0%Q)).
  { intros [|i] Hi.
    - rewrite Nat.add_0_r. exact Rd.
    - cbn [nth]. rewrite <- (G9 i ltac:(lia)). now rewrite Nat.add_succ_r. }
  assert (H8 : forall q, q <> pins_of self ->
                         reads (driver c1) q = reads (driver c) q).
  { intros q Hq. rewrite (G8 q Hq). now rewrite (pins_eqb_neq _ _ Hq). }
  assert (H11 : stop_answer (stdin c (answered c1 - 1))) by exact G11.
  split; [now destruct line|].
  split; [reflexivity|].
  split; [congruence|].
  split; [lia|].
  split; [reflexivity|].
  split; [exact H9|].
  split; [lia|].
  split; [exact H8|exact H11].
Qed.

Lemma calibrate_points_witness :
  exists xs ys slope intercept,
    @polyfit two_points xs ys = Ok (slope, intercept) /\
    Calibration.set_coefficients cell_1L (2 # 1) (- 11 # 1) =
      Calibration.set_coefficients cell_1L slope intercept /\
    List.length xs = List.length ys /\ (2 <= List.length xs)%nat /\
    hd_error ys = Some 0 /\
    (forall i, (i < List.length xs)%nat ->
       LoadCell.reduce
         (firstn 10 (feed loading_hw (pins_of cell_1L) (0 + i)%nat)) =
       Ok (nth i xs 0%Q)) /\
    reads (driver (snd (@Calibration.calibrate two_points 2 cell_1L
                          (typing ["Y"; ""; "two"; "200"; "No"]%string))))
      (pins_of cell_1L) = (0 + List.length xs)%nat /\
    (forall q, q <> pins_of cell_1L ->
       reads (driver (snd (@Calibration.calibrate two_points 2 cell_1L
                             (typing ["Y"; ""; "two"; "200"; "No"]%string))))
         q = 0%nat) /\
    stop_answer "No".
Proof.
  exact (@calibrate_points two_points 2 cell_1L
           (Calibration.set_coefficients cell_1L (2 # 1) (- 11 # 1))
           (typing ["Y"; ""; "two"; "200"; "No"]%string)
           (snd (@Calibration.calibrate two_points 2 cell_1L
                   (typing ["Y"; ""; "two"; "200"; "No"]%string)))
           eq_refl eq_refl).
Defined.

(** ** Declining *)

(** X13.  Only [y] or [Y] starts the calibration of a sensor.  On any other
    answer to the first question ([yes] included) the call returns at once,
    whatever the bound on the loops: the sensor keeps its coefficients, no
    sample is pulled, and nothing but the question has been shown. *)
Theorem calibrate_declined `{Fit} (fuel : nat) (self : LoadCell.t)
    (c : Console) :
  lower (stdin c (answered c)) <> "y"%string ->
  Calibration.calibrate fuel self c =
    (Ok (Some self),
     {| driver := driver c; stdin := stdin c; answered := S (answered c);
        stdout := stdout c ++
          [Prompted "Are you sure you want to calibrate cell %s? (y/n) "] |}).
Proof.
  intros No. unfold Calibration.calibrate. unfold bind at 1. unfold input at 1.
  apply String.eqb_neq in No. now rewrite No.
Qed.

Lemma calibrate_declined_witness :
  @Calibration.calibrate two_points 0 cell_1L (typing ["yes"%string]) =
    (Ok (Some cell_1L),
     {| driver := loading_hw; stdin := stdin (typing ["yes"%string]);
        answered := 1;
        stdout :=
          [Prompted "Are you sure you want to calibrate cell %s? (y/n) "] |}).
Proof.
  apply (@calibrate_declined two_points 0 cell_1L (typing ["yes"%string])).
  discriminate.
Defined.

(** ** Calibrating with one known mass *)

(** X15.  The session with one known mass.  The operator confirms, presses
    enter on the empty scale, enters the mass (after [rejected] entries that
    are no integers) and answers [n] or [no]; the entries are lines of
    ASCII characters, the one taken no longer than the 4300 characters
    Python converts; the two batches pulled are samples of the 24-bit
    converter that survive trimming, and [polyfit] returns a line for the
    two points.  Then, the loops being allowed more than [rejected] passes,
    [calibrate] returns the sensor with that line's coefficients, having
    read [rejected + 4] lines and shown the dialogue below. *)
Theorem calibrate_one_mass `{Fit} (fuel rejected : nat) (self : LoadCell.t)
    (c : Console) (working_mass : Z) (x0 x1 : Q) (line : Q * Q) :
  lower (stdin c (answered c)) = "y"%string ->
  (forall i, (i <= rejected)%nat ->
             ascii_text (stdin c (answered c + 2 + i)%nat)) ->
  (forall i, (i < rejected)%nat ->
             raises (py_int (stdin c (answered c + 2 + i)%nat))) ->
  py_int (stdin c (answered c + 2 + rejected)%nat) = Ok working_mass ->
  (String.length (stdin c (answered c + 2 + rejected)%nat) <= 4300)%nat ->
  stop_answer (stdin c (answered c + 3 + rejected)%nat) ->
  Forall raw24
    (firstn 10 (feed (driver c) (pins_of self)
                  (reads (driver c) (pins_of self)))) ->
  Forall raw24
    (firstn 10 (feed (driver c) (pins_of self)
                  (S (reads (driver c) (pins_of self))))) ->
  LoadCell.reduce
    (firstn 10 (feed (driver c) (pins_of self)
                  (reads (driver c) (pins_of self)))) = Ok x0 ->
  LoadCell.reduce
    (firstn 10 (feed (driver c) (pins_of self)
                  (S (reads (driver c) (pins_of self))))) = Ok x1 ->
  polyfit [x0; x1] [0; working_mass] = Ok line ->
  (rejected < fuel)%nat ->
  Calibration.calibrate fuel self c =
    (Ok (Some (Calibration.set_coefficients self (fst line) (snd line))),
     {| driver := bump (pins_of self) (bump (pins_of self) (driver c));
        stdin := stdin c;
        answered := (answered c + 4 + rejected)%nat;
        stdout := stdout c ++
          [Prompted "Are you sure you want to calibrate cell %s? (y/n) ";
           Printed ("Now calibrating load cell: " ++ LoadCell.id self);
           Prompted "Ensure that 0 mass is on the scale, then press enter."]
          ++ refusals rejected ++
          [Prompted mass_prompt;
           Printed "Do not disturb the scale during meausurement...";
           Prompted "Do you wish to continue? [Y/N] ";
           Printed ("Regression Equation: y = " ++ format_f (fst line)
                    ++ "*x = " ++ format_f (snd line))] |}).
Proof.
  intros Yes _ Bad Good _ Stop _ _ R0 R1 Fit0 Fuel.
  unfold Calibration.calibrate.
  unfold bind at 1. unfold input at 1. rewrite Yes.
  cbn [String.eqb Ascii.eqb Bool.eqb].
  unfold bind at 1. unfold print at 1.
  unfold bind at 1. unfold input at 1.
  unfold bind at 1. unfold on_driver at 1.
  cbn [driver stdin answered stdout].
  rewrite take_measurement_unfold. fold (pins_of self). rewrite R0.
  unfold bind at 1.
  destruct fuel as [|fuel]; [lia|].
  cbn [Calibration.calibrating_loop]. unfold bind at 1.
  rewrite (working_mass_loop_retries (S fuel) rejected _ working_mass);
    cbn [driver stdin answered stdout].
  2:{ intros i Hi. specialize (Bad i Hi).
      now replace (S (S (answered c)) + i)%nat with (answered c + 2 + i)%nat
        by lia. }
  2:{ now replace (S (S (answered c)) + rejected)%nat
        with (answered c + 2 + rejected)%nat by lia. }
  2:{ exact Fuel. }
  unfold bind at 1. unfold print at 1.
  unfold bind at 1. unfold on_driver at 1.
  cbn [driver stdin answered stdout].
  rewrite take_measurement_unfold. fold (pins_of self).
  cbn [bump feed reads]. rewrite pins_eqb_refl. rewrite R1.
  unfold bind at 1. unfold input at 1.
  cbn [driver stdin answered stdout fst snd app].
  replace (S (S (answered c)) + S rejected)%nat
    with (answered c + 3 + rejected)%nat by lia.
  assert (Done : forall (k : M Console (option (list Q * list Z))) d,
    (if String.eqb (lower (stdin c (answered c + 3 + rejected)%nat)) "n"
     then ret (Some d)
     else if String.eqb (lower (stdin c (answered c + 3 + rejected)%nat)) "no"
     then ret (Some d) else k) = ret (Some d)).
  { intros k d. destruct Stop as [-> | ->]; reflexivity. }
  rewrite Done. unfold ret at 1.
  unfold bind at 1. unfold lift. cbn [fst snd app]. rewrite Fit0.
  unfold bind, print, ret. cbn [driver stdin answered stdout].
  f_equal. f_equal.
  - lia.
  - rewrite <- !app_assoc. reflexivity.
Qed.

Lemma calibrate_one_mass_witness :
  @Calibration.calibrate two_points 2 cell_1L
     (typing ["Y"; ""; "two"; "200"; "No"]%string) =
    (Ok (Some (Calibration.set_coefficients cell_1L (2 # 1) (- 11 # 1))),
     {| driver := bump (5, 6) (bump (5, 6) loading_hw);
        stdin := stdin (typing ["Y"; ""; "two"; "200"; "No"]%string);
        answered := 5;
        stdout :=
          [Prompted "Are you sure you want to calibrate cell %s? (y/n) ";
           Printed "Now calibrating load cell: 1L";
           Prompted "Ensure that 0 mass is on the scale, then press enter.";
           Prompted mass_prompt;
           Printed "Not a valid mass...";
           Prompted mass_prompt;
           Printed "Do not disturb the scale during meausurement...";
           Prompted "Do you wish to continue? [Y/N] ";
           Printed "Regression Equation: y = 2.000000*x = -11.000000"] |}).
Proof.
  apply (@calibrate_one_mass two_points 2 1 cell_1L
           (typing ["Y"; ""; "two"; "200"; "No"]%string) 200
           (44 # 8) (844 # 8) (2 # 1, - 11 # 1)).
  - reflexivity.
  - intros [|[|i]] Hi; [reflexivity..|lia].
  - intros i Hi. replace i with 0%nat by lia. now exists ValueError.
  - reflexivity.
  - simpl. lia.
  - now right.
  - apply Forall_forall. intros x Hx. simpl in Hx. unfold raw24. lia.
  - apply Forall_forall. intros x Hx. simpl in Hx. unfold raw24. lia.
  - reflexivity.
  - reflexivity.
  - reflexivity.
  - lia.
Defined.

(** ** Calibrating the array *)

Lemma calibrate_wiring `{Fit} (fuel : nat) (self self' : LoadCell.t)
    (c c' : Console) :
  Calibration.calibrate fuel self c = (Ok (Some self'), c') ->
  wiring self' = wiring self.
Proof.
  unfold Calibration.calibrate. unfold bind at 1. unfold input at 1.
  destruct (String.eqb _ "y").
  - unfold bind at 1. unfold print at 1.
    unfold bind at 1. unfold input at 1.
    unfold bind at 1.
    destruct (on_driver _ _) as [[x|e] c1]; [|discriminate].
    unfold bind at 1.
    destruct (Calibration.calibrating_loop _ _ _ _ _) as [[[data|]|e] c2];
      try discriminate.
    unfold bind at 1. unfold lift.
    destruct (polyfit _ _) as [line|e]; [|discriminate].
    unfold bind, print, ret. now intros [= <- _].
  - unfold ret. now intros [= <- _].
Qed.

Lemma update_out {A} (f : A -> A) (l : list A) : forall k,
  nth_error l k = None -> update k f l = l.
Proof.
  induction l as [|x l IH]; intros [|k] E; simpl in *; trivial.
  - discriminate.
  - now rewrite IH.
Qed.

Lemma map_update_same {A B} (g : A -> B) (f : A -> A) (l : list A) :
  forall k,
  (forall x, nth_error l k = Some x -> g (f x) = g x) ->
  map g (update k f l) = map g l.
Proof.
  induction l as [|x l IH]; intros [|k] E; simpl in *; trivial.
  - now rewrite E.
  - now rewrite IH.
Qed.

Lemma store_wiring (i j : nat) (cell : LoadCell.t)
    (cs : list (list LoadCell.t)) :
  (forall cur, nth_error (nth i cs []) j = Some cur ->
               wiring cur = wiring cell) ->
  map (map wiring) (update i (update j (fun _ => cell)) cs) =
  map (map wiring) cs.
Proof.
  intros Hcur. apply map_update_same. intros row Hrow.
  apply map_update_same. intros cur Hc. symmetry. apply Hcur.
  now rewrite (nth_error_nth _ _ _ Hrow).
Qed.

Lemma wiring_at (cs cs' : list (list LoadCell.t)) (i j : nat)
    (cur : LoadCell.t) :
  map (map wiring) cs' = map (map wiring) cs ->
  nth_error (nth i cs' []) j = Some cur ->
  exists cur0, nth_error (nth i cs []) j = Some cur0 /\
               wiring cur0 = wiring cur.
Proof.
  intros E Hc.
  assert (R : map wiring (nth i cs' []) = map wiring (nth i cs [])).
  { apply (f_equal (fun l => nth i l (map wiring []))) in E.
    now rewrite !(map_nth (map wiring)) in E. }
  assert (N : nth_error (map wiring (nth i cs' [])) j = Some (wiring cur)).
  { now rewrite nth_error_map, Hc. }
  rewrite R, nth_error_map in N.
  destruct (nth_error (nth i cs []) j) as [cur0|]; [|discriminate].
  exists cur0. split; trivial.
  change (Some (wiring cur0) = Some (wiring cur)) in N. congruence.
Qed.

Lemma calibrate_chamber_wiring `{Fit} (fuel i : nat) :
  forall chamber j s r s',
  Calibration.calibrate_chamber fuel i j chamber s = (r, s') ->
  (forall k cell cur,
     nth_error chamber k = Some cell ->
     nth_error (nth i (LoadCellArray.cells (load_cell_array s)) []) (j + k)
       = Some cur ->
     wiring cur = wiring cell) ->
  same_wiring s s'.
Proof.
  induction chamber as [|cell rest IH]; intros j s r s' E Pre.
  - cbn in E. injection E as _ <-. now repeat split.
  - cbn [Calibration.calibrate_chamber] in E. unfold bind at 1 in E.
    unfold Calibration.on_console at 1 in E.
    destruct (Calibration.calibrate fuel cell (console s))
      as [[[cell'|]|e] con] eqn:Cal.
    + apply calibrate_wiring in Cal.
      unfold bind at 1 in E. unfold Calibration.store, Calibration.on_array in E.
      cbn [load_cell_array console cache] in E.
      apply IH in E.
      * destruct E as (E1 & E2 & E3).
        cbn [load_cell_array console cache LoadCellArray.cells
             LoadCellArray.num_cells LoadCellArray.set_cells] in *.
        rewrite store_wiring in E1.
        -- now repeat split.
        -- intros cur Hc. rewrite Cal.
           apply (Pre 0%nat cell cur eq_refl). now rewrite Nat.add_0_r.
      * cbn [load_cell_array console cache LoadCellArray.cells
             LoadCellArray.set_cells].
        intros k c0 cur Hk Hc.
        eapply wiring_at in Hc.
        2:{ apply store_wiring. intros cur1 Hc1. rewrite Cal.
            apply (Pre 0%nat cell cur1 eq_refl). now rewrite Nat.add_0_r. }
        destruct Hc as (cur0 & Hc0 & <-).
        apply (Pre (S k) c0 cur0 Hk).
        now rewrite Nat.add_succ_r.
    + unfold ret in E. injection E as _ <-. now repeat split.
    + injection E as _ <-. now repeat split.
Qed.

Lemma wiring_row (cs cs' : list (list LoadCell.t)) (i : nat) :
  map (map wiring) cs' = map (map wiring) cs ->
  map wiring (nth i cs' []) = map wiring (nth i cs []).
Proof.
  intros E. apply (f_equal (fun l => nth i l (map wiring []))) in E.
  now rewrite !(map_nth (map wiring)) in E.
Qed.

Lemma same_wiring_trans (s1 s2 s3 : Session) :
  same_wiring s1 s2 -> same_wiring s2 s3 -> same_wiring s1 s3.
Proof.
  intros (A1 & A2 & A3) (B1 & B2 & B3). repeat split; congruence.
Qed.

Lemma calibrate_chambers_wiring `{Fit} (fuel : nat) :
  forall chambers i s r s',
  Calibration.calibrate_chambers fuel i chambers s = (r, s') ->
  (forall k chamber,
     nth_error chambers k = Some chamber ->
     map wiring (nth (i + k) (LoadCellArray.cells (load_cell_array s)) []) =
     map wiring chamber) ->
  same_wiring s s'.
Proof.
  induction chambers as [|chamber rest IH]; intros i s r s' E Pre.
  - cbn in E. injection E as _ <-. now repeat split.
  - cbn [Calibration.calibrate_chambers] in E. unfold bind at 1 in E.
    destruct (Calibration.calibrate_chamber fuel i 0 chamber s)
      as [r1 s1] eqn:Row.
    apply calibrate_chamber_wiring in Row.
    2:{ intros k cell cur Hk Hc. cbn [Nat.add] in Hc.
        pose proof (Pre 0%nat chamber eq_refl) as P0.
        rewrite Nat.add_0_r in P0.
        apply (f_equal (fun l => nth_error l k)) in P0.
        rewrite !nth_error_map, Hk, Hc in P0. cbn in P0. congruence. }
    destruct r1 as [[|]|e].
    + apply IH in E.
      * exact (same_wiring_trans _ _ _ Row E).
      * intros k chamber' Hk. destruct Row as (R1 & _).
        rewrite (wiring_row _ _ _ R1).
        specialize (Pre (S k) chamber' Hk).
        now rewrite Nat.add_succ_r in Pre.
    + unfold ret in E. injection E as _ <-. exact Row.
    + injection E as _ <-. exact Row.
Qed.

(** X16.  However a calibration of the array ends (completed, left by an
    exception of a sensor or of [polyfit], or still going), every chamber
    list holds the sensors it held, in the same order, each with its pins,
    gain, channel, id and tare offset: only slopes and intercepts have been
    assigned.  The count of sensors and the file are as they were. *)
Theorem calibrate_array_wiring `{Fit} (fuel : nat) (s : Session) :
  same_wiring s (snd (Calibration.calibrate_array fuel s)).
Proof.
  destruct (Calibration.calibrate_array fuel s) as [r s'] eqn:E.
  unfold Calibration.calibrate_array in E.
  apply calibrate_chambers_wiring in E; trivial.
  intros k chamber Hk. cbn [Nat.add].
  now rewrite (nth_error_nth _ _ _ Hk).
Qed.

(** ** The program [main] *)

Lemma print_coefficients_lines `{PyFloat} (cs : list LoadCell.t) :
  forall con,
  Calibration.print_coefficients cs con =
    (Ok tt,
     {| driver := driver con; stdin := stdin con; answered := answered con;
        stdout := stdout con ++ map coefficient_line cs |}).
Proof.
  induction cs as [|cell rest IH]; intros con.
  - cbn. unfold ret. rewrite app_nil_r. now destruct con.
  - cbn [Calibration.print_coefficients]. unfold bind, print.
    rewrite IH. cbn [driver stdin answered stdout map].
    now rewrite <- app_assoc.
Qed.

(** X17.  [main] writes the file as its last step only: when it does not run to
    completion (the file is missing, a record of it is refused, a sensor or
    [polyfit] fails during a calibration, or a calibration is still going)
    the file is as it was. *)
Theorem main_failure_keeps_file `{PyFloat} `{Fit} (fuel : nat) (s : Session) :
  fst (Calibration.main fuel s) <> Ok true ->
  cache (snd (Calibration.main fuel s)) = cache s.
Proof.
  destruct (Calibration.main fuel s) as [r s'] eqn:E. cbn [fst snd].
  intros NotDone.
  unfold Calibration.main in E. unfold bind at 1 in E. unfold lift at 1 in E.
  cbn [LoadCellArray.init] in E.
  unfold bind at 1 in E. unfold Calibration.on_array at 1 in E.
  unfold bind at 1 in E. unfold Calibration.read_cache at 1 in E.
  cbn [load_cell_array console cache] in E.
  destruct (cache s) as [data_string|] eqn:File;
    [|now injection E as _ <-].
  unfold bind at 1 in E. unfold Calibration.on_array at 1 in E.
  cbn [load_cell_array console cache] in E.
  destruct (LoadCellArray.load_array data_string LoadCellArray.empty)
    as [[[]|e] arr]; [|now injection E as _ <-].
  unfold bind at 1 in E. unfold Calibration.on_console at 1 in E.
  unfold input at 1 in E.
  cbn [load_cell_array console cache] in E.
  set (s3 := {| load_cell_array := arr; console := _; cache := _ |}) in E.
  unfold bind at 1 in E.
  assert (Step : forall r4 s4,
    (if String.eqb (stdin (console s) (answered (console s))) "Y"
     then Calibration.calibrate_array fuel else ret true) s3 = (r4, s4) ->
    cache s4 = Some data_string).
  { intros r4 s4. destruct (String.eqb _ "Y").
    - unfold Calibration.calibrate_array. intros E4.
      apply calibrate_chambers_wiring in E4.
      + now destruct E4 as (_ & _ & ->).
      + intros k chamber Hk. cbn [Nat.add].
        now rewrite (nth_error_nth _ _ _ Hk).
    - unfold ret. now intros [= _ <-]. }
  destruct ((if String.eqb (stdin (console s) (answered (console s))) "Y"
             then Calibration.calibrate_array fuel else ret true) s3)
    as [[finished|e] s4] eqn:E4.
  - specialize (Step _ _ eq_refl). destruct finished; cbn [negb] in E.
    + unfold bind at 1 in E. unfold Calibration.on_console at 1 in E.
      rewrite print_coefficients_lines in E.
      unfold bind, Calibration.write_cache, ret in E.
      injection E as <- _. congruence.
    + unfold ret in E. now injection E as _ <-.
  - specialize (Step _ _ eq_refl). now injection E as _ <-.
Qed.

Lemma main_failure_keeps_file_witness :
  cache (snd (@Calibration.main two_points decimal 1
                (desk (Some "5,6,128,A,1L,None|"%string) ["y"%string]))) =
  Some "5,6,128,A,1L,None|"%string.
Proof.
  apply (@main_failure_keeps_file decimal two_points 1
           (desk (Some "5,6,128,A,1L,None|"%string) ["y"%string])).
  vm_compute. discriminate.
Defined.





(** * The file, the constructors and the loop *)

(** ** Loading: the count of sensors *)

Lemma split_length (sep : ascii) (s : string) :
  List.length (split sep s) = S (count_char sep s).
Proof.
  induction s as [|a r IH]; [reflexivity|].
  cbn [split count_char]. destruct (Ascii.eqb a sep).
  - cbn [List.length]. now rewrite IH.
  - destruct (split sep r) as [|h t]; [discriminate|].
    cbn [List.length] in *. lia.
Qed.

Lemma removelast_length {A} (l : list A) :
  List.length (removelast l) = pred (List.length l).
Proof.
  induction l as [|x l IH]; [reflexivity|].
  destruct l as [|y l]; [reflexivity|].
  change (removelast (x :: y :: l)) with (x :: removelast (y :: l)).
  cbn [List.length] in *. now rewrite IH.
Qed.

Lemma py_index_range {A} (l : list A) (i : Z) (k : nat) :
  py_index l i = Ok k -> (k < List.length l)%nat.
Proof.
  unfold py_index.
  destruct (Z.leb_spec 0 i), (Z.ltb_spec i (Z.of_nat (List.length l)));
    cbn [andb]; try (intros [= <-]; lia).
  - destruct (Z.leb_spec (- Z.of_nat (List.length l)) i), (Z.ltb_spec i 0);
      cbn [andb]; try discriminate. lia.
  - destruct (Z.leb_spec (- Z.of_nat (List.length l)) i), (Z.ltb_spec i 0);
      cbn [andb]; try discriminate. intros [= <-]. lia.
  - destruct (Z.leb_spec (- Z.of_nat (List.length l)) i), (Z.ltb_spec i 0);
      cbn [andb]; try discriminate. intros [= <-]. lia.
Qed.

Lemma concat_update_length {A} (x : A) (i : nat) (l : list (list A)) :
  forall k, (k < List.length l)%nat ->
  List.length (List.concat (update k (list_insert i x) l)) =
  S (List.length (List.concat l)).
Proof.
  induction l as [|a l IH]; intros [|k] Hk; cbn [List.length] in Hk; try lia.
  - cbn [update List.concat]. rewrite !length_app. unfold list_insert.
    rewrite length_app. cbn [List.length].
    rewrite <- (firstn_skipn i a) at 3. rewrite length_app. lia.
  - cbn [update List.concat]. rewrite !length_app, IH by lia. lia.
Qed.

Ltac lift_step E :=
  unfold bind at 1 in E; unfold lift at 1 in E;
  match type of E with
  | (match ?x with Ok _ => _ | Raise _ => _ end) = _ =>
      destruct x as [?|?];
      [|right; injection E as <- <-; eexists; split; reflexivity]
  end.

Lemma load_record_cases `{PyFloat} (record : string) (self : LoadCellArray.t)
    (r : result unit) (self' : LoadCellArray.t) :
  LoadCellArray.load_record record self = (r, self') ->
  (r = Ok tt /\
   LoadCellArray.num_cells self' = LoadCellArray.num_cells self /\
   sensors self' = S (sensors self)) \/
  (exists e, r = Raise e /\ self' = self).
Proof.
  unfold LoadCellArray.load_record. intros E.
  do 10 lift_step E.
  destruct (py_index _ _) as [k|e] eqn:Ix;
    [|right; injection E as <- <-; eexists; split; reflexivity].
  destruct (LoadCell.init _ _ _ _ _ _ _ _) as [cell|e];
    [|right; injection E as <- <-; eexists; split; reflexivity].
  left. injection E as <- <-. split; [reflexivity|]. split; [reflexivity|].
  unfold sensors. cbn [LoadCellArray.cells LoadCellArray.set_cells].
  apply concat_update_length. exact (py_index_range _ _ _ Ix).
Qed.

Lemma load_records_count `{PyFloat} (records : list string) :
  forall self r self',
  LoadCellArray.load_records records self = (r, self') ->
  LoadCellArray.num_cells self' = LoadCellArray.num_cells self /\
  ((r = Ok tt /\ sensors self' = (sensors self + List.length records)%nat) \/
   (exists e, r = Raise e /\
              (sensors self <= sensors self')%nat /\
              (sensors self' < sensors self + List.length records)%nat)).
Proof.
  induction records as [|record rest IH]; intros self r self' E.
  - cbn in E. injection E as <- <-. split; [reflexivity|]. left.
    split; [reflexivity|]. cbn [List.length]. lia.
  - cbn [LoadCellArray.load_records] in E. unfold bind at 1 in E.
    destruct (LoadCellArray.load_record record self) as [r1 s1] eqn:E1.
    apply load_record_cases in E1.
    destruct E1 as [(-> & N1 & S1) | (e & -> & ->)].
    + apply IH in E. destruct E as (N & [(-> & S2) | (e & -> & S2 & S3)]).
      * split; [congruence|]. left. split; trivial.
        cbn [List.length]. lia.
      * split; [congruence|]. right. exists e. split; trivial.
        cbn [List.length]. lia.
    + injection E as <- <-. split; trivial. right. exists e.
      split; trivial. cbn [List.length]. lia.
Qed.

(** X11.  [load_array] sets the count of sensors to the number of records of the
    file (its [|] characters) before it reads any of them, and adds the
    sensors to those the array already holds.  If every record is accepted
    the array has grown by that many sensors; if one is refused the call
    raises with the records before it loaded, so that fewer sensors were
    added than the count says. *)
Theorem load_array_count `{PyFloat} (data_string : string)
    (self self' : LoadCellArray.t) (r : result unit) :
  LoadCellArray.load_array data_string self = (r, self') ->
  LoadCellArray.num_cells self' = Z.of_nat (count_char "|" data_string) /\
  match r with
  | Ok _ => sensors self' = (sensors self + count_char "|" data_string)%nat
  | Raise _ =>
      (sensors self <= sensors self')%nat /\
      (sensors self' < sensors self + count_char "|" data_string)%nat
  end.
Proof.
  unfold LoadCellArray.load_array. intros E.
  apply load_records_count in E.
  rewrite removelast_length, split_length in E. cbn [pred] in E.
  cbn [LoadCellArray.num_cells LoadCellArray.set_num_cells] in E.
  destruct E as (N & C). split; [exact N|].
  destruct C as [(-> & S1) | (e & -> & S1 & S2)]; [exact S1|now split].
Qed.

Lemma load_array_count_witness :
  LoadCellArray.num_cells
    (snd (@LoadCellArray.load_array decimal
            "5,6,128,A,1L,2.0,0.5|13,19,64,A,9R,None,None|20,21,128,B,3R,1.5,None|"
            one_cell_array)) = 3 /\
  (sensors one_cell_array <=
   sensors (snd (@LoadCellArray.load_array decimal
            "5,6,128,A,1L,2.0,0.5|13,19,64,A,9R,None,None|20,21,128,B,3R,1.5,None|"
            one_cell_array)))%nat /\
  (sensors (snd (@LoadCellArray.load_array decimal
            "5,6,128,A,1L,2.0,0.5|13,19,64,A,9R,None,None|20,21,128,B,3R,1.5,None|"
            one_cell_array)) < sensors one_cell_array + 3)%nat.
Proof.
  refine (@load_array_count decimal
            "5,6,128,A,1L,2.0,0.5|13,19,64,A,9R,None,None|20,21,128,B,3R,1.5,None|"
            one_cell_array
            (snd (@LoadCellArray.load_array decimal
                    "5,6,128,A,1L,2.0,0.5|13,19,64,A,9R,None,None|20,21,128,B,3R,1.5,None|"
                    one_cell_array))
            (Raise IndexError) _).
  vm_compute. reflexivity.
Defined.

Lemma split_tail (sep : ascii) (body tail : string) :
  has_char sep tail = false ->
  exists piece pieces,
    split sep (body ++ String sep tail) = piece :: pieces ++ [tail] /\
    split sep (body ++ String sep "") = piece :: pieces ++ [EmptyString].
Proof.
  intros Ht. induction body as [|a r (piece & pieces & E1 & E2)].
  - exists EmptyString, []. cbn [append split]. rewrite Ascii.eqb_refl.
    now rewrite (split_no_sep _ _ Ht).
  - cbn [append split]. rewrite E1, E2. destruct (Ascii.eqb a sep).
    + now exists EmptyString, (piece :: pieces).
    + now exists (String a piece), pieces.
Qed.

(** X12.  Whatever follows the last [|] of the file is not read: the same
    records are loaded, with the same outcome, as from the file cut after
    that delimiter. *)
Theorem load_array_ignores_tail `{PyFloat} (body tail : string)
    (self : LoadCellArray.t) :
  has_char "|" tail = false ->
  LoadCellArray.load_array (body ++ String "|" tail) self =
  LoadCellArray.load_array (body ++ String "|" "") self.
Proof.
  intros Ht. unfold LoadCellArray.load_array.
  destruct (split_tail "|" body tail Ht) as (piece & pieces & -> & ->).
  now rewrite !app_comm_cons, !removelast_last.
Qed.

Lemma load_array_ignores_tail_witness :
  @LoadCellArray.load_array decimal
     "5,6,128,A,1L,2.0,0.5|13,19,64" LoadCellArray.empty =
  @LoadCellArray.load_array decimal
     "5,6,128,A,1L,2.0,0.5|" LoadCellArray.empty.
Proof.
  exact (@load_array_ignores_tail decimal "5,6,128,A,1L,2.0,0.5" "13,19,64"
           LoadCellArray.empty eq_refl).
Defined.

(** ** Sensors and arrays as constructed *)

Lemma update_nth {A} (f : A -> A) (l : list A) (d : A) : forall k,
  (k < List.length l)%nat -> nth k (update k f l) d = f (nth k l d).
Proof.
  induction l as [|x l IH]; intros [|k] Hk; cbn [List.length] in Hk; try lia.
  - reflexivity.
  - cbn [update nth]. apply IH. lia.
Qed.

Lemma place_slotted (cell : LoadCell.t) (self : LoadCellArray.t) :
  slotted cell -> List.length (LoadCellArray.cells self) = 4%nat ->
  exists self',
    LoadCellArray.place cell self = (Ok tt, self') /\
    List.length (LoadCellArray.cells self') = 4%nat /\
    (forall c, In c (List.concat (LoadCellArray.cells self')) <->
               c = cell \/ In c (List.concat (LoadCellArray.cells self))) /\
    sensors self' = S (sensors self) /\
    LoadCellArray.num_cells self' = LoadCellArray.num_cells self + 1.
Proof.
  intros (chamber & side & Hc & Hs & Hid) Hlen.
  eexists. split; [exact (place_valid_slot cell self chamber side Hc Hs Hid Hlen)|].
  cbn [LoadCellArray.cells LoadCellArray.num_cells].
  split; [now rewrite update_length|]. split; [|split; [|reflexivity]].
  - intros c. apply In_concat_update; [lia|]. intros a. apply In_list_insert.
  - unfold sensors. cbn [LoadCellArray.cells].
    apply concat_update_length. lia.
Qed.

(** X9.  [LoadCellArray(cells)] accepts every list of sensors that [LoadCell]
    built, shared slots included: it raises nothing, holds exactly the
    sensors given, each once per occurrence in the list, and counts them. *)
Theorem init_accepts_slotted (cs : list LoadCell.t) :
  Forall slotted cs ->
  exists self,
    LoadCellArray.init (Some cs) = Ok self /\
    List.length (LoadCellArray.cells self) = 4%nat /\
    (forall c, In c (List.concat (LoadCellArray.cells self)) <-> In c cs) /\
    sensors self = List.length cs /\
    LoadCellArray.num_cells self = Z.of_nat (List.length cs).
Proof.
  intros Hsl. unfold LoadCellArray.init.
  assert (G : forall self,
    List.length (LoadCellArray.cells self) = 4%nat ->
    exists self',
      LoadCellArray.place_all cs self = (Ok tt, self') /\
      List.length (LoadCellArray.cells self') = 4%nat /\
      (forall c, In c (List.concat (LoadCellArray.cells self')) <->
                 In c cs \/ In c (List.concat (LoadCellArray.cells self))) /\
      sensors self' = (sensors self + List.length cs)%nat /\
      LoadCellArray.num_cells self' =
        LoadCellArray.num_cells self + Z.of_nat (List.length cs)).
  { induction cs as [|cell rest IH]; intros self Hlen.
    - exists self. cbn. repeat split; trivial; try tauto; lia.
    - inversion Hsl as [|? ? Hs1 Hs2]; subst.
      destruct (place_slotted cell self Hs1 Hlen)
        as (self1 & P1 & L1 & M1 & S1 & N1).
      destruct (IH Hs2 self1 L1) as (self' & P & L & M & S2 & N).
      exists self'. cbn [LoadCellArray.place_all].
      rewrite (bind_ok _ _ _ _ _ P1). split; [exact P|]. split; [exact L|].
      split; [|split].
      + intros c. rewrite M, M1. simpl. intuition congruence.
      + rewrite S2, S1. cbn [List.length]. lia.
      + rewrite N, N1. cbn [List.length]. lia. }
  destruct (G LoadCellArray.empty eq_refl) as (self & P & L & M & S0 & N).
  exists self. rewrite P. split; [reflexivity|]. split; [exact L|].
  split; [|split].
  - intros c. rewrite M. simpl. tauto.
  - rewrite S0. reflexivity.
  - rewrite N. reflexivity.
Qed.

Lemma cell_1L_slotted : slotted cell_1L.
Proof. exists 1, "L"%string. repeat split; auto; lia. Qed.

Lemma cell_1R_slotted : slotted cell_1R.
Proof. exists 1, "R"%string. repeat split; auto; lia. Qed.

Lemma cell_1L_twin_slotted : slotted cell_1L_twin.
Proof. exists 1, "L"%string. repeat split; auto; lia. Qed.

Lemma init_accepts_slotted_witness :
  exists self,
    LoadCellArray.init (Some [cell_1L; cell_1L_twin; cell_1R]) = Ok self /\
    List.length (LoadCellArray.cells self) = 4%nat /\
    (forall c, In c (List.concat (LoadCellArray.cells self)) <->
               In c [cell_1L; cell_1L_twin; cell_1R]) /\
    sensors self = 3%nat /\
    LoadCellArray.num_cells self = 3.
Proof.
  apply (init_accepts_slotted [cell_1L; cell_1L_twin; cell_1R]).
  repeat constructor.
  - exact cell_1L_slotted.
  - exact cell_1L_twin_slotted.
  - exact cell_1R_slotted.
Defined.

(** ** Batches that fail and batches that pass *)

Lemma take_measurement_distinct_witness :
  exists raw,
    LoadCell.take_measurement cell_1L short_hw = (Ok raw, bump (5, 6) short_hw).
Proof.
  apply (take_measurement_distinct cell_1L short_hw (bump (5, 6) short_hw)
           [40; 10; 30] eq_refl).
  - repeat (constructor; [simpl; intuition congruence|]). constructor.
  - simpl. lia.
  - apply Forall_forall. intros x Hx. simpl in Hx. unfold raw24. lia.
Defined.

Lemma take_measurement_constant_batch_witness :
  LoadCell.take_measurement cell_1R stuck_hw =
    (Raise ZeroDivisionError, bump (13, 19) stuck_hw).
Proof.
  apply (take_measurement_constant_batch cell_1R stuck_hw
           (bump (13, 19) stuck_hw) [5; 5; 5; 5; 5; 5; 5; 5; 5; 5] 5 eq_refl).
  - discriminate.
  - simpl. intuition congruence.
Defined.

Lemma init_grid_witness :
  exists self,
    LoadCellArray.init (Some [cell_1R; cell_3R; cell_1L]) = Ok self /\
    grid (LoadCellArray.cells self) /\
    (forall c, In c (List.concat (LoadCellArray.cells self)) <->
               In c [cell_1R; cell_3R; cell_1L]) /\
    LoadCellArray.num_cells self = 3.
Proof.
  apply (init_grid [cell_1R; cell_3R; cell_1L]).
  - repeat constructor.
    + exists 1, "R"%string. repeat split; auto; lia.
    + exists 3, "R"%string. repeat split; auto; lia.
    + exists 1, "L"%string. repeat split; auto; lia.
  - repeat (constructor; [simpl; intuition congruence|]). constructor.
Defined.

(** ** MeasurementCoordinator: the whole loop *)

Lemma cycle_flag (self : MeasurementCoordinator.t) (w : World) :
  measure (snd (MeasurementCoordinator.cycle self w)) = measure w /\
  lookups (snd (MeasurementCoordinator.cycle self w)) = S (lookups w) /\
  (fst (MeasurementCoordinator.cycle self w) = Ok Break <->
   measure w (lookups w) = false).
Proof.
  unfold MeasurementCoordinator.cycle.
  unfold bind, MeasurementCoordinator.controls_measure. cbn [negb fst snd].
  destruct (measure w (lookups w)) eqn:Flag; cbn [negb].
  2:{ unfold ret. cbn. repeat split; trivial. }
  unfold MeasurementCoordinator.time, MeasurementCoordinator.catch,
    MeasurementCoordinator.rht_take_measurement. cbn.
  destruct (rht w (rht_reads w)) as [readings|e].
  2:{ unfold MeasurementCoordinator.emit, ret. cbn.
      repeat split; trivial; discriminate. }
  unfold MeasurementCoordinator.emit, MeasurementCoordinator.on_hw. cbn.
  destruct (LoadCellArray.take_measurement _ (hw w)) as [[masses|e] hw'].
  2:{ cbn. repeat split; trivial; discriminate. }
  cbn. destruct (Qltb _ _); unfold ret; cbn; repeat split; trivial;
    discriminate.
Qed.

(** X19.  The flag is looked up once per pass, and the loop is left at the first
    lookup that finds it unset.  If [run] leaves the loop, the last lookup
    found the flag unset and every lookup before it found it set; if it is
    still going after [fuel] passes, or was ended by an exception, every
    lookup found the flag set, and in the first case there were [fuel] of
    them. *)
Theorem run_leaves_at_first_unset_flag (self : MeasurementCoordinator.t) (fuel : nat) :
  forall w r w',
  MeasurementCoordinator.run fuel self w = (r, w') ->
  match r with
  | Ok Break =>
      (lookups w < lookups w')%nat /\
      measure w (lookups w' - 1) = false /\
      forall i, (lookups w <= i < lookups w' - 1)%nat -> measure w i = true
  | Ok Continue =>
      lookups w' = (lookups w + fuel)%nat /\
      forall i, (lookups w <= i < lookups w')%nat -> measure w i = true
  | Raise _ =>
      (lookups w < lookups w' <= lookups w + fuel)%nat /\
      forall i, (lookups w <= i < lookups w')%nat -> measure w i = true
  end.
Proof.
  induction fuel as [|fuel IH]; intros w r w' E.
  - cbn in E. injection E as <- <-. split; [lia|]. intros i Hi. lia.
  - cbn [MeasurementCoordinator.run] in E. unfold bind at 1 in E.
    destruct (cycle_flag self w) as (Hm & Hl & Hb).
    destruct (MeasurementCoordinator.cycle self w) as [[[|]|e] w1] eqn:C;
      cbn [fst snd] in *.
    + apply IH in E. rewrite Hm, Hl in E.
      assert (Set1 : measure w (lookups w) = true).
      { destruct (measure w (lookups w)); trivial.
        discriminate (proj2 Hb eq_refl). }
      destruct r as [[|]|e].
      * destruct E as (L & A). split; [lia|].
        intros i Hi. destruct (Nat.eq_dec i (lookups w)) as [-> | N];
          [exact Set1 | apply A; lia].
      * destruct E as (L & F & A). split; [lia|]. split; [exact F|].
        intros i Hi. destruct (Nat.eq_dec i (lookups w)) as [-> | N];
          [exact Set1 | apply A; lia].
      * destruct E as (L & A). split; [lia|].
        intros i Hi. destruct (Nat.eq_dec i (lookups w)) as [-> | N];
          [exact Set1 | apply A; lia].
    + unfold ret in E. injection E as <- <-. rewrite Hl.
      split; [lia|]. split.
      * replace (S (lookups w) - 1)%nat with (lookups w) by lia.
        now apply Hb.
      * intros i Hi. lia.
    + injection E as <- <-. rewrite Hl. split; [lia|]. intros i Hi.
      replace i with (lookups w) by lia.
      destruct (measure w (lookups w)); trivial.
      discriminate (proj2 Hb eq_refl).
Qed.

Lemma run_leaves_at_first_unset_flag_witness :
  (lookups (with_measure steady_world (fun k => Nat.ltb k 2)) <
   lookups (snd (MeasurementCoordinator.run 5 fitted_coordinator
                   (with_measure steady_world (fun k => Nat.ltb k 2)))))%nat /\
  Nat.ltb
    (lookups (snd (MeasurementCoordinator.run 5 fitted_coordinator
                     (with_measure steady_world (fun k => Nat.ltb k 2)))) - 1)
    2 = false /\
  forall i,
    (lookups (with_measure steady_world (fun k => Nat.ltb k 2)) <= i <
     lookups (snd (MeasurementCoordinator.run 5 fitted_coordinator
                     (with_measure steady_world (fun k => Nat.ltb k 2)))) - 1)%nat ->
    Nat.ltb i 2 = true.
Proof.
  refine (run_leaves_at_first_unset_flag fitted_coordinator 5
            (with_measure steady_world (fun k => Nat.ltb k 2)) (Ok Break)
            (snd (MeasurementCoordinator.run 5 fitted_coordinator
                    (with_measure steady_world (fun k => Nat.ltb k 2))))
            _).
  vm_compute. reflexivity.
Defined.

Lemma count_app (p : event -> bool) (l1 l2 : list event) :
  count p (l1 ++ l2) = (count p l1 + count p l2)%nat.
Proof. unfold count. now rewrite filter_app, length_app. Qed.

Lemma pacing_events (self : MeasurementCoordinator.t) (w : World) :
  count is_rht_result (pacing self w) = 0%nat /\
  count is_mass_result (pacing self w) = 0%nat /\
  count is_read (pacing self w) = 0%nat /\
  (count is_sleep (pacing self w) <= 1)%nat.
Proof.
  unfold pacing. destruct (Qltb _ _); cbn; repeat split; lia.
Qed.

(** X20.  Over any number of passes the worker only adds to what it has emitted,
    and what it adds is paired: as many [read] signals as mass results, at
    most one sleep and at most one pass per mass result, and as many
    humidity results as mass results, except that a run ended by an
    exception (of the mass read) has published one humidity result more. *)
Theorem run_publishes_in_pairs (self : MeasurementCoordinator.t) (fuel : nat) :
  forall w r w',
  MeasurementCoordinator.run fuel self w = (r, w') ->
  exists evs,
    trace w' = trace w ++ evs /\
    count is_read evs = count is_mass_result evs /\
    count is_rht_result evs =
      (count is_mass_result evs +
       match r with Raise _ => 1 | Ok _ => 0 end)%nat /\
    (count is_sleep evs <= count is_mass_result evs)%nat /\
    (count is_mass_result evs <= fuel)%nat.
Proof.
  induction fuel as [|fuel IH]; intros w r w' E.
  - cbn in E. injection E as <- <-. exists []. rewrite app_nil_r.
    cbn. repeat split; lia.
  - cbn [MeasurementCoordinator.run] in E. unfold bind at 1 in E.
    pose proof (cycle_trace self w) as T.
    pose proof (pacing_events self w) as (P1 & P2 & P3 & P4).
    destruct (cycle_cases self w)
      as [(_ & R & Ev) | [(_ & e & _ & R & Ev) |
          [(_ & rd & e & _ & _ & R & Ev) | (_ & rd & ms & _ & _ & R & Ev)]]];
      rewrite Ev in T;
      destruct (MeasurementCoordinator.cycle self w) as [rc w1];
      cbn [fst snd] in *; subst rc.
    + unfold ret in E. injection E as <- <-. exists [].
      rewrite T. cbn. repeat split; lia.
    + apply IH in E. destruct E as (evs & T2 & C1 & C2 & C3 & C4).
      exists (Print e :: evs). rewrite T2, T, <- app_assoc.
      split; [reflexivity|]. unfold count in *. cbn [filter is_read
        is_mass_result is_rht_result is_sleep]. repeat split; lia.
    + injection E as <- <-. exists [RhtResult rd]. rewrite T.
      cbn. repeat split; lia.
    + apply IH in E. destruct E as (evs & T2 & C1 & C2 & C3 & C4).
      exists (([RhtResult rd; MassResult (clock w (S (ticks w)) :: ms)]
               ++ pacing self w ++ [Read]) ++ evs).
      rewrite T2, T, <- !app_assoc. split; [reflexivity|].
      rewrite !count_app, P1, P2, P3. cbn. repeat split; lia.
Qed.

Lemma run_publishes_in_pairs_witness :
  exists evs,
    trace (snd (MeasurementCoordinator.run 2 sample_coordinator steady_world)) =
      trace steady_world ++ evs /\
    count is_read evs = count is_mass_result evs /\
    count is_rht_result evs = (count is_mass_result evs + 1)%nat /\
    (count is_sleep evs <= count is_mass_result evs)%nat /\
    (count is_mass_result evs <= 2)%nat.
Proof.
  refine (run_publishes_in_pairs sample_coordinator 2 steady_world
            (Raise TypeError)
            (snd (MeasurementCoordinator.run 2 sample_coordinator steady_world))
            _).
  vm_compute. reflexivity.
Defined.

(** ** LoadCell: the tare value *)

Lemma list_extremes (l : list Z) :
  l <> [] ->
  exists lo hi, In lo l /\ In hi l /\ forall x, In x l -> lo <= x <= hi.
Proof.
  induction l as [|a l IH]; [congruence|]. intros _.
  destruct l as [|b l].
  - exists a, a. cbn. intuition lia.
  - destruct (IH ltac:(discriminate)) as (lo & hi & Hlo & Hhi & B).
    exists (Z.min a lo), (Z.max a hi). split; [|split].
    + destruct (Z.min_spec a lo) as [(_ & ->) | (_ & ->)];
        [now left | now right].
    + destruct (Z.max_spec a hi) as [(_ & ->) | (_ & ->)];
        [now right | now left].
    + intros x [<- | Hx]; [lia|]. specialize (B x Hx). lia.
Qed.

Lemma sum_bounds (l : list Z) (lo hi : Z) :
  (forall x, In x l -> lo <= x <= hi) ->
  lo * Z.of_nat (List.length l) <= sum l <= hi * Z.of_nat (List.length l).
Proof.
  induction l as [|a l IH]; intros B.
  - cbn. lia.
  - rewrite sum_cons. cbn [List.length].
    pose proof (B a (or_introl eq_refl)).
    specialize (IH (fun x Hx => B x (or_intror Hx))). lia.
Qed.

(** X8.  [tare] on the samples (of the 24-bit converter) the driver
    returns: with none it raises [ZeroDivisionError] and assigns no offset;
    otherwise it assigns their arithmetic mean, which lies between the
    smallest and the largest of them, and changes nothing else of the
    sensor. *)
Theorem tare_mean_of_samples (self : LoadCell.t) (sample_size : nat)
    (hw hw' : HX711) (readings : list Z) :
  LoadCell.get_raw_data self sample_size hw = (Ok readings, hw') ->
  Forall raw24 readings ->
  match readings with
  | [] => LoadCell.tare self sample_size hw = (Raise ZeroDivisionError, hw')
  | _ :: _ =>
      exists lo hi,
        LoadCell.tare self sample_size hw =
          (Ok (LoadCell.set_offset self (Some (mean readings))), hw') /\
        In lo readings /\ In hi readings /\
        (forall x, In x readings -> lo <= x <= hi) /\
        (inject_Z lo <= mean readings)%Q /\ (mean readings <= inject_Z hi)%Q
  end.
Proof.
  intros Pull _. unfold LoadCell.tare. rewrite (bind_ok _ _ _ _ _ Pull).
  destruct readings as [|r rest]; [reflexivity|].
  set (l := r :: rest).
  destruct (list_extremes l ltac:(discriminate)) as (lo & hi & Hlo & Hhi & B).
  pose proof (sum_bounds l lo hi B) as (S1 & S2).
  rewrite sum_total in S1, S2.
  assert (N : 1 <= Z.of_nat (List.length l)) by (unfold l; simpl; lia).
  assert (Pq : (0 < inject_Z (Z.of_nat (List.length l)))%Q).
  { change 0%Q with (inject_Z 0). rewrite <- Zlt_Qlt. lia. }
  exists lo, hi.
  split.
  { unfold bind, lift, ret. rewrite average_mean by discriminate. reflexivity. }
  split; [exact Hlo|]. split; [exact Hhi|]. split; [exact B|].
  unfold mean. split.
  - apply Qle_shift_div_l; trivial.
    rewrite <- inject_Z_mult, <- Zle_Qle. exact S1.
  - apply Qle_shift_div_r; trivial.
    rewrite <- inject_Z_mult, <- Zle_Qle. exact S2.
Qed.

Lemma tare_mean_of_samples_witness :
  exists lo hi,
    LoadCell.tare cell_1L 25 ramp_hw =
      (Ok (LoadCell.set_offset cell_1L
             (Some (mean [1; 2; 3; 4; 5; 6; 7; 8; 9; 10]))),
       bump (5, 6) ramp_hw) /\
    In lo [1; 2; 3; 4; 5; 6; 7; 8; 9; 10] /\
    In hi [1; 2; 3; 4; 5; 6; 7; 8; 9; 10] /\
    (forall x, In x [1; 2; 3; 4; 5; 6; 7; 8; 9; 10] -> lo <= x <= hi) /\
    (inject_Z lo <= mean [1; 2; 3; 4; 5; 6; 7; 8; 9; 10]%Z)%Q /\
    (mean [1; 2; 3; 4; 5; 6; 7; 8; 9; 10]%Z <= inject_Z hi)%Q.
Proof.
  apply (tare_mean_of_samples cell_1L 25 ramp_hw (bump (5, 6) ramp_hw)
           [1; 2; 3; 4; 5; 6; 7; 8; 9; 10] eq_refl).
  apply Forall_forall. intros x Hx. simpl in Hx. unfold raw24. lia.
Defined.
